(** * StayLive review-ingestion pipeline: shallow embedding and properties

    The embedded code is the ingestion script [scripts/ingest-hotel-data.ts]
    (cohort modes, two review providers) together with its sibling
    [scripts/ingest-top-hotels.ts] (fixed cohort, one provider).  Both
    scripts share [validateIssueKey], [isReviewWithinDateLimit],
    [transformReviewToSafetyInsight], [checkExistingReport] and
    [upsertReport] verbatim.  Of the code of [ingest-hotel-data.ts] that
    the driver does not call, the adapter [fetchGoogleReviews] is
    embedded; the two searches of places, [searchHotelsGoogle] and
    [searchHotelsGoogleLegacy], which talk to endpoints that no driver
    reaches, are not.

    Conventions of the embedding.
    - A JavaScript string is a [string] whose characters are read as code
      units in the range 0..255; [toLowerCase] and [trim] are the
      ECMAScript operations restricted to that range.
    - Calls that leave the process (HTTP, the store, the clock, the random
      source, the file system) are nodes of a program tree [Prog]; the
      answer of the outside world is the argument of the continuation.
      Console logging has no influence on control flow and is left out.
    - [process.exit] is a leaf of the tree that carries the exit code.
    - A JavaScript number is a binary64 value, a [spec_float] of the
      Standard Library with precision 53 and exponent bound 1024; the
      product of two numbers and the number for an integer are rounded to
      the nearest value, ties to even.
    - Library code is taken to behave as documented: the store client
      reports a failed query in its answer instead of throwing.  Whether
      [createClient] accepts the configured URL and key or throws is a
      parameter of the scripts. *)

From Stdlib Require Import ZArith QArith Qround String Ascii Bool Lia.
From Stdlib Require Import SpecFloat.
From stdpp Require Import base list strings gmap.
From stdpp Require Import pretty.

(** ** JavaScript strings *)

Module Js.

Definition code (c : ascii) : N := N_of_ascii c.

(** Simple case mapping of ECMAScript on code units below 256: the Latin
    capital letters and the capital letters of the Latin-1 supplement
    (all of U+00C0..U+00DE except the multiplication sign U+00D7). *)
Definition isUpper (c : ascii) : bool :=
  let n := code c in
  ((65 <=? n) && (n <=? 90) ||
   (192 <=? n) && (n <=? 222) && negb (n =? 215))%N.

Definition lowerChar (c : ascii) : ascii :=
  if isUpper c then ascii_of_N (code c + 32) else c.

Fixpoint toLowerCase (s : string) : string :=
  match s with
  | EmptyString => EmptyString
  | String c r => String (lowerChar c) (toLowerCase r)
  end.

(** WhiteSpace and LineTerminator code units below 256: TAB, LF, VT, FF,
    CR, SPACE and NO-BREAK SPACE. *)
Definition isWhiteSpace (c : ascii) : bool :=
  let n := code c in
  ((9 <=? n) && (n <=? 13) || (n =? 32) || (n =? 160))%N.

Fixpoint trimStart (s : string) : string :=
  match s with
  | EmptyString => EmptyString
  | String c r => if isWhiteSpace c then trimStart r else s
  end.

Fixpoint trimEnd (s : string) : string :=
  match s with
  | EmptyString => EmptyString
  | String c r =>
      match trimEnd r with
      | EmptyString => if isWhiteSpace c then EmptyString else String c EmptyString
      | r' => String c r'
      end
  end.

Definition trim (s : string) : string := trimEnd (trimStart s).

(** [s.slice(0, n)] for a non-negative [n]. *)
Fixpoint sliceTo (n : nat) (s : string) : string :=
  match n, s with
  | O, _ => EmptyString
  | _, EmptyString => EmptyString
  | S n', String c r => String c (sliceTo n' r)
  end.

Definition isEmpty (s : string) : bool :=
  match s with EmptyString => true | _ => false end.

(** The rest of [s] after the prefix [p], if [s] starts with [p]. *)
Fixpoint stripPrefix (p s : string) : option string :=
  match p, s with
  | EmptyString, _ => Some s
  | String a p', String b s' => if bool_decide (a = b) then stripPrefix p' s' else None
  | String _ _, EmptyString => None
  end.

(** [s.replace(pat, rep)] with a string pattern: the first occurrence
    only. *)
Fixpoint replaceFirst (pat rep s : string) : string :=
  match stripPrefix pat s with
  | Some rest => rep +:+ rest
  | None =>
      match s with
      | EmptyString => EmptyString
      | String c r => String c (replaceFirst pat rep r)
      end
  end.

(** [xs.join(sep)] *)
Fixpoint join (sep : string) (xs : list string) : string :=
  match xs with
  | [] => EmptyString
  | [x] => x
  | x :: r => x +:+ sep +:+ join sep r
  end.

Definition newline : string := String (ascii_of_nat 10) EmptyString.
Definition quote : string := String (ascii_of_nat 34) EmptyString.

End Js.

(** ** JavaScript numbers *)

Module Num.

(** The parameters of binary64. *)
Definition prec : Z := 53.
Definition emax : Z := 1024.

(** The Number for an integer: the nearest binary64 value, ties to even,
    and an infinity from [2^1024 - 2^970] on. *)
Definition ofZ (z : Z) : spec_float := binary_normalize prec emax z 0 false.

(** [x * y] *)
Definition mul (x y : spec_float) : spec_float := SFmul prec emax x y.

(** [Math.floor(x)] for a finite number; [None] for NaN and the
    infinities, which [Math.floor] hands back. *)
Definition floor (x : spec_float) : option Z :=
  match x with
  | S754_zero _ => Some 0%Z
  | S754_finite s m e => Some (Z.shiftl (cond_Zopp s (Zpos m)) e)
  | S754_infinity _ | S754_nan => None
  end.

(** The value of a finite number, as a rational. *)
Definition toQ (x : spec_float) : Q :=
  match x with
  | S754_finite s m e => (inject_Z (cond_Zopp s (Zpos m)) * (2 # 1) ^ e)%Q
  | _ => 0%Q
  end.

(** [0 <= x < 1], for a number with positive sign. *)
Definition inUnitInterval (x : spec_float) : bool :=
  match x with
  | S754_zero s => negb s
  | S754_finite s m e => negb s && (e <? 0)%Z && (Zpos m <? 2 ^ (- e))%Z
  | S754_infinity _ | S754_nan => false
  end.

End Num.

(** ** Issue categories *)

Definition VALID_ISSUE_KEYS : list string :=
  [ "power"; "construction"; "water"; "wifi"; "ac"; "elevator";
    "noise"; "pool"; "restaurant"; "cleaning"; "other" ]%string.

(** [VALID_ISSUE_KEYS.includes(k)] *)
Definition includes (keys : list string) (k : string) : bool :=
  bool_decide (k ∈ keys).

(** [validateIssueKey] at its declared argument type [string]:
    [key?.toLowerCase().trim()], then the membership test. *)
Definition validateIssueKey (key : string) : string :=
  let normalized := Js.trim (Js.toLowerCase key) in
  if includes VALID_ISSUE_KEYS normalized then normalized else "other"%string.


(** ** JSON values and the dynamic operations the scripts apply to them *)

#[warnings="-register-all"]
Inductive json : Type :=
| JNull
| JBool (b : bool)
| JNum (q : Q)
| JStr (s : string)
| JArr (xs : list json)
| JObj (fields : gmap string json).

(** Result of evaluating code inside a [try] block. *)
Inductive Completion (A : Type) : Type :=
| Normal (a : A)
| Thrown.
Arguments Normal {A} a.
Arguments Thrown {A}.

Definition cbind {A B} (c : Completion A) (f : A -> Completion B) : Completion B :=
  match c with
  | Normal a => f a
  | Thrown => Thrown
  end.

Module Dyn.

(** A JavaScript value read out of JSON; [None] is [undefined]. *)
Definition value : Type := option json.

(** ToBoolean *)
Definition truthy (v : value) : bool :=
  match v with
  | None | Some JNull => false
  | Some (JBool b) => b
  | Some (JNum q) => negb (Qeq_bool q 0)
  | Some (JStr s) => negb (Js.isEmpty s)
  | Some (JArr _) | Some (JObj _) => true
  end.

(** [o.name] for a value [o] that is neither [null] nor [undefined] and
    a name that is not a built-in property of strings and arrays. *)
Definition prop (o : json) (name : string) : value :=
  match o with
  | JObj fields => fields !! name
  | _ => None
  end.

(** [o[0]] for a non-nullish [o]. *)
Definition first (o : json) : value :=
  match o with
  | JArr xs => head xs
  | JObj fields => fields !! "0"%string
  | JStr (String c _) => Some (JStr (String c EmptyString))
  | _ => None
  end.

(** [o.name] where [o] may be nullish: a TypeError then. *)
Definition get (o : value) (name : string) : Completion value :=
  match o with
  | None | Some JNull => Thrown
  | Some j => Normal (prop j name)
  end.

(** [o?.name] and [o?.[0]] *)
Definition getOpt (o : value) (name : string) : value :=
  match o with
  | None | Some JNull => None
  | Some j => prop j name
  end.

Definition firstOpt (o : value) : value :=
  match o with
  | None | Some JNull => None
  | Some j => first j
  end.

(** [a || b] *)
Definition or (a b : value) : value := if truthy a then a else b.

(** [v === 'literal'] *)
Definition strictEqStr (v : value) (lit : string) : bool :=
  match v with
  | Some (JStr s) => bool_decide (s = lit)
  | _ => false
  end.

End Dyn.

(** [validateIssueKey] on an arbitrary run-time value.  The optional chain
    [key?.toLowerCase().trim()] stops at a nullish key and leaves
    [undefined], which is not in the list; a value of any other non-string
    type has no [toLowerCase] method and the call throws a TypeError. *)
Definition validateIssueKeyDyn (key : Dyn.value) : Completion string :=
  match key with
  | None | Some JNull => Normal "other"%string
  | Some (JStr s) => Normal (validateIssueKey s)
  | Some _ => Thrown
  end.

(** ** The two regular expressions of the scripts *)

Module Re.

Definition openBrace : ascii := "{"%char.
Definition closeBrace : ascii := "}"%char.

(** Suffix of [s] that starts at its first opening brace. *)
Fixpoint fromFirstOpen (s : string) : option string :=
  match s with
  | EmptyString => None
  | String c r => if bool_decide (c = openBrace) then Some s else fromFirstOpen r
  end.

(** Longest prefix of [s] that ends with a closing brace. *)
Fixpoint throughLastClose (s : string) : option string :=
  match s with
  | EmptyString => None
  | String c r =>
      match throughLastClose r with
      | Some r' => Some (String c r')
      | None => if bool_decide (c = closeBrace) then Some (String c EmptyString) else None
      end
  end.

(** [content.match(/\{[\s\S]*\}/)]: the text of the match, if any.  The
    leftmost match starts at the first opening brace; the greedy star
    extends it to the last closing brace.  When no closing brace follows
    the first opening brace, none follows a later one either. *)
Definition matchObject (content : string) : option string :=
  match fromFirstOpen content with
  | Some (String c r) => String c <$> throughLastClose r
  | _ => None
  end.

Definition fence : string := "```".

(** The lazily captured group followed by the closing fence. *)
Fixpoint untilFence (s : string) : option string :=
  match Js.stripPrefix fence s with
  | Some _ => Some EmptyString
  | None =>
      match s with
      | EmptyString => None
      | String c r => String c <$> untilFence r
      end
  end.

(** An attempt of [/## System Prompt\s*```([\s\S]*?)```/] anchored at the
    start of [s]; the result is the captured group. *)
Definition systemPromptAt (s : string) : option string :=
  rest ← Js.stripPrefix "## System Prompt" s;
  body ← Js.stripPrefix fence (Js.trimStart rest);
  untilFence body.

(** [content.match(...)]: the first position at which the attempt
    succeeds. *)
Fixpoint matchSystemPrompt (s : string) : option string :=
  match systemPromptAt s with
  | Some g => Some g
  | None =>
      match s with
      | EmptyString => None
      | String _ r => matchSystemPrompt r
      end
  end.

End Re.


(** ** Data of the pipeline *)

Inductive Severity : Type := warning | critical.

#[global] Instance Severity_eq_dec : EqDecision Severity.
Proof. solve_decision. Defined.

(** The environment-derived and literal settings of a script.
    [ANONYMOUS_PROBABILITY] holds the value of a Number: the literal
    [0.3] of both scripts denotes [5404319552844595 / 2^54]. *)
Record Config : Type := {
  GOOGLE_MAPS_API_KEY : string;
  TRIPADVISOR_API_KEY : string;
  DEEPSEEK_API_KEY : string;
  DEEPSEEK_API_URL : string;
  SUPABASE_URL : string;
  SUPABASE_SERVICE_KEY : string;
  MAX_HOTELS : nat;
  MAX_REVIEWS_PER_HOTEL : nat;
  MAX_REVIEW_RATING : Z;
  MAX_REVIEW_AGE_DAYS : Z;
  API_DELAY_MS : Z;
  SYSTEM_REPORTER_NAME : string;
  ANONYMOUS_PROBABILITY : Q;
  RANDOM_SAMPLE_SIZE : Z;
  (** the [required] list of [validateConfig] *)
  REQUIRED : list string
}.

(** [process.env]: the variables the scripts read. *)
Record ProcessEnv : Type := {
  env_GOOGLE_MAPS_API_KEY : option string;
  env_TRIPADVISOR_API_KEY : option string;
  env_DEEPSEEK_API_KEY : option string;
  env_DEEPSEEK_API_URL : option string;
  env_NEXT_PUBLIC_SUPABASE_URL : option string;
  env_SUPABASE_SERVICE_ROLE_KEY : option string
}.

(** [process.env.X || fallback] *)
Definition envOr (v : option string) (fallback : string) : string :=
  match v with
  | Some (String c r) => String c r
  | _ => fallback
  end.

(** [CONFIG] of [ingest-hotel-data.ts]. *)
Definition CONFIG (env : ProcessEnv) : Config := {|
  GOOGLE_MAPS_API_KEY := envOr (env_GOOGLE_MAPS_API_KEY env) EmptyString;
  TRIPADVISOR_API_KEY := envOr (env_TRIPADVISOR_API_KEY env) EmptyString;
  DEEPSEEK_API_KEY := envOr (env_DEEPSEEK_API_KEY env) EmptyString;
  DEEPSEEK_API_URL :=
    envOr (env_DEEPSEEK_API_URL env) "https://api.deepseek.com/v1/chat/completions";
  SUPABASE_URL := envOr (env_NEXT_PUBLIC_SUPABASE_URL env) EmptyString;
  SUPABASE_SERVICE_KEY := envOr (env_SUPABASE_SERVICE_ROLE_KEY env) EmptyString;
  MAX_HOTELS := 300;
  MAX_REVIEWS_PER_HOTEL := 20;
  MAX_REVIEW_RATING := 3;
  MAX_REVIEW_AGE_DAYS := 30;
  API_DELAY_MS := 500;
  SYSTEM_REPORTER_NAME := "StayLive Assistant";
  ANONYMOUS_PROBABILITY := 5404319552844595 # 18014398509481984;
  RANDOM_SAMPLE_SIZE := 20;
  REQUIRED := [ "GOOGLE_MAPS_API_KEY"; "TRIPADVISOR_API_KEY"; "DEEPSEEK_API_KEY";
                "SUPABASE_URL"; "SUPABASE_SERVICE_KEY" ]%string
|}.

(** [CONFIG] of [ingest-top-hotels.ts]: no age limit, no Google key. *)
Definition CONFIG_top (env : ProcessEnv) : Config := {|
  GOOGLE_MAPS_API_KEY := EmptyString;
  TRIPADVISOR_API_KEY := envOr (env_TRIPADVISOR_API_KEY env) EmptyString;
  DEEPSEEK_API_KEY := envOr (env_DEEPSEEK_API_KEY env) EmptyString;
  DEEPSEEK_API_URL :=
    envOr (env_DEEPSEEK_API_URL env) "https://api.deepseek.com/v1/chat/completions";
  SUPABASE_URL := envOr (env_NEXT_PUBLIC_SUPABASE_URL env) EmptyString;
  SUPABASE_SERVICE_KEY := envOr (env_SUPABASE_SERVICE_ROLE_KEY env) EmptyString;
  MAX_HOTELS := 0;
  MAX_REVIEWS_PER_HOTEL := 20;
  MAX_REVIEW_RATING := 3;
  MAX_REVIEW_AGE_DAYS := 0;
  API_DELAY_MS := 500;
  SYSTEM_REPORTER_NAME := "StayLive Assistant";
  ANONYMOUS_PROBABILITY := 5404319552844595 # 18014398509481984;
  RANDOM_SAMPLE_SIZE := 0;
  REQUIRED := [ "TRIPADVISOR_API_KEY"; "DEEPSEEK_API_KEY";
                "SUPABASE_URL"; "SUPABASE_SERVICE_KEY" ]%string
|}.

(** [CONFIG[key]] for the keys that [validateConfig] inspects. *)
Definition configValue (cfg : Config) (key : string) : string :=
  if bool_decide (key = "GOOGLE_MAPS_API_KEY"%string) then GOOGLE_MAPS_API_KEY cfg
  else if bool_decide (key = "TRIPADVISOR_API_KEY"%string) then TRIPADVISOR_API_KEY cfg
  else if bool_decide (key = "DEEPSEEK_API_KEY"%string) then DEEPSEEK_API_KEY cfg
  else if bool_decide (key = "SUPABASE_URL"%string) then SUPABASE_URL cfg
  else if bool_decide (key = "SUPABASE_SERVICE_KEY"%string) then SUPABASE_SERVICE_KEY cfg
  else EmptyString.

(** [required.filter(key => !CONFIG[key])] *)
Definition missingKeys (cfg : Config) : list string :=
  filter (fun key => configValue cfg key = EmptyString) (REQUIRED cfg).

(** The command line of [ingest-hotel-data.ts] after parsing:
    [useUnprocessedOnly], [useRandomSampling] and [RANDOM_SAMPLE_COUNT],
    a Number that [parseInt] returned or [RANDOM_SAMPLE_SIZE]: it is
    given by the integer that it holds, and [None] is the NaN that
    [parseInt] gives on a malformed number. *)
Record CommandLine : Type := {
  useUnprocessedOnly : bool;
  useRandomSampling : bool;
  RANDOM_SAMPLE_COUNT : option Z
}.

Record TripAdvisorLocation : Type := {
  location_id : string;
  location_name : string
}.

Record TripAdvisorReview : Type := {
  ta_id : string;
  ta_title : string;
  ta_text : string;
  ta_rating : Z;
  ta_published_date : string
}.

Record GoogleReview : Type := {
  g_name : string;
  g_rating : Z;
  g_text : option string;
  g_originalText : option string;
  g_authorName : option string;
  g_publishTime : string
}.

Inductive ReviewSource : Type := tripadvisor | google.

Record UnifiedReview : Type := {
  id : string;
  text : string;
  rating : Z;
  publishDate : string;
  source : ReviewSource;
  authorName : option string
}.

Record DatabaseHotel : Type := {
  name : string;
  google_place_id : option string
}.

(** A row of the [hotels] table selected with its [id]. *)
Record HotelRecord : Type := {
  hotel_id : string;
  hotel_record_name : string;
  hotel_record_place_id : option string
}.

Definition asDatabaseHotel (h : HotelRecord) : DatabaseHotel :=
  {| name := hotel_record_name h; google_place_id := hotel_record_place_id h |}.

Record Insight : Type := {
  insight : json;
  issueKey : string;
  severity : Severity
}.

Record ProcessedReport : Type := {
  hotel_name : string;
  issue_key : string;
  report_severity : Severity;
  description : json;
  is_anonymous : bool;
  is_verified : bool;
  system_reporter_name : option string;
  external_review_id : string;
  external_review_date : string
}.

(** The object handed to [insert]; [source] is always ['system'] and
    [reporter_id] always [null]. *)
Record ReportInsert : Type := {
  ins_hotel_name : string;
  ins_issue_key : string;
  ins_severity : Severity;
  ins_description : json;
  ins_is_anonymous : bool;
  ins_is_verified : bool;
  ins_system_reporter_name : option string;
  ins_external_review_id : string;
  ins_external_review_date : string;
  ins_created_at : string
}.

Record Counters : Type := {
  totalReviews : nat;
  skippedReviews : nat;
  successfulReports : nat
}.

(** ** Answers of the outside world *)

(** Outcome of [fetch] followed by [response.json()]. *)
Inductive Fetched (B : Type) : Type :=
| Rejected                                   (* [fetch] rejects *)
| Responded (status : Z) (body : option B).  (* [None]: the body is not usable JSON *)
Arguments Rejected {B}.
Arguments Responded {B} status body.

(** [response.ok] *)
Definition ok (status : Z) : bool := (200 <=? status)%Z && (status <=? 299)%Z.

(** [{ data, error }] of a store query. *)
Record StoreAnswer (A : Type) : Type := {
  data : option A;
  error : option string
}.
Arguments data {A} _.
Arguments error {A} _.

Inductive InsertAnswer : Type :=
| InsertOk
| InsertError (message : string)
| InsertThrows.

(** A value of [Math.random()]: a Number with positive sign, from 0
    (included) to 1 (excluded). *)
Record Random01 : Type := {
  rnd_number : spec_float;
  rnd_range :
    valid_binary Num.prec Num.emax rnd_number && Num.inUnitInterval rnd_number = true
}.

(** The value drawn. *)
Definition rnd (r : Random01) : Q := Num.toQ (rnd_number r).

(** The calls that leave the process, each with the type of its answer. *)
Inductive Call : Type -> Type :=
| Sleep (ms : Z) : Call unit
| Now : Call Z
| MathRandom : Call Random01
| PromptFileExists : Call bool
| ReadPromptFile : Call (option string)
| TripAdvisorSearch (hotelName : string) : Call (Fetched (option (list TripAdvisorLocation)))
| TripAdvisorReviews (locationId : string) : Call (Fetched (option (list TripAdvisorReview)))
| GooglePlaceDetails (placeId : string) : Call (Fetched (option (list GoogleReview)))
| DeepSeekChat (systemPrompt userPrompt : string) : Call (Fetched json)
| SelectHotelsByName (limit : nat) : Call (StoreAnswer (list DatabaseHotel))
| SelectHotels : Call (StoreAnswer (list DatabaseHotel))
| SelectHotelRecords : Call (StoreAnswer (list HotelRecord))
| SelectReportHotelIds : Call (StoreAnswer (list (option string)))
| SelectReportByReviewId (externalReviewId : string) : Call (option (list string))
| InsertReport (row : ReportInsert) : Call InsertAnswer.

(** A call together with the answer it received. *)
Inductive Event : Type :=
| Answered {X : Type} (c : Call X) (x : X).

(** ** Programs *)

Inductive Prog (A : Type) : Type :=
| Ret (a : A)
| Exit (code : Z)
| Vis {X : Type} (c : Call X) (k : X -> Prog A).
Arguments Ret {A} a.
Arguments Exit {A} code.
Arguments Vis {A X} c k.

Fixpoint bind {A B} (p : Prog A) (f : A -> Prog B) : Prog B :=
  match p with
  | Ret a => f a
  | Exit code => Exit code
  | Vis c k => Vis c (fun x => bind (k x) f)
  end.

#[global] Instance Prog_ret : MRet Prog := @Ret.
#[global] Instance Prog_bind : MBind Prog := fun A B f p => bind p f.

Definition call {X} (c : Call X) : Prog X := Vis c Ret.

(** [for (const x of xs) { ... }] threading the counters of the run. *)
Fixpoint forEach {A S} (xs : list A) (body : A -> S -> Prog S) (s : S) : Prog S :=
  match xs with
  | [] => Ret s
  | x :: rest => s' ← body x s; forEach rest body s'
  end.

(** [xs.filter(x => await p(x))] where the predicate performs calls. *)
Fixpoint filterM {A} (p : A -> Prog bool) (xs : list A) : Prog (list A) :=
  match xs with
  | [] => Ret []
  | x :: rest =>
      keep ← p x;
      rest' ← filterM p rest;
      Ret (if keep : bool then x :: rest' else rest')
  end.

(** How a run ends. *)
Inductive Outcome (A : Type) : Type :=
| Returned (a : A)
| Exited (code : Z).
Arguments Returned {A} a.
Arguments Exited {A} code.

(** An interpretation of the calls over a state of the outside world. *)
Definition Handler (W : Type) : Type := forall X, Call X -> W -> X * W.

Record Run (W A : Type) : Type := {
  outcome : Outcome A;
  world : W;
  trace : list Event
}.
Arguments outcome {W A} _.
Arguments world {W A} _.
Arguments trace {W A} _.

Fixpoint interp {W A} (h : Handler W) (p : Prog A) (w : W) : Run W A :=
  match p with
  | Ret a => {| outcome := Returned a; world := w; trace := [] |}
  | Exit code => {| outcome := Exited code; world := w; trace := [] |}
  | Vis c k =>
      let answer := h _ c w in
      let r := interp h (k answer.1) answer.2 in
      {| outcome := outcome r; world := world r; trace := Answered c answer.1 :: trace r |}
  end.

(** ** The scripts *)

Section Pipeline.

(** [CONFIG] *)
Variable cfg : Config.
(** [JSON.parse]; [None] when it throws a SyntaxError. *)
Variable JSON_parse : string -> option json.
(** The time value of [new Date(s)] in milliseconds; [None] for an
    invalid date, whose time value is NaN. *)
Variable Date_parse : string -> option Z.
(** [setDateBack now n]: the time value of a date created at [now]
    after [d.setDate(d.getDate() - n)]. *)
Variable setDateBack : Z -> Z -> Z.
(** [createClient(url, key)] of the store library returns a client
    ([true]) or throws ([false]); it makes no call. *)
Variable createClient : string -> string -> bool.

Definition sleep (ms : Z) : Prog unit := call (Sleep ms).

(** [Math.random() < CONFIG.ANONYMOUS_PROBABILITY] *)
Definition shouldBeAnonymous : Prog bool :=
  r ← call MathRandom;
  Ret (negb (Qle_bool (ANONYMOUS_PROBABILITY cfg) (rnd r))).

(** [reviewDate >= cutoffDate]; a comparison with NaN is false. *)
Definition notBefore (cutoff : Z) (publishDate : string) : bool :=
  match Date_parse publishDate with
  | Some t => (cutoff <=? t)%Z
  | None => false
  end.

Definition isReviewWithinDateLimit (publishDate : string) : Prog bool :=
  if (MAX_REVIEW_AGE_DAYS cfg =? 0)%Z then Ret true
  else
    now ← call Now;
    Ret (notBefore (setDateBack now (MAX_REVIEW_AGE_DAYS cfg)) publishDate).

(** The two filter stages
    [.filter(r => r.rating <= CONFIG.MAX_REVIEW_RATING)
     .filter(r => isReviewWithinDateLimit(r.publishDate))]
    over reviews with rating [rate r] and date [date r]. *)
Definition filterReviews {R} (rate : R -> Z) (date : R -> string) (reviews : list R)
  : Prog (list R) :=
  filterM (fun r => isReviewWithinDateLimit (date r))
          (filter (fun r => (rate r <= MAX_REVIEW_RATING cfg)%Z) reviews).

Definition loadSystemPrompt : Prog string :=
  present ← call PromptFileExists;
  if negb present then Exit 1
  else
    content ← call ReadPromptFile;
    match content with
    | None => Exit 1
    | Some c =>
        match Re.matchSystemPrompt c with
        | None => Exit 1
        | Some g => Ret (Js.trim g)
        end
    end.

Definition searchHotelTripAdvisor (hotelName : string)
  : Prog (option TripAdvisorLocation) :=
  r ← call (TripAdvisorSearch hotelName);
  Ret (match r with
       | Rejected => None
       | Responded status body =>
           if negb (ok status) then None
           else match body with
                | Some (Some (first :: _)) => Some first
                | _ => None
                end
       end).

Definition fetchTripAdvisorReviews (locationId : string)
  : Prog (list TripAdvisorReview) :=
  r ← call (TripAdvisorReviews locationId);
  match r with
  | Rejected => Ret []
  | Responded status body =>
      if negb (ok status) then Ret []
      else match body with
           | Some (Some reviews) =>
               kept ← filterReviews ta_rating ta_published_date reviews;
               Ret (take (MAX_REVIEWS_PER_HOTEL cfg) kept)
           | _ => Ret []
           end
  end.

(** [`google_${name.replace('places/', '').replace('/reviews/', '_')}`] *)
Definition googleReviewId (resourceName : string) : string :=
  "google_" +:+
    Js.replaceFirst "/reviews/" "_" (Js.replaceFirst "places/" EmptyString resourceName).

(** [review.originalText?.text || review.text?.text || ''] *)
Definition googleReviewText (r : GoogleReview) : string :=
  match g_originalText r with
  | Some (String c s) => String c s
  | _ => match g_text r with
         | Some (String c s) => String c s
         | _ => EmptyString
         end
  end.

Definition googleToUnified (r : GoogleReview) : UnifiedReview :=
  {| id := googleReviewId (g_name r);
     text := googleReviewText r;
     rating := g_rating r;
     publishDate := g_publishTime r;
     source := google;
     authorName := g_authorName r |}.

Definition fetchGoogleReviewsAll (placeId hotelName : string)
  : Prog (list UnifiedReview) :=
  r ← call (GooglePlaceDetails placeId);
  Ret (match r with
       | Rejected => []
       | Responded status body =>
           if negb (ok status) then []
           else match body with
                | Some (Some reviews) =>
                    googleToUnified <$> take (MAX_REVIEWS_PER_HOTEL cfg) reviews
                | _ => []
                end
       end).

Definition convertTripAdvisorToUnified (reviews : list TripAdvisorReview)
  : list UnifiedReview :=
  (fun r => {| id := "tripadvisor_" +:+ ta_id r;
               text := ta_text r;
               rating := ta_rating r;
               publishDate := ta_published_date r;
               source := tripadvisor;
               authorName := None |}) <$> reviews.

(** *** The insight transformer *)

Definition perspectiveInstruction (isAnonymous : bool) : string :=
  if isAnonymous
  then "Write in FIRST PERSON as if you are the guest (use " +:+ Js.quote +:+ "I"
         +:+ Js.quote +:+ ", " +:+ Js.quote +:+ "my" +:+ Js.quote +:+ ", "
         +:+ Js.quote +:+ "me" +:+ Js.quote +:+ ")."
  else "Write in THIRD PERSON as a professional analyst (use " +:+ Js.quote
         +:+ "Guest reported" +:+ Js.quote +:+ ", " +:+ Js.quote
         +:+ "A visitor noted" +:+ Js.quote +:+ ").".

Definition userPrompt (reviewText hotelName : string) (isAnonymous : bool) : string :=
  let q := Js.quote in
  Js.join Js.newline
    [ "Hotel: " +:+ hotelName;
      "Review: " +:+ q +:+ reviewText +:+ q;
      EmptyString;
      "**Perspective: " +:+ (if isAnonymous then "FIRST_PERSON" else "THIRD_PERSON") +:+ "**";
      perspectiveInstruction isAnonymous;
      EmptyString;
      "Analyze this review and provide:";
      "1. A safety insight (1-2 sentences) in the specified perspective";
      "2. The most relevant issue category from: " +:+ Js.join ", " VALID_ISSUE_KEYS;
      "3. Severity level: " +:+ q +:+ "critical" +:+ q
        +:+ " if it poses immediate safety/health risk, otherwise "
        +:+ q +:+ "warning" +:+ q;
      EmptyString;
      "Respond in JSON format only:";
      "{" +:+ q +:+ "insight" +:+ q +:+ ": " +:+ q +:+ "..." +:+ q +:+ ", "
        +:+ q +:+ "issueKey" +:+ q +:+ ": " +:+ q +:+ "..." +:+ q +:+ ", "
        +:+ q +:+ "severity" +:+ q +:+ ": " +:+ q +:+ "..." +:+ q +:+ "}" ]%string.

(** [data.choices?.[0]?.message?.content || ''] *)
Definition replyContent (data : json) : Completion Dyn.value :=
  cbind (Dyn.get (Some data) "choices") (fun choices =>
  Normal (Dyn.or (Dyn.getOpt (Dyn.getOpt (Dyn.firstOpt choices) "message") "content")
                 (Some (JStr EmptyString)))).

(** The object built from a parsed reply. *)
Definition insightOfParsed (parsed : json) : Completion Insight :=
  cbind (Dyn.get (Some parsed) "insight") (fun i =>
  cbind (Dyn.get (Some parsed) "issueKey") (fun k =>
  cbind (validateIssueKeyDyn k) (fun key =>
  cbind (Dyn.get (Some parsed) "severity") (fun sev =>
  Normal {| insight := match Dyn.or i (Some (JStr "Safety concern reported by guest.")) with
                       | Some j => j
                       | None => JNull
                       end;
            issueKey := key;
            severity := if Dyn.strictEqStr sev "critical" then critical else warning |})))).

(** The result when the reply holds no brace-delimited text. *)
Definition insightOfPlainText (content : string) : Insight :=
  let head := Js.sliceTo 500 content in
  {| insight := JStr (if Js.isEmpty head then "Guest reported concerns during stay." else head);
     issueKey := "other";
     severity := warning |}.

(** The first steps of the [try] block once [fetch] has settled: the
    status check, [response.json()] and the text of the reply.  The call
    of [content.match] throws a TypeError on a value that is not a
    string. *)
Definition replyText (r : Fetched json) : Completion string :=
  match r with
  | Rejected => Thrown
  | Responded status body =>
      if negb (ok status) then Thrown
      else match body with
           | None => Thrown
           | Some data =>
               cbind (replyContent data) (fun content =>
               match content with
               | Some (JStr c) => Normal c
               | _ => Thrown
               end)
           end
  end.

(** The rest of the [try] block. *)
Definition insightOfText (c : string) : Completion Insight :=
  match Re.matchObject c with
  | Some m =>
      match JSON_parse m with
      | Some parsed => insightOfParsed parsed
      | None => Thrown
      end
  | None => Normal (insightOfPlainText c)
  end.

Definition interpretReply (r : Fetched json) : Completion Insight :=
  cbind (replyText r) insightOfText.

(** The result of the [catch] block. *)
Definition fallbackInsight : Insight :=
  {| insight := JStr "Guest reported concerns during their stay.";
     issueKey := "other";
     severity := warning |}.

Definition insightOfReply (r : Fetched json) : Insight :=
  match interpretReply r with
  | Normal i => i
  | Thrown => fallbackInsight
  end.

Definition transformReviewToSafetyInsight
    (reviewText hotelName systemPrompt : string) (isAnonymous : bool) : Prog Insight :=
  r ← call (DeepSeekChat systemPrompt (userPrompt reviewText hotelName isAnonymous));
  Ret (insightOfReply r).

(** *** Store operations *)

Definition checkExistingReport (externalReviewId : string) : Prog bool :=
  d ← call (SelectReportByReviewId externalReviewId);
  Ret (match d with
       | Some (_ :: _) => true
       | _ => false
       end).

Definition insertOf (report : ProcessedReport) : ReportInsert :=
  {| ins_hotel_name := hotel_name report;
     ins_issue_key := issue_key report;
     ins_severity := report_severity report;
     ins_description := description report;
     ins_is_anonymous := is_anonymous report;
     ins_is_verified := true;
     ins_system_reporter_name := system_reporter_name report;
     ins_external_review_id := external_review_id report;
     ins_external_review_date := external_review_date report;
     ins_created_at := external_review_date report |}.

Definition upsertReport (report : ProcessedReport) : Prog bool :=
  a ← call (InsertReport (insertOf report));
  Ret (match a with
       | InsertOk => true
       | InsertError _ | InsertThrows => false
       end).

(** *** Cohort selection *)

Definition fetchHotelsFromDatabase : Prog (list DatabaseHotel) :=
  a ← call (SelectHotelsByName (MAX_HOTELS cfg));
  Ret (match error a, data a with
       | Some _, _ => []
       | None, Some rows => rows
       | None, None => []
       end).

(** [[l[i], l[j]] = [l[j], l[i]]] for indices inside the array. *)
Definition swap {A} (l : list A) (i j : nat) : list A :=
  match l !! i, l !! j with
  | Some a, Some b => <[j := a]> (<[i := b]> l)
  | _, _ => l
  end.

(** [Math.floor(Math.random() * (i + 1))]: the product of the draw and
    of the Number [i + 1] is rounded to a Number before [Math.floor]
    takes its integer part.  A product that was not finite would give
    no index; the draw and [i + 1] being finite, it stands for 0 here. *)
Definition randomIndex (r : Random01) (i : nat) : nat :=
  match Num.floor (Num.mul (rnd_number r) (Num.ofZ (Z.of_nat (i + 1)))) with
  | Some j => Z.to_nat j
  | None => 0
  end.

(** The loop [for (let i = ...; i > 0; i--)] of the Fisher-Yates shuffle,
    entered with the loop variable equal to [i]. *)
Fixpoint shuffleFrom {A} (i : nat) (l : list A) : Prog (list A) :=
  match i with
  | O => Ret l
  | S i' =>
      r ← call MathRandom;
      shuffleFrom i' (swap l i (randomIndex r i))
  end.

Definition shuffle {A} (l : list A) : Prog (list A) :=
  shuffleFrom (length l - 1) l.

(** [l.slice(0, Math.min(count, l.length))]; a NaN bound selects
    nothing and a negative bound counts from the end. *)
Definition sliceMin {A} (count : option Z) (l : list A) : list A :=
  match count with
  | None => []
  | Some c =>
      let m := Z.min c (Z.of_nat (length l)) in
      if (m <? 0)%Z then take (Z.to_nat (Z.of_nat (length l) + m)) l
      else take (Z.to_nat m) l
  end.

Definition fetchRandomHotels (count : option Z) : Prog (list DatabaseHotel) :=
  a ← call SelectHotels;
  match error a, data a with
  | Some _, _ => Ret []
  | None, None | None, Some [] => Ret []
  | None, Some rows =>
      shuffled ← shuffle rows;
      Ret (sliceMin count shuffled)
  end.

(** [new Set((rows || []).map(r => r.hotel_id).filter(Boolean))] *)
Definition processedIds (rows : option (list (option string))) : gset string :=
  list_to_set
    (omap (fun v : option string =>
             match v with
             | Some (String c s) => Some (String c s)
             | _ => None
             end) (default [] rows)).

Definition fetchUnprocessedHotels (count : option Z) : Prog (list DatabaseHotel) :=
  processedHotels ← call SelectReportHotelIds;
  match error processedHotels with
  | Some _ => Ret []
  | None =>
      let processedHotelIds := processedIds (data processedHotels) in
      allHotels ← call SelectHotelRecords;
      match error allHotels with
      | Some _ => Ret []
      | None =>
          let unprocessedHotels :=
            filter (fun h => hotel_id h ∉ processedHotelIds)
                   (default [] (data allHotels)) in
          match unprocessedHotels with
          | [] => Ret []
          | _ =>
              shuffled ← shuffle unprocessedHotels;
              Ret (asDatabaseHotel <$> sliceMin count shuffled)
          end
      end
  end.

Definition selectCohort (cmd : CommandLine) : Prog (list DatabaseHotel) :=
  if useUnprocessedOnly cmd then fetchUnprocessedHotels (RANDOM_SAMPLE_COUNT cmd)
  else if useRandomSampling cmd then fetchRandomHotels (RANDOM_SAMPLE_COUNT cmd)
  else fetchHotelsFromDatabase.

(** *** The driver *)

Definition noCounters : Counters :=
  {| totalReviews := 0; skippedReviews := 0; successfulReports := 0 |}.

Definition countReview (c : Counters) : Counters :=
  {| totalReviews := S (totalReviews c);
     skippedReviews := skippedReviews c;
     successfulReports := successfulReports c |}.

Definition countSkipped (c : Counters) : Counters :=
  {| totalReviews := totalReviews c;
     skippedReviews := S (skippedReviews c);
     successfulReports := successfulReports c |}.

Definition countSaved (c : Counters) : Counters :=
  {| totalReviews := totalReviews c;
     skippedReviews := skippedReviews c;
     successfulReports := S (successfulReports c) |}.

Definition reportOf (hotelName : string) (review : UnifiedReview)
    (isAnonymous : bool) (transformed : Insight) : ProcessedReport :=
  {| hotel_name := hotelName;
     issue_key := issueKey transformed;
     report_severity := severity transformed;
     description := insight transformed;
     is_anonymous := isAnonymous;
     is_verified := true;
     system_reporter_name :=
       if isAnonymous then None else Some (SYSTEM_REPORTER_NAME cfg);
     external_review_id := id review;
     external_review_date := publishDate review |}.

(** The body of the loops over the reviews of one hotel; the script
    spells it out once per provider, and [ingest-top-hotels.ts] once
    more, with the same statements. *)
Definition processReview (systemPrompt hotelName : string)
    (review : UnifiedReview) (c : Counters) : Prog Counters :=
  let c := countReview c in
  present ← checkExistingReport (id review);
  if present : bool then Ret (countSkipped c)
  else
    isAnonymous ← shouldBeAnonymous;
    _ ← sleep (API_DELAY_MS cfg);
    transformed ←
      transformReviewToSafetyInsight (text review) hotelName systemPrompt isAnonymous;
    success ← upsertReport (reportOf hotelName review isAnonymous transformed);
    Ret (if success : bool then countSaved c else c).

Definition processReviews (systemPrompt hotelName : string)
    (reviews : list UnifiedReview) (c : Counters) : Prog Counters :=
  forEach reviews (processReview systemPrompt hotelName) c.

(** One iteration of the loop over the hotels of the cohort, entered
    with a truthy place id. *)
Definition processPlace (systemPrompt : string) (hotel : DatabaseHotel)
    (placeId : string) (c : Counters) : Prog Counters :=
  _ ← sleep (API_DELAY_MS cfg);
  tripAdvisorLocation ← searchHotelTripAdvisor (name hotel);
  match tripAdvisorLocation with
  | None =>
      googleReviews ← fetchGoogleReviewsAll placeId (name hotel);
      match googleReviews with
      | [] => Ret c
      | _ =>
          negativeGoogleReviews ← filterReviews rating publishDate googleReviews;
          processReviews systemPrompt (name hotel) negativeGoogleReviews c
      end
  | Some location =>
      _ ← sleep (API_DELAY_MS cfg);
      tripAdvisorReviews ← fetchTripAdvisorReviews (location_id location);
      match tripAdvisorReviews with
      | [] => Ret c
      | _ =>
          processReviews systemPrompt (name hotel)
            (convertTripAdvisorToUnified tripAdvisorReviews) c
      end
  end.

Definition processHotel (systemPrompt : string) (hotel : DatabaseHotel)
    (c : Counters) : Prog Counters :=
  match google_place_id hotel with
  | Some (String a s) => processPlace systemPrompt hotel (String a s) c
  | _ => Ret c
  end.

Definition processCohort (systemPrompt : string) (dbHotels : list DatabaseHotel)
  : Prog Counters :=
  forEach dbHotels (processHotel systemPrompt) noCounters.

(** [createSupabaseClient()].  Both drivers call it outside every [try]
    block: when [createClient] throws, the promise of [runIngestion] is
    rejected, nothing handles the rejection, and the process ends with
    exit code 1. *)
Definition createSupabaseClient : Prog unit :=
  if createClient (SUPABASE_URL cfg) (SUPABASE_SERVICE_KEY cfg) then Ret tt else Exit 1.

(** [runIngestion] of [ingest-hotel-data.ts].  Returning stands for the
    normal end of the process, with exit code 0.  Nothing in the [try]
    block of the driver throws in this embedding (every helper catches
    its own errors and the store client reports errors in its answer),
    so the [catch] block of the driver has no counterpart here. *)
Definition runIngestion (cmd : CommandLine) : Prog Counters :=
  match missingKeys cfg with
  | _ :: _ => Exit 1
  | [] =>
      systemPrompt ← loadSystemPrompt;
      _ ← createSupabaseClient;
      dbHotels ← selectCohort cmd;
      match dbHotels with
      | [] => Exit 1
      | _ => processCohort systemPrompt dbHotels
      end
  end.

(** *** [ingest-top-hotels.ts] *)

Record TopHotel : Type := {
  top_name : string;
  tripAdvisorId : string
}.

Definition TOP_HOTELS : list TopHotel :=
  [ {| top_name := "Crown Towers Melbourne"; tripAdvisorId := "229340" |};
    {| top_name := "Grand Hyatt Melbourne"; tripAdvisorId := "155019" |};
    {| top_name := "The Ritz-Carlton, Melbourne"; tripAdvisorId := "25413156" |};
    {| top_name := "W Melbourne"; tripAdvisorId := "19853381" |};
    {| top_name := "Sofitel Melbourne On Collins"; tripAdvisorId := "155025" |};
    {| top_name := "The Langham, Melbourne"; tripAdvisorId := "155021" |};
    {| top_name := "Pan Pacific Melbourne"; tripAdvisorId := "1217730" |};
    {| top_name := "InterContinental Melbourne"; tripAdvisorId := "1168434" |};
    {| top_name := "Park Hyatt Melbourne"; tripAdvisorId := "155023" |};
    {| top_name := "QT Melbourne"; tripAdvisorId := "10243454" |} ]%string.

(** One iteration of the loop over [TOP_HOTELS].  The loop over the
    reviews builds the external id [`tripadvisor_${review.id}`] and takes
    the date from [published_date], which is what
    [convertTripAdvisorToUnified] followed by [processReview] does. *)
Definition processTopHotel (systemPrompt : string) (hotel : TopHotel)
    (c : Counters) : Prog Counters :=
  _ ← sleep (API_DELAY_MS cfg);
  reviews ← fetchTripAdvisorReviews (tripAdvisorId hotel);
  match reviews with
  | [] => Ret c
  | _ =>
      processReviews systemPrompt (top_name hotel)
        (convertTripAdvisorToUnified reviews) c
  end.

(** [runIngestion] of [ingest-top-hotels.ts]: the cohort is fixed and
    there is no [try] block around the loop. *)
Definition runIngestionTop : Prog Counters :=
  match missingKeys cfg with
  | _ :: _ => Exit 1
  | [] =>
      systemPrompt ← loadSystemPrompt;
      _ ← createSupabaseClient;
      forEach TOP_HOTELS (processTopHotel systemPrompt) noCounters
  end.

End Pipeline.

(** ** A model of the outside world *)

Inductive Provenance : Type := user | system.

(** A row of the [reports] table.  The columns are those the scripts and
    the web application name; [row_hotel_id] is the column that
    [fetchUnprocessedHotels] reads. *)
Record ReportRow : Type := {
  row_id : string;
  row_hotel_id : option string;
  row_hotel_name : string;
  row_issue_key : string;
  row_severity : Severity;
  row_description : json;
  row_reporter_id : option string;
  row_is_anonymous : bool;
  row_is_verified : bool;
  row_source : Provenance;
  row_system_reporter_name : option string;
  row_external_review_id : option string;
  row_external_review_date : option string;
  row_created_at : string
}.

(** The row that an [insert] of the pipeline creates: the columns of the
    inserted object, and the default [null] in the column that the object
    does not mention. *)
Definition rowOfInsert (ins : ReportInsert) : ReportRow :=
  {| row_id := "report:" +:+ ins_external_review_id ins;
     row_hotel_id := None;
     row_hotel_name := ins_hotel_name ins;
     row_issue_key := ins_issue_key ins;
     row_severity := ins_severity ins;
     row_description := ins_description ins;
     row_reporter_id := None;
     row_is_anonymous := ins_is_anonymous ins;
     row_is_verified := ins_is_verified ins;
     row_source := system;
     row_system_reporter_name := ins_system_reporter_name ins;
     row_external_review_id := Some (ins_external_review_id ins);
     row_external_review_date := Some (ins_external_review_date ins);
     row_created_at := ins_created_at ins |}.

(** The state of the outside world that the pipeline can observe: the two
    tables and the number of calls answered so far. *)
Record World : Type := {
  hotels : list HotelRecord;
  reports : list ReportRow;
  calls : nat
}.

(** The behaviour of the providers, of the run-time system and of the
    store connection.  The providers answer by request; the clock, the
    random source and the faults of the store connection go by the
    number of calls answered before, so that time passes during a run
    and between one run and the next. *)
Record Outside : Type := {
  searchAnswer : string -> Fetched (option (list TripAdvisorLocation));
  reviewsAnswer : string -> Fetched (option (list TripAdvisorReview));
  detailsAnswer : string -> Fetched (option (list GoogleReview));
  chatAnswer : string -> string -> Fetched json;
  clock : nat -> Z;
  randomAt : nat -> Random01;
  promptFileExists : bool;
  promptFile : option string;
  readFails : nat -> bool;
  insertFails : nat -> bool
}.

(** [google_place_id is not null] *)
Definition hasPlaceId (h : HotelRecord) : Prop := is_Some (hotel_record_place_id h).

#[global] Instance hasPlaceId_dec h : Decision (hasPlaceId h).
Proof. unfold hasPlaceId. apply _. Defined.

(** [external_review_id = x] *)
Definition hasReviewId (x : string) (row : ReportRow) : Prop :=
  row_external_review_id row = Some x.

#[global] Instance hasReviewId_dec x row : Decision (hasReviewId x row).
Proof. unfold hasReviewId. apply _. Defined.

(** The external review ids present in the table. *)
Definition reviewIds (rows : list ReportRow) : list string :=
  omap row_external_review_id rows.

Definition answered {A} (rows : A) : StoreAnswer A :=
  {| data := Some rows; error := None |}.

Definition unavailable {A} : StoreAnswer A :=
  {| data := None; error := Some "store unavailable"%string |}.

Definition tick (w : World) : World :=
  {| hotels := hotels w; reports := reports w; calls := S (calls w) |}.

(** Modelled from the spec: the relational store, which is not part of
    the source tree.  The [hotels] table is kept in the order of its
    [name] column; the [reports] table has a uniqueness constraint on
    [external_review_id]; a query that cannot be served answers with an
    error and no data. *)
Definition answer (o : Outside) : Handler World :=
  fun X (c : Call X) (w : World) =>
    match c in Call X return X * World with
    | Sleep _ => (tt, tick w)
    | Now => (clock o (calls w), tick w)
    | MathRandom => (randomAt o (calls w), tick w)
    | PromptFileExists => (promptFileExists o, tick w)
    | ReadPromptFile => (promptFile o, tick w)
    | TripAdvisorSearch hotelName => (searchAnswer o hotelName, tick w)
    | TripAdvisorReviews locationId => (reviewsAnswer o locationId, tick w)
    | GooglePlaceDetails placeId => (detailsAnswer o placeId, tick w)
    | DeepSeekChat systemPrompt prompt => (chatAnswer o systemPrompt prompt, tick w)
    | SelectHotelsByName limit =>
        (if readFails o (calls w) then unavailable
         else answered (take limit (asDatabaseHotel <$> filter hasPlaceId (hotels w))),
         tick w)
    | SelectHotels =>
        (if readFails o (calls w) then unavailable
         else answered (asDatabaseHotel <$> filter hasPlaceId (hotels w)),
         tick w)
    | SelectHotelRecords =>
        (if readFails o (calls w) then unavailable
         else answered (filter hasPlaceId (hotels w)),
         tick w)
    | SelectReportHotelIds =>
        (if readFails o (calls w) then unavailable
         else answered (Some <$> omap row_hotel_id (reports w)),
         tick w)
    | SelectReportByReviewId x =>
        (if readFails o (calls w) then None
         else Some (take 1 (row_id <$> filter (hasReviewId x) (reports w))),
         tick w)
    | InsertReport ins =>
        if insertFails o (calls w) then (InsertError "connection lost", tick w)
        else if bool_decide (ins_external_review_id ins ∈ reviewIds (reports w))
        then (InsertError "duplicate key value violates unique constraint", tick w)
        else (InsertOk,
              {| hotels := hotels w;
                 reports := reports w ++ [rowOfInsert ins];
                 calls := S (calls w) |})
    end.

(** ** Observations on runs *)

(** The exit code of the process: zero when the driver returns. *)
Definition exitCode {A} (o : Outcome A) : Z :=
  match o with
  | Returned _ => 0
  | Exited code => code
  end.

(** The object of an insert, for an event that is one. *)
Definition insertOfEvent (ev : Event) : option ReportInsert :=
  match ev with
  | Answered c _ =>
      match c with
      | InsertReport ins => Some ins
      | _ => None
      end
  end.

Definition insertsOf (t : list Event) : list ReportInsert := omap insertOfEvent t.

Definition isChat (ev : Event) : bool :=
  match ev with
  | Answered c _ =>
      match c with
      | DeepSeekChat _ _ => true
      | _ => false
      end
  end.

Definition isInsert (ev : Event) : bool :=
  match insertOfEvent ev with
  | Some _ => true
  | None => false
  end.

(** ** The review filter, as the specification words it *)

Section FilterSpec.

Variable cfg : Config.
Variable Date_parse : string -> option Z.
Variable setDateBack : Z -> Z -> Z.

(** [publishDate >= now - maxAgeDays] *)
Definition recentEnough (now : Z) (publishDate : string) : Prop :=
  ∃ t, Date_parse publishDate = Some t ∧
       (setDateBack now (MAX_REVIEW_AGE_DAYS cfg) <= t)%Z.

(** [rating <= maxRating AND (maxAgeDays == 0 OR publishDate >= now - maxAgeDays)] *)
Definition keeps (now : Z) (r : Z) (publishDate : string) : Prop :=
  (r <= MAX_REVIEW_RATING cfg)%Z ∧
  (MAX_REVIEW_AGE_DAYS cfg = 0%Z ∨ recentEnough now publishDate).

#[global] Instance recentEnough_dec now publishDate :
  Decision (recentEnough now publishDate).
Proof.
  unfold recentEnough.
  destruct (Date_parse publishDate) as [t |].
  - destruct (decide (setDateBack now (MAX_REVIEW_AGE_DAYS cfg) <= t)%Z) as [Hle | Hgt].
    + left. exists t. auto.
    + right. intros (t' & [= <-] & Hle). contradiction.
  - right. intros (t & [=] & _).
Defined.

#[global] Instance keeps_dec now r publishDate : Decision (keeps now r publishDate).
Proof. unfold keeps. apply _. Defined.

End FilterSpec.

(** ** Failures of the transformer *)

Section Replies.

Variable JSON_parse : string -> option json.

(** [fetch] rejects. *)
Definition networkError (r : Fetched json) : Prop := r = Rejected.

(** The response has a status outside 200..299. *)
Definition httpError (r : Fetched json) : Prop :=
  ∃ status body, r = Responded status body ∧ ok status = false.

(** The response is fine but no text can be read out of it: the body
    is not JSON, or the path to the content does not lead to a string. *)
Definition replyUnreadable (r : Fetched json) : Prop :=
  ∃ status body, r = Responded status body ∧ ok status = true ∧ replyText r = Thrown.

(** The text of the reply holds no brace-delimited part. *)
Definition replyWithoutObject (r : Fetched json) : Prop :=
  ∃ c, replyText r = Normal c ∧ Re.matchObject c = None.

(** The brace-delimited part of the reply is not JSON. *)
Definition replyNotJson (r : Fetched json) : Prop :=
  ∃ c m, replyText r = Normal c ∧ Re.matchObject c = Some m ∧ JSON_parse m = None.

Definition parseFailure (r : Fetched json) : Prop :=
  replyUnreadable r ∨ replyWithoutObject r ∨ replyNotJson r.

Definition transformerFails (r : Fetched json) : Prop :=
  networkError r ∨ httpError r ∨ parseFailure r.

(** The object parsed out of the reply, when there is one. *)
Definition parsedReply (r : Fetched json) : option json :=
  match replyText r with
  | Normal c => m ← Re.matchObject c; JSON_parse m
  | Thrown => None
  end.

(** The severity field that the model returned. *)
Definition modelSeverity (r : Fetched json) : Dyn.value :=
  parsed ← parsedReply r; Dyn.prop parsed "severity".

(** A category field on which [validateIssueKey] does not throw: a
    string, [null], or no field at all. *)
Definition categoryUsable (v : Dyn.value) : Prop :=
  match v with
  | None | Some JNull | Some (JStr _) => True
  | Some _ => False
  end.

End Replies.

(** A chat completion whose first choice has the given content. *)
Definition chatCompletion (content : string) : json :=
  JObj {[ "choices"%string :=
            JArr [ JObj {[ "message"%string :=
                             JObj {[ "content"%string := JStr content ]} ]} ] ]}.

(** ** Attribution of the records written *)

(** The anonymity flag is set exactly when there is no reporter name, and
    a record that is not anonymous carries the configured name. *)
Definition attributionSound (cfg : Config) (ins : ReportInsert) : Prop :=
  (ins_is_anonymous ins = true ↔ ins_system_reporter_name ins = None) ∧
  (ins_is_anonymous ins = false →
     ins_system_reporter_name ins = Some (SYSTEM_REPORTER_NAME cfg)).

Definition rowAttributionSound (cfg : Config) (row : ReportRow) : Prop :=
  (row_is_anonymous row = true ↔ row_system_reporter_name row = None) ∧
  (row_is_anonymous row = false →
     row_system_reporter_name row = Some (SYSTEM_REPORTER_NAME cfg)).

(** The object of an insert that the store accepted. *)
Definition acceptedInsert (ev : Event) : option ReportInsert :=
  match ev with
  | Answered c x =>
      match c in Call X return X -> option ReportInsert with
      | InsertReport ins =>
          fun a => match a with
                   | InsertOk => Some ins
                   | _ => None
                   end
      | _ => fun _ => None
      end x
  end.

Definition acceptedInserts (t : list Event) : list ReportInsert := omap acceptedInsert t.

(** ** Answers of the first review provider *)

(** The name search yields no location: the call fails, the status is
    outside 200..299, the body is unusable, or the list of matches is
    missing or empty. *)
Definition noMatch (resp : Fetched (option (list TripAdvisorLocation))) : Prop :=
  match resp with
  | Rejected => True
  | Responded status body =>
      ok status = false ∨ body = None ∨ body = Some None ∨ body = Some (Some [])
  end.

(** The search yields the location [l], the first of the matches. *)
Definition firstMatch (resp : Fetched (option (list TripAdvisorLocation)))
    (l : TripAdvisorLocation) : Prop :=
  ∃ status rest, resp = Responded status (Some (Some (l :: rest))) ∧ ok status = true.

(** ** The reviews that a venue contributes to a run *)

Section VenueReviews.

Variable cfg : Config.
Variable Date_parse : string -> option Z.
Variable setDateBack : Z -> Z -> Z.

(** The calls of [processPlace] that come before its loop over the
    reviews, with the list that the loop then runs over. *)
Definition reviewsOfPlace (hotel : DatabaseHotel) (placeId : string)
  : Prog (list UnifiedReview) :=
  _ ← sleep (API_DELAY_MS cfg);
  tripAdvisorLocation ← searchHotelTripAdvisor (name hotel);
  match tripAdvisorLocation with
  | None =>
      googleReviews ← fetchGoogleReviewsAll cfg placeId (name hotel);
      match googleReviews with
      | [] => Ret []
      | _ => filterReviews cfg Date_parse setDateBack rating publishDate googleReviews
      end
  | Some location =>
      _ ← sleep (API_DELAY_MS cfg);
      tripAdvisorReviews ←
        fetchTripAdvisorReviews cfg Date_parse setDateBack (location_id location);
      Ret (convertTripAdvisorToUnified tripAdvisorReviews)
  end.

Definition reviewsOfHotel (hotel : DatabaseHotel) : Prog (list UnifiedReview) :=
  match google_place_id hotel with
  | Some (String a s) => reviewsOfPlace hotel (String a s)
  | _ => Ret []
  end.

(** The same for [processTopHotel]. *)
Definition reviewsOfTopHotel (hotel : TopHotel) : Prog (list UnifiedReview) :=
  _ ← sleep (API_DELAY_MS cfg);
  reviews ← fetchTripAdvisorReviews cfg Date_parse setDateBack (tripAdvisorId hotel);
  Ret (convertTripAdvisorToUnified reviews).

End VenueReviews.

(** Calls that leave the store alone and that the modelled outside world
    answers without looking at the store.  The answer to a reading of the
    clock depends on when it is made: the clock may be read where
    [timed] holds. *)
Definition upstreamCall (timed : Prop) {X} (c : Call X) : Prop :=
  match c with
  | Now => timed
  | Sleep _ | PromptFileExists | ReadPromptFile
  | TripAdvisorSearch _ | TripAdvisorReviews _ | GooglePlaceDetails _ => True
  | _ => False
  end.

Fixpoint upstreamOnly (timed : Prop) {A} (p : Prog A) : Prop :=
  match p with
  | Ret _ | Exit _ => True
  | Vis c k => upstreamCall timed c ∧ ∀ x, upstreamOnly timed (k x)
  end.

(** A clock that stands still. *)
Definition steady (o : Outside) : Prop := ∀ n, clock o n = clock o 0.

(** The external review id looked up, for an event that is a lookup of
    the deduplication gate. *)
Definition lookupOfEvent (ev : Event) : option string :=
  match ev with
  | Answered c _ =>
      match c with
      | SelectReportByReviewId externalReviewId => Some externalReviewId
      | _ => None
      end
  end.

Definition lookupsOf (t : list Event) : list string := omap lookupOfEvent t.

(** What the modelled store answers to a lookup of the gate and to an
    insert made as call number [n], when the table of reports holds the
    external review ids [ids]. *)
Definition answeredAs (o : Outside) (ids : list string) (n : nat) (ev : Event) : Prop :=
  match ev with
  | Answered c a =>
      match c in Call X return X -> Prop with
      | SelectReportByReviewId externalReviewId =>
          fun found =>
            if readFails o n then found = None
            else if bool_decide (externalReviewId ∈ ids) then ∃ row, found = Some [row]
            else found = Some []
      | InsertReport ins =>
          fun saved =>
            saved = InsertOk ↔ insertFails o n = false ∧ ins_external_review_id ins ∉ ids
      | _ => fun _ => True
      end a
  end.

(** The external review ids that an event adds to the table. *)
Definition idsAdded (ev : Event) : list string :=
  ins_external_review_id <$> acceptedInserts [ev].

(** A trace of calls that the modelled store answered, the first of them
    as call number [n] with the external review ids [ids] in the table. *)
Fixpoint storeTrace (o : Outside) (ids : list string) (n : nat) (t : list Event) : Prop :=
  match t with
  | [] => True
  | ev :: rest => answeredAs o ids n ev ∧ storeTrace o (ids ++ idsAdded ev) (S n) rest
  end.

(** An event that is neither a model call nor an insert. *)
Definition quiet (ev : Event) : Prop := isChat ev = false ∧ isInsert ev = false.

(** A run that only met duplicates: every review counted was skipped and
    nothing was saved. *)
Definition onlySkipped (before after : Counters) : Prop :=
  totalReviews after + skippedReviews before = totalReviews before + skippedReviews after ∧
  successfulReports after = successfulReports before.

Definition blank : World := {| hotels := []; reports := []; calls := 0 |}.

(** The result of a program of upstream calls in the modelled world. *)
Definition seen (o : Outside) (p : Prog (list UnifiedReview)) : list UnifiedReview :=
  match outcome (interp (answer o) p blank) with
  | Returned reviews => reviews
  | Exited _ => []
  end.

(** The cohort that the modelled store hands out in the default mode. *)
Definition cohortOf (cfg : Config) (table : list HotelRecord) : list DatabaseHotel :=
  take (MAX_HOTELS cfg) (asDatabaseHotel <$> filter hasPlaceId table).

(** The cohort that a run started in the world [w] selects. *)
Definition selectedCohort (o : Outside) (cfg : Config) (cmd : CommandLine) (w : World)
  : Outcome (list DatabaseHotel) :=
  outcome (interp (answer o) (selectCohort cfg cmd)
             (world (interp (answer o) loadSystemPrompt w))).

(** The default mode of the command line: neither flag is given. *)
Definition defaultMode (cmd : CommandLine) : Prop :=
  useUnprocessedOnly cmd = false ∧ useRandomSampling cmd = false.

(** ** Predicates on the runs of a program *)

Section RunPredicates.

Context {W : Type} (h : Handler W).

(** The run of [p; f]: the run of [p], then the run of [f] from the
    world that [p] left, unless [p] ended the process. *)
Definition andThen {A B} (r : Run W A) (f : A -> Prog B) : Run W B :=
  match outcome r with
  | Returned a =>
      let r' := interp h (f a) (world r) in
      {| outcome := outcome r'; world := world r'; trace := trace r ++ trace r' |}
  | Exited code =>
      {| outcome := Exited code; world := world r; trace := trace r |}
  end.

(** A program whose runs all return. *)
Definition returns {A} (p : Prog A) : Prop :=
  ∀ w, ∃ a, outcome (interp h p w) = Returned a.

(** A property of every event of every run. *)
Definition always {A} (P : Event -> Prop) (p : Prog A) : Prop :=
  ∀ w, Forall P (trace (interp h p w)).

End RunPredicates.

(** What is required of an event: nothing, unless it is an insert. *)
Definition insertSound (cfg : Config) (ev : Event) : Prop :=
  match insertOfEvent ev with
  | Some ins => attributionSound cfg ins
  | None => True
  end.

(** ** The prompt file *)

(** The prompt file cannot be used: it is missing, it cannot be read, or
    it holds no fenced system prompt. *)
Definition promptUnusable {W} (h : Handler W) (w : W) : Prop :=
  (h _ PromptFileExists w).1 = false ∨
  (h _ ReadPromptFile (h _ PromptFileExists w).2).1 = None ∨
  ∃ content, (h _ ReadPromptFile (h _ PromptFileExists w).2).1 = Some content ∧
             Re.matchSystemPrompt content = None.

(** ** Sample data *)

Module Sample.

Definition env : ProcessEnv :=
  {| env_GOOGLE_MAPS_API_KEY := Some "google-key"%string;
     env_TRIPADVISOR_API_KEY := Some "tripadvisor-key"%string;
     env_DEEPSEEK_API_KEY := Some "deepseek-key"%string;
     env_DEEPSEEK_API_URL := None;
     env_NEXT_PUBLIC_SUPABASE_URL := Some "https://db.example"%string;
     env_SUPABASE_SERVICE_ROLE_KEY := Some "service-key"%string |}.

Definition promptText : string :=
  Js.join Js.newline
    [ "# Safety analyst"; EmptyString; "## System Prompt"; "```";
      "You are a hotel safety analyst."; "```"; EmptyString ]%string.

(** [{"insight": "Mold in the bathroom", "issueKey": "cleaning",
     "severity": "critical"}] *)
Definition replyText : string :=
  let q := Js.quote in
  ("{" +:+ q +:+ "insight" +:+ q +:+ ": " +:+ q +:+ "Mold in the bathroom" +:+ q
     +:+ ", " +:+ q +:+ "issueKey" +:+ q +:+ ": " +:+ q +:+ "cleaning" +:+ q
     +:+ ", " +:+ q +:+ "severity" +:+ q +:+ ": " +:+ q +:+ "critical" +:+ q +:+ "}")%string.

Definition replyValue : json :=
  JObj (<["insight"%string := JStr "Mold in the bathroom"]>
        (<["issueKey"%string := JStr "cleaning"]>
         {[ "severity"%string := JStr "critical" ]})).

(** [{"insight": "Mold in the bathroom", "issueKey": 5,
     "severity": "critical"}] *)
Definition numericReplyText : string :=
  let q := Js.quote in
  ("{" +:+ q +:+ "insight" +:+ q +:+ ": " +:+ q +:+ "Mold in the bathroom" +:+ q
     +:+ ", " +:+ q +:+ "issueKey" +:+ q +:+ ": 5"
     +:+ ", " +:+ q +:+ "severity" +:+ q +:+ ": " +:+ q +:+ "critical" +:+ q +:+ "}")%string.

Definition numericReplyValue : json :=
  JObj (<["insight"%string := JStr "Mold in the bathroom"]>
        (<["issueKey"%string := JNum 5]>
         {[ "severity"%string := JStr "critical" ]})).

(** [{"severity": "Critical"}] *)
Definition casedReplyText : string :=
  let q := Js.quote in
  ("{" +:+ q +:+ "severity" +:+ q +:+ ": " +:+ q +:+ "Critical" +:+ q +:+ "}")%string.

Definition casedReplyValue : json := JObj {[ "severity"%string := JStr "Critical" ]}.

(** [JSON.parse] on the texts above. *)
Definition parse (s : string) : option json :=
  if bool_decide (s = replyText) then Some replyValue
  else if bool_decide (s = numericReplyText) then Some numericReplyValue
  else if bool_decide (s = casedReplyText) then Some casedReplyValue
  else None.

(** 1 January 2025 and 15 June 2025, midnight UTC. *)
Definition parseDate (s : string) : option Z :=
  if bool_decide (s = "2025-01-01T00:00:00Z"%string) then Some 1735689600000%Z
  else if bool_decide (s = "2025-06-15T00:00:00Z"%string) then Some 1749945600000%Z
  else None.

(** [setDate] in a time zone without clock changes. *)
Definition daysBack (now days : Z) : Z := (now - days * 86400000)%Z.

(** The Numbers 0.5, 0.1 and 0.7. *)
Definition half : Random01 :=
  {| rnd_number := S754_finite false 4503599627370496 (-53); rnd_range := eq_refl |}.
Definition tenth : Random01 :=
  {| rnd_number := S754_finite false 7205759403792794 (-56); rnd_range := eq_refl |}.
Definition sevenTenths : Random01 :=
  {| rnd_number := S754_finite false 6305039478318694 (-53); rnd_range := eq_refl |}.

(** 1 July 2025, midnight UTC. *)
Definition now : Z := 1751328000000.

(** A store library that accepts every URL and key. *)
Definition client (url key : string) : bool := true.

Definition grand : HotelRecord :=
  {| hotel_id := "h1"; hotel_record_name := "Grand Hotel";
     hotel_record_place_id := Some "place-1"%string |}.

Definition oldReview : GoogleReview :=
  {| g_name := "places/place-1/reviews/r1";
     g_rating := 2;
     g_text := Some "The bathroom was mouldy."%string;
     g_originalText := None;
     g_authorName := Some "Kim"%string;
     g_publishTime := "2025-01-01T00:00:00Z" |}.

Definition recentReview : GoogleReview :=
  {| g_name := "places/place-1/reviews/r2";
     g_rating := 3;
     g_text := Some "No hot water."%string;
     g_originalText := None;
     g_authorName := None;
     g_publishTime := "2025-06-15T00:00:00Z" |}.

Definition praise : GoogleReview :=
  {| g_name := "places/place-1/reviews/r3";
     g_rating := 5;
     g_text := Some "Lovely stay."%string;
     g_originalText := None;
     g_authorName := None;
     g_publishTime := "2025-06-15T00:00:00Z" |}.

(** The first provider knows no hotel; the second has three reviews of
    the one place; the model answers every request with [replyText];
    the clock reads 1 July 2025; nothing fails. *)
Definition outside : Outside :=
  {| searchAnswer := fun _ => Responded 200 (Some (Some []));
     reviewsAnswer := fun _ => Responded 200 (Some (Some []));
     detailsAnswer := fun placeId =>
       if bool_decide (placeId = "place-1"%string)
       then Responded 200 (Some (Some [oldReview; recentReview; praise]))
       else Responded 404 None;
     chatAnswer := fun _ _ => Responded 200 (Some (chatCompletion replyText));
     clock := fun _ => now;
     randomAt := fun _ => half;
     promptFileExists := true;
     promptFile := Some promptText;
     readFails := fun _ => false;
     insertFails := fun _ => false |}.

(** The same, with a store connection that fails on every read. *)
Definition outsideReadFailing : Outside :=
  {| searchAnswer := searchAnswer outside;
     reviewsAnswer := reviewsAnswer outside;
     detailsAnswer := detailsAnswer outside;
     chatAnswer := chatAnswer outside;
     clock := clock outside;
     randomAt := randomAt outside;
     promptFileExists := true;
     promptFile := Some promptText;
     readFails := fun _ => true;
     insertFails := fun _ => false |}.

Definition oneHotel : World := {| hotels := [grand]; reports := []; calls := 0 |}.
Definition noHotel : World := {| hotels := []; reports := []; calls := 0 |}.

Definition allHotels : CommandLine :=
  {| useUnprocessedOnly := false; useRandomSampling := false;
     RANDOM_SAMPLE_COUNT := Some 20%Z |}.

Definition unprocessedOnly : CommandLine :=
  {| useUnprocessedOnly := true; useRandomSampling := false;
     RANDOM_SAMPLE_COUNT := Some 20%Z |}.

(** The date parser [parseDate] with, besides, 30 June 2025. *)
Definition parseDates (s : string) : option Z :=
  if bool_decide (s = "2025-06-30T00:00:00Z"%string) then Some 1751241600000%Z
  else parseDate s.

(** A review of the first provider rated 2. *)
Definition complaint (n : nat) (date : string) : TripAdvisorReview :=
  {| ta_id := pretty n;
     ta_title := "Disappointing";
     ta_text := "No hot water.";
     ta_rating := 2;
     ta_published_date := date |}.

(** 20 July 2025, midnight UTC. *)
Definition later : Z := 1752969600000.

(** The first provider knows the one hotel and has 21 reviews of it, the
    first of 15 June 2025 and twenty of 30 June; the clock reads 1 July
    2025 during the first 128 calls, which are the calls of a first run,
    and 20 July afterwards; nothing fails. *)
Definition outsideLater : Outside :=
  {| searchAnswer := fun _ =>
       Responded 200
         (Some (Some [ {| location_id := "loc-1"; location_name := "Grand Hotel" |} ]));
     reviewsAnswer := fun _ =>
       Responded 200
         (Some (Some (complaint 0 "2025-06-15T00:00:00Z"
                        :: ((fun n => complaint n "2025-06-30T00:00:00Z") <$> seq 1 20))));
     detailsAnswer := detailsAnswer outside;
     chatAnswer := chatAnswer outside;
     clock := fun n => if (n <? 128)%nat then now else later;
     randomAt := randomAt outside;
     promptFileExists := true;
     promptFile := Some promptText;
     readFails := fun _ => false;
     insertFails := fun _ => false |}.

(** A run of [ingest-hotel-data.ts] in the sample setting. *)
Definition run (o : Outside) (cmd : CommandLine) (w : World) : Run World Counters :=
  interp (answer o) (runIngestion (CONFIG env) parse parseDate daysBack client cmd) w.

End Sample.

(** ** Further observations on runs, and further code

    The definitions that follow serve the properties of the order of the
    calls, of the counters, of cohort selection, of the prompt file and
    of the command line. *)

(** ** The calls of a run, counted *)

(** A lookup of the deduplication gate. *)
Definition isLookup (ev : Event) : bool :=
  match ev with
  | Answered c _ =>
      match c with
      | SelectReportByReviewId _ => true
      | _ => false
      end
  end.

(** A lookup that found a record. *)
Definition isHit (ev : Event) : bool :=
  match ev with
  | Answered c x =>
      match c in Call X return X -> bool with
      | SelectReportByReviewId _ =>
          fun d => match d with
                   | Some (_ :: _) => true
                   | _ => false
                   end
      | _ => fun _ => false
      end x
  end.

(** An insert that the store accepted. *)
Definition isAccepted (ev : Event) : bool :=
  match acceptedInsert ev with
  | Some _ => true
  | None => false
  end.

Definition countOf (f : Event -> bool) (t : list Event) : nat :=
  length (List.filter f t).

(** The counters that the events of a trace amount to. *)
Definition tally (t : list Event) : Counters :=
  {| totalReviews := countOf isLookup t;
     skippedReviews := countOf isHit t;
     successfulReports := countOf isAccepted t |}.

Definition addCounters (c d : Counters) : Counters :=
  {| totalReviews := totalReviews c + totalReviews d;
     skippedReviews := skippedReviews c + skippedReviews d;
     successfulReports := successfulReports c + successfulReports d |}.

(** An event that no counter counts and that is no model call. *)
Definition uncounted (ev : Event) : Prop :=
  isLookup ev = false ∧ isChat ev = false ∧ isInsert ev = false.

(** A loop body that adds to the counters what its trace amounts to. *)
Definition accounts {W} (h : Handler W) (body : Counters -> Prog Counters) : Prop :=
  ∀ c w, outcome (interp h (body c) w)
         = Returned (addCounters c (tally (trace (interp h (body c) w)))).

(** ** The order of the calls of a run *)

(** A call to the first review provider or to the model: the calls that
    the scripts space out. *)
Definition throttled (ev : Event) : bool :=
  match ev with
  | Answered c _ =>
      match c with
      | TripAdvisorSearch _ | TripAdvisorReviews _ | DeepSeekChat _ _ => true
      | _ => false
      end
  end.

(** Any other call that is neither a lookup of the gate nor an insert. *)
Definition plain (ev : Event) : Prop :=
  isLookup ev = false ∧ isInsert ev = false ∧ throttled ev = false.

(** The anonymity flag that a draw of the random source gives. *)
Definition anonymousAt (cfg : Config) (draw : Random01) : bool :=
  negb (Qle_bool (ANONYMOUS_PROBABILITY cfg) (rnd draw)).

Section Protocol.

Variable cfg : Config.
Variable JSON_parse : string -> option json.

(** The traces in which every call to the first provider follows a pause,
    and in which the lookups, model calls and inserts come in one of two
    groups: a lookup that finds a record, alone; or a lookup that finds
    none, a draw, a pause, the model call for the review in the voice
    drawn, and the insert of what the transformer reads in the reply. *)
Inductive protocol : list Event -> Prop :=
| protocol_end : protocol []
| protocol_plain ev t :
    plain ev → protocol t → protocol (ev :: t)
| protocol_paced u {X} (c : Call X) (x : X) t :
    throttled (Answered c x) = true → isChat (Answered c x) = false →
    protocol t →
    protocol (Answered (Sleep (API_DELAY_MS cfg)) u :: Answered c x :: t)
| protocol_skip externalReviewId row rows t :
    protocol t →
    protocol (Answered (SelectReportByReviewId externalReviewId) (Some (row :: rows)) :: t)
| protocol_ingest systemPrompt hotelName review found draw u reply saved t :
    found = None ∨ found = Some [] →
    protocol t →
    protocol
      (Answered (SelectReportByReviewId (id review)) found
       :: Answered MathRandom draw
       :: Answered (Sleep (API_DELAY_MS cfg)) u
       :: Answered (DeepSeekChat systemPrompt
                      (userPrompt (text review) hotelName (anonymousAt cfg draw))) reply
       :: Answered (InsertReport
                      (insertOf (reportOf cfg hotelName review (anonymousAt cfg draw)
                                   (insightOfReply JSON_parse reply)))) saved
       :: t).

End Protocol.

(** A property of the trace of every run. *)
Definition traces {W A} (h : Handler W) (P : list Event -> Prop) (p : Prog A) : Prop :=
  ∀ w, P (trace (interp h p w)).

(** ** The records written *)

(** What every object handed to [insert] satisfies: its category is one
    of the enumeration, its description is a truthy value, it is marked
    verified, and its creation time is the date of the review. *)
Definition recordWellFormed (ins : ReportInsert) : Prop :=
  ins_issue_key ins ∈ VALID_ISSUE_KEYS ∧
  Dyn.truthy (Some (ins_description ins)) = true ∧
  ins_is_verified ins = true ∧
  ins_created_at ins = ins_external_review_date ins.

(** ** The two scripts *)

Inductive Script : Type :=
| IngestHotelData (cmd : CommandLine)
| IngestTopHotels.

(** [runIngestion] of the script named. *)
Definition runScript (cfg : Config) (JSON_parse : string -> option json)
    (Date_parse : string -> option Z) (setDateBack : Z -> Z -> Z)
    (createClient : string -> string -> bool) (s : Script)
  : Prog Counters :=
  match s with
  | IngestHotelData cmd =>
      runIngestion cfg JSON_parse Date_parse setDateBack createClient cmd
  | IngestTopHotels => runIngestionTop cfg JSON_parse Date_parse setDateBack createClient
  end.

(** An event that is not an insert that the store refused. *)
Definition unrefused (ev : Event) : Prop := isInsert ev = true → isAccepted ev = true.

(** A run that adds nothing to what the run before it left: the table of
    reports is as it was, no model call and no insert is made, every
    lookup of the gate finds a record, and the counters say so: every
    review looked up is counted, and counted as skipped. *)
Definition nothingNew (first second : Run World Counters) : Prop :=
  reports (world second) = reports (world first) ∧
  Forall quiet (trace second) ∧
  Forall (fun ev => isLookup ev = true → isHit ev = true) (trace second) ∧
  ∀ c, outcome second = Returned c →
       totalReviews c = length (lookupsOf (trace second)) ∧
       skippedReviews c = totalReviews c ∧
       successfulReports c = 0.

(** ** The venues that a run works on *)

(** The name searched for, for an event that is a search of the first
    review provider. *)
Definition searchOfEvent (ev : Event) : option string :=
  match ev with
  | Answered c _ =>
      match c with
      | TripAdvisorSearch hotelName => Some hotelName
      | _ => None
      end
  end.

(** The location asked for, for an event that is a fetch of reviews from
    the first review provider. *)
Definition reviewsRequestOfEvent (ev : Event) : option string :=
  match ev with
  | Answered c _ =>
      match c with
      | TripAdvisorReviews locationId => Some locationId
      | _ => None
      end
  end.

(** [if (!hotel.google_place_id) continue] lets the venue through. *)
Definition hasUsablePlaceId (hotel : DatabaseHotel) : bool :=
  match google_place_id hotel with
  | Some (String _ _) => true
  | _ => false
  end.

(** ** Results of runs *)

(** A property of the result of every run that returns. *)
Definition outcomes {W A} (h : Handler W) (P : A -> Prop) (p : Prog A) : Prop :=
  ∀ w a, outcome (interp h p w) = Returned a → P a.

(** The rows that a review provider sent, when its answer is usable: the
    call succeeded with a status in 200..299 and a body that holds the
    list. *)
Definition sentReviews {R} (resp : Fetched (option (list R))) : list R :=
  match resp with
  | Responded status (Some (Some reviews)) => if ok status then reviews else []
  | _ => []
  end.

(** ** The rows that a store query yields *)

(** [data] when the answer carries no error and [data] is not [null]. *)
Definition usableRows {A} (a : StoreAnswer (list A)) : list A :=
  match error a, data a with
  | None, Some rows => rows
  | _, _ => []
  end.

(** A command line that asks for a sample of the venues. *)
Definition samplingMode (cmd : CommandLine) : Prop :=
  useUnprocessedOnly cmd = true ∨ useRandomSampling cmd = true.

(** The calls of [loadSystemPrompt] and of the selection queries of the
    two sampling modes: the prompt file, the tables of hotels and of
    report hotel ids, and the draws of the shuffle.  No provider, no
    model call, no lookup, no insert and no pause is among them. *)
Definition promptOrSampling (ev : Event) : Prop :=
  match ev with
  | Answered c _ =>
      match c with
      | PromptFileExists | ReadPromptFile | SelectHotels | SelectHotelRecords
      | SelectReportHotelIds | MathRandom => True
      | _ => False
      end
  end.

(** ** Texts *)

(** The character [c] occurs in [s]. *)
Fixpoint occursIn (c : ascii) (s : string) : bool :=
  match s with
  | EmptyString => false
  | String a r => bool_decide (a = c) || occursIn c r
  end.

(** Every character of [s] is white space. *)
Fixpoint allWhiteSpace (s : string) : bool :=
  match s with
  | EmptyString => true
  | String a r => Js.isWhiteSpace a && allWhiteSpace r
  end.

(** [s.includes(pat)] *)
Fixpoint includesText (pat s : string) : bool :=
  match Js.stripPrefix pat s with
  | Some _ => true
  | None =>
      match s with
      | EmptyString => false
      | String _ r => includesText pat r
      end
  end.

(** A prompt file: a text, the heading, white space, and the prompt
    between two fences, followed by any text. *)
Definition promptFileOf (pre ws body post : string) : string :=
  pre +:+ "## System Prompt" +:+ ws +:+ Re.fence +:+ body +:+ Re.fence +:+ post.

(** ** The command line of [ingest-hotel-data.ts] *)

(** [s.startsWith(p)] *)
Definition startsWith (p s : string) : bool :=
  match Js.stripPrefix p s with
  | Some _ => true
  | None => false
  end.

(** The text before the first equals sign of [s]. *)
Fixpoint untilEquals (s : string) : string :=
  match s with
  | EmptyString => EmptyString
  | String c r => if bool_decide (c = "="%char) then EmptyString else String c (untilEquals r)
  end.

(** [s.split('=')[1]]: the text between the first and the second equals
    sign; [None], for [undefined], when [s] holds no equals sign. *)
Fixpoint secondField (s : string) : option string :=
  match s with
  | EmptyString => None
  | String c r => if bool_decide (c = "="%char) then Some (untilEquals r) else secondField r
  end.

(** The value of a decimal digit. *)
Definition digitValue (c : ascii) : option Z :=
  let n := Js.code c in
  if ((48 <=? n) && (n <=? 57))%N then Some (Z.of_N n - 48)%Z else None.

(** The number that the digits at the start of [s] denote after the
    digits that gave [acc]. *)
Fixpoint digitsValue (acc : Z) (s : string) : Z :=
  match s with
  | EmptyString => acc
  | String c r =>
      match digitValue c with
      | Some d => digitsValue (10 * acc + d) r
      | None => acc
      end
  end.

(** [parseInt(s, 10)] on a string: leading white space is skipped, a sign
    is read, and the digits that follow are taken up to the first other
    character; a text without such digits gives NaN.  The result is the
    Number for the integer that the digits denote, with the sign read: the
    nearest binary64 value, which is another integer above 2^53.  (For a
    numeral of more than 20 significant digits the language lets an
    implementation read the later digits as zeros; the embedding reads
    every digit.) *)
Definition parseInt10 (s : string) : spec_float :=
  let t := Js.trimStart s in
  let signed :=
    match t with
    | String "-"%char r => (true, r)
    | String "+"%char r => (false, r)
    | _ => (false, t)
    end in
  match signed.2 with
  | String c _ =>
      match digitValue c with
      | Some _ =>
          let mathInt := digitsValue 0 signed.2 in
          if (mathInt =? 0)%Z then S754_zero signed.1
          else Num.ofZ (if signed.1 then (- mathInt)%Z else mathInt)
      | None => S754_nan
      end
  | EmptyString => S754_nan
  end.

(** The integer part of a Number that bounds a [slice]; [None] for NaN.
    An infinity is given as the integer [2^1024] with its sign: no array
    is that long, so that [Math.min(count, l.length)] and [slice] do with
    the one what they do with the other. *)
Definition integerOfNumber (x : spec_float) : option Z :=
  match x with
  | S754_nan => None
  | S754_zero _ => Some 0%Z
  | S754_infinity s => Some (cond_Zopp s (2 ^ 1024))
  | S754_finite s m e => Some (cond_Zopp s (Z.shiftl (Zpos m) e))
  end.

(** The text after the digits: empty, or starting with a character that
    is no digit. *)
Definition noDigitAhead (s : string) : Prop :=
  match s with
  | EmptyString => True
  | String c _ => digitValue c = None
  end.

(** The three constants that the script computes from [process.argv]. *)
Definition parseCommandLine (cfg : Config) (args : list string) : CommandLine :=
  let randomSizeArg := List.find (startsWith "--random=") args in
  {| useUnprocessedOnly := bool_decide ("--unprocessed"%string ∈ args);
     useRandomSampling :=
       bool_decide ("--random"%string ∈ args) ||
       match randomSizeArg with
       | Some _ => true
       | None => false
       end;
     RANDOM_SAMPLE_COUNT :=
       match randomSizeArg with
       | Some arg =>
           match secondField arg with
           | Some field => integerOfNumber (parseInt10 field)
           | None => None
           end
       | None => Some (RANDOM_SAMPLE_SIZE cfg)
       end |}.

(** ** The second adapter of the second review provider *)

Section Unused.

Variable cfg : Config.

(** [fetchGoogleReviews], which the driver does not call: the rating
    filter comes before the cap. *)
Definition fetchGoogleReviews (placeId hotelName : string) : Prog (list UnifiedReview) :=
  r ← call (GooglePlaceDetails placeId);
  Ret (match r with
       | Rejected => []
       | Responded status body =>
           if negb (ok status) then []
           else match body with
                | Some (Some reviews) =>
                    googleToUnified <$>
                      take (MAX_REVIEWS_PER_HOTEL cfg)
                        (filter (fun review => (g_rating review <= MAX_REVIEW_RATING cfg)%Z)
                                reviews)
                | _ => []
                end
       end).

End Unused.

(** ** Settings *)

(** [process.env.X] is set to a text that is not empty. *)
Definition isSet (v : option string) : bool :=
  match v with
  | Some (String _ _) => true
  | _ => false
  end.

(** The system prompt sent, for an event that is a model call. *)
Definition systemPromptOfEvent (ev : Event) : option string :=
  match ev with
  | Answered c _ =>
      match c with
      | DeepSeekChat systemPrompt _ => Some systemPrompt
      | _ => None
      end
  end.

(** * Properties *)

(** ** Category validation *)

Lemma other_is_valid : "other"%string ∈ VALID_ISSUE_KEYS.
Proof. apply (bool_decide_unpack _). vm_compute. exact I. Qed.

Lemma validateIssueKey_valid key : validateIssueKey key ∈ VALID_ISSUE_KEYS.
Proof.
  unfold validateIssueKey, includes.
  case_bool_decide as Hin; [exact Hin | apply other_is_valid].
Qed.

(** C5, as stated: a key that is not in the enumeration when compared
    without regard to case, and without trimming, is not always mapped to
    the category other.  The key " wifi " is mapped to wifi. *)
Lemma C5_untrimmed_key_counterexample :
  ¬ (∀ key : string,
        Js.toLowerCase key ∉ VALID_ISSUE_KEYS → validateIssueKey key = "other"%string).
Proof.
  intros claim.
  specialize (claim " wifi "%string).
  assert (Hout : Js.toLowerCase " wifi " ∉ VALID_ISSUE_KEYS).
  { apply (bool_decide_unpack _). vm_compute. exact I. }
  apply claim in Hout. vm_compute in Hout. discriminate Hout.
Qed.

(** C5, amended: the key is compared after lower-casing and trimming of
    surrounding white space.  A key whose normal form is not in the
    enumeration yields other, a key whose normal form is in the
    enumeration yields that normal form, and the result is a member of the
    enumeration in every case. *)
Theorem C5_validateIssueKey_trims_then_coerces (key : string) :
  (Js.trim (Js.toLowerCase key) ∉ VALID_ISSUE_KEYS →
     validateIssueKey key = "other"%string) ∧
  (Js.trim (Js.toLowerCase key) ∈ VALID_ISSUE_KEYS →
     validateIssueKey key = Js.trim (Js.toLowerCase key)) ∧
  validateIssueKey key ∈ VALID_ISSUE_KEYS.
Proof.
  split; [| split].
  - intros Hout. unfold validateIssueKey, includes.
    case_bool_decide; [contradiction | reflexivity].
  - intros Hin. unfold validateIssueKey, includes.
    case_bool_decide; [reflexivity | contradiction].
  - apply validateIssueKey_valid.
Qed.

Lemma C5_validateIssueKey_witness :
  validateIssueKey "Plumbing " = "other"%string ∧
  validateIssueKey " WiFi " = "wifi"%string.
Proof.
  split.
  - apply (C5_validateIssueKey_trims_then_coerces "Plumbing ").
    apply (bool_decide_unpack _). vm_compute. exact I.
  - apply (C5_validateIssueKey_trims_then_coerces " WiFi ").
    apply (bool_decide_unpack _). vm_compute. exact I.
Defined.

(** ** The insight transformer *)

Section TransformerFacts.

Variable JSON_parse : string -> option json.

Lemma insightOfReply_thrown r :
  replyText r = Thrown → insightOfReply JSON_parse r = fallbackInsight.
Proof. intros H. unfold insightOfReply, interpretReply. rewrite H. reflexivity. Qed.

Lemma insightOfReply_text r c :
  replyText r = Normal c →
  insightOfReply JSON_parse r =
    match insightOfText JSON_parse c with
    | Normal i => i
    | Thrown => fallbackInsight
    end.
Proof. intros H. unfold insightOfReply, interpretReply. rewrite H. reflexivity. Qed.

Lemma insightOfParsed_severity parsed i :
  insightOfParsed parsed = Normal i →
  severity i = critical ↔ Dyn.prop parsed "severity" = Some (JStr "critical").
Proof.
  unfold insightOfParsed, Dyn.get.
  destruct parsed; simpl; try discriminate;
    try (intros [= <-]; simpl; split; discriminate).
  destruct (validateIssueKeyDyn (fields !! "issueKey"%string)); simpl; [| discriminate].
  intros [= <-]. simpl. unfold Dyn.strictEqStr.
  destruct (fields !! "severity"%string) as [[| | | s | |]|]; simpl;
    try (split; discriminate).
  case_bool_decide as Hs; split; try congruence; try discriminate.
Qed.

Lemma insightOfParsed_normal parsed :
  (∃ i, insightOfParsed parsed = Normal i) ↔
  parsed ≠ JNull ∧ categoryUsable (Dyn.prop parsed "issueKey").
Proof.
  unfold insightOfParsed, Dyn.get.
  destruct parsed; simpl; try (split; [intros [i Hi]; discriminate | intros [H _]; congruence]);
    try (split; [intros _; split; [discriminate | exact I] | intros _; eexists; reflexivity]).
  destruct (fields !! "issueKey"%string) as [[| | | s | |]|]; simpl;
    try (split; [intros _; split; [discriminate | exact I] | intros _; eexists; reflexivity]);
    try (split; [intros [i Hi]; discriminate | intros [_ []]]).
Qed.

Lemma insightOfPlainText_category c :
  issueKey (insightOfPlainText c) = "other"%string ∧
  severity (insightOfPlainText c) = warning.
Proof. split; reflexivity. Qed.

Lemma transformReview_run {W} (h : Handler W) (w : W)
    (reviewText hotelName systemPrompt : string) (isAnonymous : bool) :
  let request := DeepSeekChat systemPrompt (userPrompt reviewText hotelName isAnonymous) in
  let reply := (h _ request w).1 in
  let r := interp h (transformReviewToSafetyInsight JSON_parse
                       reviewText hotelName systemPrompt isAnonymous) w in
  outcome r = Returned (insightOfReply JSON_parse reply) ∧
  trace r = [Answered request reply] ∧
  world r = (h _ request w).2.
Proof. cbn. auto. Qed.

End TransformerFacts.

(** C3, as stated: a failing invocation does not always return the one
    fixed result.  A reply in plain prose, without any brace-delimited
    part, is a parse failure, and the insight returned for it is the prose
    of the reply. *)
Lemma C3_plain_text_reply_counterexample :
  ¬ (∀ (JSON_parse : string → option json) (r : Fetched json),
        transformerFails JSON_parse r → insightOfReply JSON_parse r = fallbackInsight).
Proof.
  intros claim.
  specialize (claim Sample.parse
                    (Responded 200 (Some (chatCompletion "The room was dirty.")))).
  assert (Hfails : transformerFails Sample.parse
                     (Responded 200 (Some (chatCompletion "The room was dirty.")))).
  { right. right. right. left. exists "The room was dirty."%string.
    split; vm_compute; reflexivity. }
  apply claim in Hfails. vm_compute in Hfails. discriminate Hfails.
Qed.

(** C3, amended: the transformer always returns a result and never
    raises.  When the invocation fails (network error, status outside
    200..299, unreadable reply, reply without a brace-delimited part, or
    a brace-delimited part that is not JSON) the category of the result is
    other and its severity is warning.  Its insight is the prose of the
    reply, cut to 500 characters (a fixed sentence when that is empty),
    for a reply without a brace-delimited part, and the fixed sentence of
    the fallback result for every other failure. *)
Theorem C3_transformer_failure_yields_fallback
    {W} (h : Handler W) (w : W) (JSON_parse : string → option json)
    (reviewText hotelName systemPrompt : string) (isAnonymous : bool) :
  let request := DeepSeekChat systemPrompt (userPrompt reviewText hotelName isAnonymous) in
  let reply := (h _ request w).1 in
  let r := interp h (transformReviewToSafetyInsight JSON_parse
                       reviewText hotelName systemPrompt isAnonymous) w in
  outcome r = Returned (insightOfReply JSON_parse reply) ∧
  (transformerFails JSON_parse reply →
     issueKey (insightOfReply JSON_parse reply) = "other"%string ∧
     severity (insightOfReply JSON_parse reply) = warning ∧
     (∀ c, replyText reply = Normal c → Re.matchObject c = None →
           insightOfReply JSON_parse reply = insightOfPlainText c) ∧
     (¬ replyWithoutObject reply → insightOfReply JSON_parse reply = fallbackInsight)).
Proof.
  intros request reply r. split; [reflexivity |].
  intros [Hnet | [Hhttp | [Hbody | [Hplain | Hjson]]]].
  - assert (Ht : replyText reply = Thrown) by (rewrite Hnet; reflexivity).
    rewrite (insightOfReply_thrown _ _ Ht).
    repeat split; try reflexivity; congruence.
  - destruct Hhttp as (status & body & Hr & Hok).
    assert (Ht : replyText reply = Thrown) by (rewrite Hr; simpl; rewrite Hok; reflexivity).
    rewrite (insightOfReply_thrown _ _ Ht).
    repeat split; try reflexivity; congruence.
  - destruct Hbody as (status & body & _ & _ & Ht).
    rewrite (insightOfReply_thrown _ _ Ht).
    repeat split; try reflexivity; congruence.
  - destruct Hplain as (c & Hc & Hm).
    rewrite (insightOfReply_text _ _ _ Hc). unfold insightOfText. rewrite Hm.
    repeat split.
    + intros c' Hc' _. rewrite Hc in Hc'. injection Hc' as <-. reflexivity.
    + intros Hno. exfalso. apply Hno. exists c. auto.
  - destruct Hjson as (c & m & Hc & Hm & Hp).
    rewrite (insightOfReply_text _ _ _ Hc). unfold insightOfText. rewrite Hm, Hp.
    repeat split; congruence.
Qed.

Lemma C3_transformer_failure_witness :
  let reply := Responded 503 None in
  issueKey (insightOfReply Sample.parse reply) = "other"%string ∧
  severity (insightOfReply Sample.parse reply) = warning ∧
  insightOfReply Sample.parse reply = fallbackInsight.
Proof.
  pose (o := {| searchAnswer := searchAnswer Sample.outside;
                reviewsAnswer := reviewsAnswer Sample.outside;
                detailsAnswer := detailsAnswer Sample.outside;
                chatAnswer := fun _ _ => Responded 503 None;
                clock := clock Sample.outside;
                randomAt := randomAt Sample.outside;
                promptFileExists := true;
                promptFile := Some Sample.promptText;
                readFails := fun _ => false;
                insertFails := fun _ => false |}).
  destruct (C3_transformer_failure_yields_fallback (answer o) Sample.oneHotel Sample.parse
              "The bathroom was mouldy." "Grand Hotel" "You are a hotel safety analyst."
              false) as [_ Hfails].
  destruct Hfails as (Hkey & Hsev & _ & Hfixed).
  { right. left. exists 503%Z, None. split; reflexivity. }
  split; [exact Hkey |]. split; [exact Hsev |].
  apply Hfixed. intros (c & Hc & _). discriminate Hc.
Defined.




(** ** Runs of composed programs *)

Ltac unfold_prog := unfold sleep, mbind, Prog_bind, mret, Prog_ret, call in *.

Section RunFacts.

Context {W : Type} (h : Handler W).

Lemma interp_bind {A B} (p : Prog A) (f : A -> Prog B) (w : W) :
  interp h (bind p f) w = andThen h (interp h p w) f.
Proof.
  revert w. induction p as [a | code | X c k IH]; intros w; simpl.
  - unfold andThen. simpl. destruct (interp h (f a) w). reflexivity.
  - reflexivity.
  - rewrite IH. unfold andThen. simpl.
    destruct (outcome (interp h (k (h X c w).1) (h X c w).2)); reflexivity.
Qed.

Lemma interp_bind_returned {A B} (p : Prog A) (f : A -> Prog B) (w : W) (a : A) :
  outcome (interp h p w) = Returned a →
  outcome (interp h (bind p f) w) = outcome (interp h (f a) (world (interp h p w))) ∧
  world (interp h (bind p f) w) = world (interp h (f a) (world (interp h p w))) ∧
  trace (interp h (bind p f) w) =
    trace (interp h p w) ++ trace (interp h (f a) (world (interp h p w))).
Proof. intros Ha. rewrite interp_bind. unfold andThen. rewrite Ha. auto. Qed.

Lemma returns_ret {A} (a : A) : returns h (Ret a).
Proof. intros w. exists a. reflexivity. Qed.

Lemma returns_vis {A X} (c : Call X) (k : X -> Prog A) :
  (∀ x, returns h (k x)) → returns h (Vis c k).
Proof. intros Hk w. simpl. apply Hk. Qed.

Lemma returns_bind {A B} (p : Prog A) (f : A -> Prog B) :
  returns h p → (∀ a, returns h (f a)) → returns h (bind p f).
Proof.
  intros Hp Hf w. destruct (Hp w) as [a Ha].
  destruct (interp_bind_returned p f w a Ha) as (-> & _ & _). apply Hf.
Qed.

Lemma returns_forEach {A S} (xs : list A) (body : A -> S -> Prog S) (s : S) :
  (∀ x s', returns h (body x s')) → returns h (forEach xs body s).
Proof.
  intros Hbody. revert s. induction xs as [| x xs IH]; intros s; simpl.
  - apply returns_ret.
  - unfold_prog. apply returns_bind; auto.
Qed.

Lemma returns_filterM {A} (p : A -> Prog bool) (xs : list A) :
  (∀ x, returns h (p x)) → returns h (filterM p xs).
Proof.
  intros Hp. induction xs as [| x xs IH]; simpl.
  - apply returns_ret.
  - unfold_prog. apply returns_bind; [apply Hp |]. intros keep.
    apply returns_bind; [apply IH |]. intros rest. apply returns_ret.
Qed.

Lemma always_ret {A} P (a : A) : always h P (Ret a).
Proof. intros w. constructor. Qed.

Lemma always_exit {A} P code : always h P (Exit code : Prog A).
Proof. intros w. constructor. Qed.

Lemma always_vis {A X} P (c : Call X) (k : X -> Prog A) :
  (∀ x, P (Answered c x)) → (∀ x, always h P (k x)) → always h P (Vis c k).
Proof. intros Hc Hk w. simpl. constructor; [apply Hc | apply Hk]. Qed.

Lemma always_bind {A B} P (p : Prog A) (f : A -> Prog B) :
  always h P p → (∀ a, always h P (f a)) → always h P (bind p f).
Proof.
  intros Hp Hf w. rewrite interp_bind. unfold andThen.
  destruct (outcome (interp h p w)); simpl.
  - apply Forall_app. split; [apply Hp | apply Hf].
  - apply Hp.
Qed.

Lemma always_forEach {A S} P (xs : list A) (body : A -> S -> Prog S) (s : S) :
  (∀ x s', always h P (body x s')) → always h P (forEach xs body s).
Proof.
  intros Hbody. revert s. induction xs as [| x xs IH]; intros s; simpl.
  - apply always_ret.
  - unfold_prog. apply always_bind; auto.
Qed.

Lemma always_filterM {A} P (p : A -> Prog bool) (xs : list A) :
  (∀ x, always h P (p x)) → always h P (filterM p xs).
Proof.
  intros Hp. induction xs as [| x xs IH]; simpl.
  - apply always_ret.
  - unfold_prog. apply always_bind; [apply Hp |]. intros keep.
    apply always_bind; [apply IH |]. intros rest. apply always_ret.
Qed.

(** A predicate that answers the same in every world filters like a
    pure one. *)
Lemma filterM_outcome {A} (p : A -> Prog bool) (f : A -> bool) (xs : list A) (w : W) :
  (∀ x w', outcome (interp h (p x) w') = Returned (f x)) →
  outcome (interp h (filterM p xs) w) = Returned (List.filter f xs).
Proof.
  intros Hp. revert w. induction xs as [| x xs IH]; intros w; simpl; [reflexivity |].
  unfold_prog.
  destruct (interp_bind_returned (p x)
              (fun keep => bind (filterM p xs)
                 (fun rest => Ret (if keep : bool then x :: rest else rest)))
              w (f x) (Hp x w)) as (-> & _ & _).
  destruct (interp_bind_returned (filterM p xs)
              (fun rest => Ret (if f x then x :: rest else rest))
              (world (interp h (p x) w)) _ (IH _)) as (-> & _ & _).
  simpl. destruct (f x); reflexivity.
Qed.

(** A predicate that performs no call at all leaves no trace. *)
Lemma filterM_silent {A} (p : A -> Prog bool) (xs : list A) (w : W) :
  (∀ x, ∃ b, p x = Ret b) → trace (interp h (filterM p xs) w) = [].
Proof.
  intros Hp. revert w. induction xs as [| x xs IH]; intros w; simpl; [reflexivity |].
  destruct (Hp x) as [b ->]. unfold_prog. simpl.
  rewrite interp_bind. unfold andThen.
  destruct (outcome (interp h (filterM p xs) w)); simpl; rewrite IH; reflexivity.
Qed.

End RunFacts.

(** ** The review filter *)

Section FilterFacts.

Context {W : Type} (h : Handler W).
Variable cfg : Config.
Variable Date_parse : string -> option Z.
Variable setDateBack : Z -> Z -> Z.
Variable createClient : string -> string -> bool.

(** The value of [isReviewWithinDateLimit] when the clock reads [now]. *)
Lemma isReviewWithinDateLimit_outcome (now : Z) (publishDate : string) (w : W) :
  (MAX_REVIEW_AGE_DAYS cfg ≠ 0%Z → (h _ Now w).1 = now) →
  outcome (interp h (isReviewWithinDateLimit cfg Date_parse setDateBack publishDate) w) =
    Returned (bool_decide (MAX_REVIEW_AGE_DAYS cfg = 0%Z ∨
                           recentEnough cfg Date_parse setDateBack now publishDate)).
Proof.
  intros Hclock. unfold isReviewWithinDateLimit.
  destruct (Z.eqb_spec (MAX_REVIEW_AGE_DAYS cfg) 0) as [Hzero | Hpos]; simpl.
  - rewrite bool_decide_eq_true_2; auto.
  - rewrite (Hclock Hpos). f_equal. unfold notBefore.
    destruct (Date_parse publishDate) as [t |] eqn:Hparse.
    + destruct (Z.leb_spec (setDateBack now (MAX_REVIEW_AGE_DAYS cfg)) t) as [Hle | Hgt].
      * rewrite bool_decide_eq_true_2; [reflexivity |].
        right. exists t. auto.
      * rewrite bool_decide_eq_false_2; [reflexivity |].
        intros [Hzero | (t' & Ht' & Hle)]; [contradiction |].
        rewrite Hparse in Ht'. injection Ht' as <-. lia.
    + rewrite bool_decide_eq_false_2; [reflexivity |].
      intros [Hzero | (t' & Ht' & _)]; [contradiction |].
      rewrite Hparse in Ht'. discriminate.
Qed.

Lemma filter_two_stages {R} (rate : R -> Z) (date : R -> string) (now : Z)
    (reviews : list R) :
  List.filter
    (fun r => bool_decide (MAX_REVIEW_AGE_DAYS cfg = 0%Z ∨
                           recentEnough cfg Date_parse setDateBack now (date r)))
    (filter (fun r => (rate r <= MAX_REVIEW_RATING cfg)%Z) reviews) =
  filter (fun r => keeps cfg Date_parse setDateBack now (rate r) (date r)) reviews.
Proof.
  induction reviews as [| r reviews IH]; [reflexivity |].
  rewrite !filter_cons.
  destruct (decide (rate r <= MAX_REVIEW_RATING cfg)%Z) as [Hrate | Hrate].
  - simpl. rewrite IH. case_bool_decide as Hage.
    + rewrite decide_True by (split; assumption). reflexivity.
    + rewrite decide_False; [reflexivity | intros [_ ?]; contradiction].
  - rewrite IH. rewrite decide_False; [reflexivity | intros [? _]; contradiction].
Qed.

(** The filter as a whole, when the clock reads [now]. *)
Lemma filterReviews_outcome {R} (rate : R -> Z) (date : R -> string) (now : Z)
    (reviews : list R) (w : W) :
  (MAX_REVIEW_AGE_DAYS cfg ≠ 0%Z → ∀ w', (h _ Now w').1 = now) →
  outcome (interp h (filterReviews cfg Date_parse setDateBack rate date reviews) w) =
    Returned (filter (fun x => keeps cfg Date_parse setDateBack now (rate x) (date x)) reviews).
Proof.
  intros Hclock. unfold filterReviews.
  rewrite (filterM_outcome h _
             (fun x => bool_decide (MAX_REVIEW_AGE_DAYS cfg = 0%Z ∨
                                    recentEnough cfg Date_parse setDateBack now (date x)))).
  - f_equal. apply filter_two_stages.
  - intros x w'. apply isReviewWithinDateLimit_outcome. intros Hpos. apply Hclock, Hpos.
Qed.

(** The first provider's adapter: the filter, then the cap on the number
    of reviews per venue. *)
Lemma fetchTripAdvisorReviews_outcome (now : Z) (locationId : string) (w : W) :
  (MAX_REVIEW_AGE_DAYS cfg ≠ 0%Z → ∀ w', (h _ Now w').1 = now) →
  outcome (interp h (fetchTripAdvisorReviews cfg Date_parse setDateBack locationId) w) =
    Returned
      (match (h _ (TripAdvisorReviews locationId) w).1 with
       | Responded status (Some (Some reviews)) =>
           if ok status
           then take (MAX_REVIEWS_PER_HOTEL cfg)
                  (filter (fun x => keeps cfg Date_parse setDateBack now
                                      (ta_rating x) (ta_published_date x)) reviews)
           else []
       | _ => []
       end).
Proof.
  intros Hclock. unfold fetchTripAdvisorReviews. unfold_prog.
  cbn [bind interp outcome].
  destruct ((h _ (TripAdvisorReviews locationId) w).1) as [| status body]; [reflexivity |].
  destruct (ok status); cbn [negb]; [| destruct body as [[|]|]; reflexivity].
  destruct body as [[reviews |] |]; try reflexivity.
  rewrite interp_bind. unfold andThen.
  rewrite (filterReviews_outcome ta_rating ta_published_date now reviews _ Hclock).
  reflexivity.
Qed.

End FilterFacts.

(** C2: the two filter stages keep exactly the reviews that satisfy
    [rating <= maxRating AND (maxAgeDays == 0 OR publishDate >= now -
    maxAgeDays)], in the order of the input, where [now] is what the clock
    reads while the filter runs.  With [maxAgeDays == 0] the clock is not
    read at all and the reviews with [rating <= maxRating] are kept
    whatever their age; so are, with [maxRating = 3], exactly the reviews
    rated 3 or less. *)
Theorem C2_filter_keeps_negative_recent_reviews
    {W} (h : Handler W) (cfg : Config) (Date_parse : string → option Z)
    (setDateBack : Z → Z → Z) {R} (rate : R → Z) (date : R → string)
    (reviews : list R) (now : Z) (w : W) :
  (MAX_REVIEW_AGE_DAYS cfg ≠ 0%Z → ∀ w', (h _ Now w').1 = now) →
  let r := interp h (filterReviews cfg Date_parse setDateBack rate date reviews) w in
  let kept := filter (fun x => keeps cfg Date_parse setDateBack now (rate x) (date x)) reviews in
  outcome r = Returned kept ∧
  kept `sublist_of` reviews ∧
  (∀ x, x ∈ kept ↔ x ∈ reviews ∧ keeps cfg Date_parse setDateBack now (rate x) (date x)) ∧
  (MAX_REVIEW_AGE_DAYS cfg = 0%Z →
     kept = filter (fun x => (rate x <= MAX_REVIEW_RATING cfg)%Z) reviews ∧
     trace r = [] ∧
     (MAX_REVIEW_RATING cfg = 3%Z → kept = filter (fun x => (rate x <= 3)%Z) reviews)).
Proof.
  intros Hclock r kept. split; [| split; [| split]].
  - subst r kept. apply filterReviews_outcome. exact Hclock.
  - apply sublist_filter.
  - intros x. subst kept. rewrite list_elem_of_filter. tauto.
  - intros Hzero. split; [| split].
    + subst kept. apply list_filter_iff. intros x. unfold keeps. tauto.
    + subst r. unfold filterReviews. apply filterM_silent.
      intros x. unfold isReviewWithinDateLimit. rewrite Hzero, Z.eqb_refl. eauto.
    + intros H3. subst kept. apply list_filter_iff. intros x. unfold keeps.
      rewrite H3. tauto.
Qed.

(** ** The driver never ends the process inside the cohort *)

Section DriverFacts.

Context {W : Type} (h : Handler W).
Variable cfg : Config.
Variable JSON_parse : string -> option json.
Variable Date_parse : string -> option Z.
Variable setDateBack : Z -> Z -> Z.
Variable createClient : string -> string -> bool.

Ltac run_step :=
  first
    [ apply returns_ret
    | apply returns_vis; intros
    | apply returns_filterM; intros
    | apply returns_forEach; intros
    | apply returns_bind; [| intros] ].

Lemma isReviewWithinDateLimit_returns publishDate :
  returns h (isReviewWithinDateLimit cfg Date_parse setDateBack publishDate).
Proof.
  unfold isReviewWithinDateLimit. destruct (_ =? _)%Z; unfold_prog; cbn [bind];
    repeat run_step.
Qed.

Lemma filterReviews_returns {R} (rate : R -> Z) (date : R -> string) reviews :
  returns h (filterReviews cfg Date_parse setDateBack rate date reviews).
Proof. apply returns_filterM. intros x. apply isReviewWithinDateLimit_returns. Qed.

Lemma searchHotelTripAdvisor_returns hotelName :
  returns h (searchHotelTripAdvisor hotelName).
Proof. unfold searchHotelTripAdvisor. unfold_prog. cbn [bind]. repeat run_step. Qed.

Lemma fetchTripAdvisorReviews_returns locationId :
  returns h (fetchTripAdvisorReviews cfg Date_parse setDateBack locationId).
Proof.
  unfold fetchTripAdvisorReviews. unfold_prog. cbn [bind].
  apply returns_vis. intros [| status body]; [apply returns_ret |].
  destruct (negb (ok status)); [apply returns_ret |].
  destruct body as [[reviews |] |]; try apply returns_ret.
  apply returns_bind; [apply filterReviews_returns | intros; apply returns_ret].
Qed.

Lemma fetchGoogleReviewsAll_returns placeId hotelName :
  returns h (fetchGoogleReviewsAll cfg placeId hotelName).
Proof. unfold fetchGoogleReviewsAll. unfold_prog. cbn [bind]. repeat run_step. Qed.

Lemma processReview_returns systemPrompt hotelName review c :
  returns h (processReview cfg JSON_parse systemPrompt hotelName review c).
Proof.
  unfold processReview, checkExistingReport, shouldBeAnonymous,
    transformReviewToSafetyInsight, upsertReport.
  unfold_prog. cbn [bind].
  apply returns_vis. intros d.
  destruct d as [[| x rows] |]; repeat run_step.
Qed.

Lemma processReviews_returns systemPrompt hotelName reviews c :
  returns h (processReviews cfg JSON_parse systemPrompt hotelName reviews c).
Proof. apply returns_forEach. intros. apply processReview_returns. Qed.

Lemma processPlace_returns systemPrompt hotel placeId c :
  returns h (processPlace cfg JSON_parse Date_parse setDateBack systemPrompt hotel placeId c).
Proof.
  unfold processPlace. unfold_prog. cbn [bind].
  apply returns_vis. intros _.
  apply returns_bind; [apply searchHotelTripAdvisor_returns |].
  intros [location |].
  - cbn [bind]. apply returns_vis. intros _.
    apply returns_bind; [apply fetchTripAdvisorReviews_returns |].
    intros [| x xs]; [apply returns_ret | apply processReviews_returns].
  - apply returns_bind; [apply fetchGoogleReviewsAll_returns |].
    intros [| x xs]; [apply returns_ret |].
    apply returns_bind; [apply filterReviews_returns |].
    intros. apply processReviews_returns.
Qed.

Lemma processHotel_returns systemPrompt hotel c :
  returns h (processHotel cfg JSON_parse Date_parse setDateBack systemPrompt hotel c).
Proof.
  unfold processHotel. destruct (google_place_id hotel) as [[| a s] |];
    try apply returns_ret. apply processPlace_returns.
Qed.

Lemma processCohort_returns systemPrompt dbHotels :
  returns h (processCohort cfg JSON_parse Date_parse setDateBack systemPrompt dbHotels).
Proof. apply returns_forEach. intros. apply processHotel_returns. Qed.

Lemma processTopHotel_returns systemPrompt hotel c :
  returns h (processTopHotel cfg JSON_parse Date_parse setDateBack systemPrompt hotel c).
Proof.
  unfold processTopHotel. unfold_prog. cbn [bind].
  apply returns_vis. intros _.
  apply returns_bind; [apply fetchTripAdvisorReviews_returns |].
  intros [| x xs]; [apply returns_ret | apply processReviews_returns].
Qed.

End DriverFacts.

(** ** Exit codes *)

Section ExitFacts.

Context {W : Type} (h : Handler W).
Variable cfg : Config.
Variable JSON_parse : string -> option json.
Variable Date_parse : string -> option Z.
Variable setDateBack : Z -> Z -> Z.
Variable createClient : string -> string -> bool.

Lemma loadSystemPrompt_outcome (w : W) :
  (promptUnusable h w ∧ outcome (interp h loadSystemPrompt w) = Exited 1) ∨
  (¬ promptUnusable h w ∧ ∃ prompt, outcome (interp h loadSystemPrompt w) = Returned prompt).
Proof.
  unfold promptUnusable, loadSystemPrompt. unfold_prog. cbn.
  destruct ((h bool PromptFileExists w).1) eqn:Hexists; cbn.
  - destruct ((h (option string) ReadPromptFile (h bool PromptFileExists w).2).1)
      as [content |] eqn:Hread; cbn.
    + destruct (Re.matchSystemPrompt content) as [g |] eqn:Hmatch; cbn.
      * right. split; [| eauto].
        intros [Hno | [Hno | (c & [= <-] & Hno)]]; congruence.
      * left. split; [| reflexivity]. right. right. eauto.
    + left. split; [| reflexivity]. right. left. reflexivity.
  - left. split; [| reflexivity]. left. reflexivity.
Qed.

Lemma shuffleFrom_returns {A} (i : nat) (l : list A) : returns h (shuffleFrom i l).
Proof.
  revert l. induction i as [| i IH]; intros l; simpl; [apply returns_ret |].
  unfold_prog. cbn [bind]. apply returns_vis. intros r. apply IH.
Qed.

Lemma selectCohort_returns cmd : returns h (selectCohort cfg cmd).
Proof.
  unfold selectCohort, fetchUnprocessedHotels, fetchRandomHotels,
    fetchHotelsFromDatabase, shuffle.
  destruct (useUnprocessedOnly cmd); [| destruct (useRandomSampling cmd)];
    unfold_prog; cbn [bind].
  - apply returns_vis. intros processed.
    destruct (error processed); [apply returns_ret |].
    cbn [bind]. apply returns_vis. intros allHotels.
    destruct (error allHotels); [apply returns_ret |].
    destruct (filter _ _); [apply returns_ret |].
    apply returns_bind; [apply shuffleFrom_returns | intros; apply returns_ret].
  - apply returns_vis. intros a.
    destruct (error a); [apply returns_ret |].
    destruct (data a) as [[| x rows] |]; try apply returns_ret.
    apply returns_bind; [apply shuffleFrom_returns | intros; apply returns_ret].
  - apply returns_vis. intros a. apply returns_ret.
Qed.

End ExitFacts.

(** C9, as stated: a run with complete configuration and a usable prompt
    file can still end with a non-zero exit code.  With no hotel in the
    store the cohort is empty and the driver exits with code 1. *)
Lemma C9_empty_cohort_counterexample :
  ¬ (∀ {W} (h : Handler W) (w : W) (cfg : Config) (JSON_parse : string → option json)
       (Date_parse : string → option Z) (setDateBack : Z → Z → Z)
       (createClient : string → string → bool) (cmd : CommandLine),
        exitCode (outcome (interp h
                    (runIngestion cfg JSON_parse Date_parse setDateBack createClient cmd) w))
          ≠ 0%Z →
        missingKeys cfg ≠ [] ∨ promptUnusable h w).
Proof.
  intros claim.
  specialize (claim World (answer Sample.outside) Sample.noHotel (CONFIG Sample.env)
                Sample.parse Sample.parseDate Sample.daysBack Sample.client
                Sample.allHotels).
  destruct claim as [Hconfig | Hprompt].
  - vm_compute. discriminate.
  - apply Hconfig. vm_compute. reflexivity.
  - destruct Hprompt as [Hno | [Hno | (content & Hread & Hno)]].
    + vm_compute in Hno. discriminate Hno.
    + vm_compute in Hno. discriminate Hno.
    + injection Hread as <-. vm_compute in Hno. discriminate Hno.
Qed.

(** C9, amended: the exit code is 0 or 1, and it is 1 exactly when
    required configuration is missing, or the prompt file is missing,
    unreadable or without a system prompt, or the store library refuses
    the configured URL and key when the client is created, or the
    selected cohort is empty (no venue in the store, a failed read of the
    store during selection, or every venue already processed in the mode
    for unprocessed venues).  Once a non-empty cohort is selected the
    driver runs to its end whatever happens to single venues and
    reviews. *)
Theorem C9_exit_code_one_iff
    {W} (h : Handler W) (w : W) (cfg : Config) (JSON_parse : string → option json)
    (Date_parse : string → option Z) (setDateBack : Z → Z → Z)
    (createClient : string → string → bool) (cmd : CommandLine) :
  let r := interp h (runIngestion cfg JSON_parse Date_parse setDateBack createClient cmd) w in
  let prompt := interp h loadSystemPrompt w in
  let clientRefused :=
    createClient (SUPABASE_URL cfg) (SUPABASE_SERVICE_KEY cfg) = false in
  let emptyCohort :=
    ∃ p, outcome prompt = Returned p ∧
         outcome (interp h (selectCohort cfg cmd) (world prompt)) = Returned [] in
  (exitCode (outcome r) = 0%Z ∨ exitCode (outcome r) = 1%Z) ∧
  (exitCode (outcome r) ≠ 0%Z ↔
     missingKeys cfg ≠ [] ∨ promptUnusable h w ∨ clientRefused ∨ emptyCohort) ∧
  (∀ p dbHotels w', ∃ c,
     outcome (interp h (processCohort cfg JSON_parse Date_parse setDateBack p dbHotels) w')
     = Returned c).
Proof.
  intros r prompt clientRefused emptyCohort.
  assert (Hcases :
    (exitCode (outcome r) = 1%Z ∧
       (missingKeys cfg ≠ [] ∨ promptUnusable h w ∨ clientRefused ∨ emptyCohort)) ∨
    (exitCode (outcome r) = 0%Z ∧
       ¬ (missingKeys cfg ≠ [] ∨ promptUnusable h w ∨ clientRefused ∨ emptyCohort))).
  { subst r clientRefused. unfold runIngestion, createSupabaseClient.
    destruct (missingKeys cfg) as [| key keys] eqn:Hkeys.
    2:{ left. split; [reflexivity | left; discriminate]. }
    unfold_prog. rewrite interp_bind. unfold andThen.
    destruct (loadSystemPrompt_outcome h w) as [[Hbad Hexit] | [Hgood [p Hp]]].
    { rewrite Hexit. left. split; [reflexivity | auto]. }
    rewrite Hp. cbn [outcome world trace].
    destruct (createClient (SUPABASE_URL cfg) (SUPABASE_SERVICE_KEY cfg)) eqn:Hclient.
    2:{ left. split; [reflexivity | auto]. }
    cbn [bind]. rewrite interp_bind. unfold andThen.
    destruct (selectCohort_returns h cfg cmd (world (interp h loadSystemPrompt w)))
      as [dbHotels Hcohort].
    rewrite Hcohort. cbn [outcome world trace].
    destruct dbHotels as [| hotel rest].
    { left. split; [reflexivity |]. right. right. right. exists p. auto. }
    destruct (processCohort_returns h cfg JSON_parse Date_parse setDateBack p
                (hotel :: rest)
                (world (interp h (selectCohort cfg cmd)
                          (world (interp h loadSystemPrompt w))))) as [c Hc].
    rewrite Hc. right. split; [reflexivity |].
    intros [Hmissing | [Hbad | [Hrefused | (p' & Hp' & Hempty)]]].
    - congruence.
    - contradiction.
    - discriminate Hrefused.
    - subst prompt. rewrite Hp in Hp'. injection Hp' as <-.
      rewrite Hcohort in Hempty. discriminate Hempty. }
  split; [| split].
  - destruct Hcases as [[-> _] | [-> _]]; auto.
  - destruct Hcases as [[Hone Hwhy] | [Hzero Hnot]].
    + split; [intros _; exact Hwhy | intros _; rewrite Hone; discriminate].
    + split; [intros Hne; contradiction | intros Hwhy; contradiction].
  - intros p dbHotels w'. apply processCohort_returns.
Qed.

(** X20.  The sibling script has no cohort to select: a run of
    [ingest-top-hotels.ts] ends with code 0 or 1, and with a non-zero
    code exactly when a required setting is missing, the prompt file
    cannot be used, or the store library refuses the configured URL and
    key when the client is created; no failure of a provider, of the
    model or of the store ends it. *)
Lemma runIngestionTop_exit_code
    {W} (h : Handler W) (w : W) (cfg : Config) (JSON_parse : string → option json)
    (Date_parse : string → option Z) (setDateBack : Z → Z → Z)
    (createClient : string → string → bool) :
  let r := interp h (runIngestionTop cfg JSON_parse Date_parse setDateBack createClient) w in
  (exitCode (outcome r) = 0%Z ∨ exitCode (outcome r) = 1%Z) ∧
  (exitCode (outcome r) ≠ 0%Z ↔
     missingKeys cfg ≠ [] ∨ promptUnusable h w ∨
     createClient (SUPABASE_URL cfg) (SUPABASE_SERVICE_KEY cfg) = false).
Proof.
  intros r. subst r. unfold runIngestionTop, createSupabaseClient.
  destruct (missingKeys cfg) as [| key keys] eqn:Hkeys.
  2:{ cbn. split; [auto |]. split; [intros _; left; discriminate | discriminate]. }
  unfold_prog. rewrite interp_bind. unfold andThen.
  destruct (loadSystemPrompt_outcome h w) as [[Hbad Hexit] | [Hgood [p Hp]]].
  { rewrite Hexit. cbn. split; [auto |]. split; [auto | discriminate]. }
  rewrite Hp. cbn [outcome].
  destruct (createClient (SUPABASE_URL cfg) (SUPABASE_SERVICE_KEY cfg)) eqn:Hclient.
  2:{ cbn. split; [auto |]. split; [auto | discriminate]. }
  cbn [bind].
  destruct (returns_forEach h TOP_HOTELS
              (processTopHotel cfg JSON_parse Date_parse setDateBack p) noCounters
              (fun hotel c => processTopHotel_returns h cfg JSON_parse Date_parse
                                setDateBack p hotel c)
              (world (interp h loadSystemPrompt w))) as [c Hc].
  rewrite Hc. cbn. split; [auto |].
  split; [contradiction |].
  intros [Hmissing | [Hbad | Hrefused]]; [congruence | contradiction | discriminate].
Qed.

(** ** Attribution *)

Section AttributionFacts.

Context {W : Type} (h : Handler W).
Variable cfg : Config.
Variable JSON_parse : string -> option json.
Variable Date_parse : string -> option Z.
Variable setDateBack : Z -> Z -> Z.
Variable createClient : string -> string -> bool.

Ltac always_step :=
  first
    [ apply always_ret
    | apply always_exit
    | apply always_vis; [intros; exact I | intros]
    | apply always_filterM; intros
    | apply always_forEach; intros
    | apply always_bind; [| intros] ].

Lemma reportOf_sound hotelName review isAnonymous transformed :
  attributionSound cfg (insertOf (reportOf cfg hotelName review isAnonymous transformed)).
Proof. destruct isAnonymous; split; simpl; try split; congruence. Qed.

Lemma filterReviews_no_insert {R} (rate : R -> Z) (date : R -> string) reviews :
  always h (insertSound cfg) (filterReviews cfg Date_parse setDateBack rate date reviews).
Proof.
  apply always_filterM. intros x. unfold isReviewWithinDateLimit.
  destruct (_ =? _)%Z; unfold_prog; cbn [bind]; repeat always_step.
Qed.

Lemma fetchTripAdvisorReviews_no_insert locationId :
  always h (insertSound cfg) (fetchTripAdvisorReviews cfg Date_parse setDateBack locationId).
Proof.
  unfold fetchTripAdvisorReviews. unfold_prog. cbn [bind].
  apply always_vis; [intros; exact I |].
  intros [| status body]; [apply always_ret |].
  destruct (negb (ok status)); [apply always_ret |].
  destruct body as [[reviews |] |]; try apply always_ret.
  apply always_bind; [apply filterReviews_no_insert | intros; apply always_ret].
Qed.

Lemma processReview_sound systemPrompt hotelName review c :
  always h (insertSound cfg) (processReview cfg JSON_parse systemPrompt hotelName review c).
Proof.
  unfold processReview, checkExistingReport, shouldBeAnonymous,
    transformReviewToSafetyInsight, upsertReport.
  unfold_prog. cbn [bind].
  apply always_vis; [intros; exact I |]. intros d.
  destruct d as [[| x rows] |]; cbn [bind]; try apply always_ret.
  all: apply always_vis; [intros; exact I |]; intros rnd.
  all: apply always_vis; [intros; exact I |]; intros _.
  all: apply always_vis; [intros; exact I |]; intros reply.
  all: apply always_vis; [intros; apply reportOf_sound |]; intros a.
  all: apply always_ret.
Qed.

Lemma processReviews_sound systemPrompt hotelName reviews c :
  always h (insertSound cfg) (processReviews cfg JSON_parse systemPrompt hotelName reviews c).
Proof. apply always_forEach. intros. apply processReview_sound. Qed.

Lemma processHotel_sound systemPrompt hotel c :
  always h (insertSound cfg)
    (processHotel cfg JSON_parse Date_parse setDateBack systemPrompt hotel c).
Proof.
  unfold processHotel. destruct (google_place_id hotel) as [[| a s] |];
    try apply always_ret.
  unfold processPlace, searchHotelTripAdvisor, fetchGoogleReviewsAll.
  unfold_prog. cbn [bind].
  apply always_vis; [intros; exact I |]. intros _.
  apply always_vis; [intros; exact I |]. intros found.
  match goal with |- always _ _ (match ?m with _ => _ end) => destruct m as [location |] end.
  - cbn [bind]. apply always_vis; [intros; exact I |]. intros _.
    apply always_bind; [apply fetchTripAdvisorReviews_no_insert |].
    intros [| x xs]; [apply always_ret | apply processReviews_sound].
  - cbn [bind]. apply always_vis; [intros; exact I |]. intros details.
    match goal with |- always _ _ (match ?m with _ => _ end) => destruct m as [| x xs] end;
      [apply always_ret |].
    apply always_bind; [apply filterReviews_no_insert |].
    intros. apply processReviews_sound.
Qed.

Lemma selectCohort_quiet cmd : always h quiet (selectCohort cfg cmd).
Proof.
  assert (Hshuffle : ∀ A i (l : list A), always h quiet (shuffleFrom i l)).
  { intros A i. induction i as [| i IH]; intros l; simpl; [apply always_ret |].
    unfold_prog. cbn [bind]. apply always_vis; [intros; split; reflexivity | intros; apply IH]. }
  unfold selectCohort, fetchUnprocessedHotels, fetchRandomHotels,
    fetchHotelsFromDatabase, shuffle.
  destruct (useUnprocessedOnly cmd); [| destruct (useRandomSampling cmd)];
    unfold_prog; cbn [bind].
  - apply always_vis; [intros; split; reflexivity |]. intros processed.
    destruct (error processed); [apply always_ret |].
    cbn [bind]. apply always_vis; [intros; split; reflexivity |]. intros allHotels.
    destruct (error allHotels); [apply always_ret |].
    destruct (filter _ _); [apply always_ret |].
    apply always_bind; [apply Hshuffle | intros; apply always_ret].
  - apply always_vis; [intros; split; reflexivity |]. intros a.
    destruct (error a); [apply always_ret |].
    destruct (data a) as [[| x rows] |]; try apply always_ret.
    apply always_bind; [apply Hshuffle | intros; apply always_ret].
  - apply always_vis; [intros; split; reflexivity |]. intros a. apply always_ret.
Qed.

Lemma quiet_insertSound ev : quiet ev → insertSound cfg ev.
Proof.
  intros [_ Hinsert]. unfold insertSound, isInsert in *.
  destruct (insertOfEvent ev); [discriminate | exact I].
Qed.

Lemma selectCohort_no_insert cmd : always h (insertSound cfg) (selectCohort cfg cmd).
Proof.
  intros w. eapply Forall_impl; [apply selectCohort_quiet |].
  intros ev. apply quiet_insertSound.
Qed.

Lemma loadSystemPrompt_no_insert : always h (insertSound cfg) loadSystemPrompt.
Proof.
  unfold loadSystemPrompt. unfold_prog. cbn [bind].
  apply always_vis; [intros; exact I |]. intros present.
  destruct present; cbn; [| apply always_exit].
  apply always_vis; [intros; exact I |]. intros [content |]; [| apply always_exit].
  destruct (Re.matchSystemPrompt content); [apply always_ret | apply always_exit].
Qed.

Lemma createSupabaseClient_always (Q : Event -> Prop) :
  always h Q (createSupabaseClient cfg createClient).
Proof.
  unfold createSupabaseClient.
  destruct (createClient _ _); [apply always_ret | apply always_exit].
Qed.

Lemma runIngestion_sound cmd :
  always h (insertSound cfg)
    (runIngestion cfg JSON_parse Date_parse setDateBack createClient cmd).
Proof.
  unfold runIngestion. destruct (missingKeys cfg); [| apply always_exit].
  unfold_prog. apply always_bind; [apply loadSystemPrompt_no_insert |]. intros prompt.
  apply always_bind; [apply createSupabaseClient_always |]. intros _.
  apply always_bind; [apply selectCohort_no_insert |]. intros [| hotel rest].
  - apply always_exit.
  - apply always_forEach. intros. apply processHotel_sound.
Qed.

Lemma runIngestionTop_sound :
  always h (insertSound cfg)
    (runIngestionTop cfg JSON_parse Date_parse setDateBack createClient).
Proof.
  unfold runIngestionTop. destruct (missingKeys cfg); [| apply always_exit].
  unfold_prog. apply always_bind; [apply loadSystemPrompt_no_insert |]. intros prompt.
  apply always_bind; [apply createSupabaseClient_always |]. intros _.
  apply always_forEach. intros hotel c. unfold processTopHotel.
  unfold_prog. cbn [bind]. apply always_vis; [intros; exact I |]. intros _.
  apply always_bind; [apply fetchTripAdvisorReviews_no_insert |].
  intros [| x xs]; [apply always_ret | apply processReviews_sound].
Qed.

Lemma insertsOf_sound (t : list Event) :
  Forall (insertSound cfg) t → Forall (attributionSound cfg) (insertsOf t).
Proof.
  induction 1 as [| ev t Hev _ IH]; [constructor |].
  unfold insertsOf. simpl. unfold insertSound in Hev.
  destruct (insertOfEvent ev); [constructor |]; assumption.
Qed.

End AttributionFacts.

(** ** The store under the pipeline *)

Section StoreFacts.

Variable o : Outside.

Lemma acceptedInsert_is_insert ev ins :
  acceptedInsert ev = Some ins → insertOfEvent ev = Some ins.
Proof.
  destruct ev as [X c x]. destruct c; simpl; try discriminate.
  destruct x; simpl; congruence.
Qed.

Lemma answer_hotels {X} (c : Call X) (w : World) :
  hotels (answer o X c w).2 = hotels w.
Proof.
  destruct c; simpl; try reflexivity.
  destruct (insertFails o (calls w)); [reflexivity |].
  case_bool_decide; reflexivity.
Qed.

Lemma answer_reports {X} (c : Call X) (w : World) :
  reports (answer o X c w).2 =
    reports w ++ (rowOfInsert <$> acceptedInserts [Answered c (answer o X c w).1]).
Proof.
  destruct c; simpl; try (rewrite app_nil_r; reflexivity).
  destruct (insertFails o (calls w)); simpl; [rewrite app_nil_r; reflexivity |].
  case_bool_decide; simpl; [rewrite app_nil_r |]; reflexivity.
Qed.

Lemma acceptedInserts_cons ev t :
  acceptedInserts (ev :: t) = acceptedInserts [ev] ++ acceptedInserts t.
Proof. unfold acceptedInserts. simpl. destruct (acceptedInsert ev); reflexivity. Qed.

(** The pipeline never touches the table of hotels, and the rows it
    adds to the table of reports are the inserts that were accepted. *)
Lemma run_hotels {A} (p : Prog A) (w : World) :
  hotels (world (interp (answer o) p w)) = hotels w.
Proof.
  revert w. induction p as [a | code | X c k IH]; intros w; simpl; try reflexivity.
  rewrite IH. apply answer_hotels.
Qed.

Lemma run_reports {A} (p : Prog A) (w : World) :
  reports (world (interp (answer o) p w)) =
    reports w ++ (rowOfInsert <$> acceptedInserts (trace (interp (answer o) p w))).
Proof.
  revert w. induction p as [a | code | X c k IH]; intros w;
    try (simpl; rewrite app_nil_r; reflexivity).
  cbn [interp world trace].
  rewrite IH, answer_reports, (acceptedInserts_cons _ (trace _)), fmap_app, app_assoc.
  reflexivity.
Qed.

Lemma acceptedInserts_sound cfg (t : list Event) :
  Forall (insertSound cfg) t → Forall (attributionSound cfg) (acceptedInserts t).
Proof.
  induction 1 as [| ev t Hev _ IH]; [constructor |].
  unfold acceptedInserts. simpl.
  destruct (acceptedInsert ev) as [ins |] eqn:Hacc; [| assumption].
  constructor; [| assumption].
  unfold insertSound in Hev. rewrite (acceptedInsert_is_insert _ _ Hacc) in Hev. exact Hev.
Qed.

End StoreFacts.

(** C6: in every run of either script, whatever the outside world
    answers, each record handed to the store has its anonymity flag set
    exactly when its reporter name is null, and a record that is not
    anonymous carries the configured reporter name.  In the modelled
    store the rows of the table after the run are the rows before it
    followed by rows with the same property. *)
Theorem C6_anonymous_iff_no_reporter_name
    (cfg : Config) (JSON_parse : string → option json)
    (Date_parse : string → option Z) (setDateBack : Z → Z → Z)
    (createClient : string → string → bool) (cmd : CommandLine) :
  (∀ {W} (h : Handler W) (w : W),
     Forall (attributionSound cfg)
       (insertsOf (trace (interp h
          (runIngestion cfg JSON_parse Date_parse setDateBack createClient cmd) w))) ∧
     Forall (attributionSound cfg)
       (insertsOf (trace (interp h
          (runIngestionTop cfg JSON_parse Date_parse setDateBack createClient) w)))) ∧
  (∀ (o : Outside) (w : World),
     ∃ written,
       reports (world (interp (answer o)
          (runIngestion cfg JSON_parse Date_parse setDateBack createClient cmd) w))
       = reports w ++ written ∧
       Forall (rowAttributionSound cfg) written).
Proof.
  split.
  - intros W h w. split; apply insertsOf_sound.
    + apply runIngestion_sound.
    + apply runIngestionTop_sound.
  - intros o w. eexists. split; [apply run_reports |].
    apply Forall_fmap.
    eapply Forall_impl;
      [apply acceptedInserts_sound, runIngestion_sound |].
    intros ins Hins. exact Hins.
Qed.

(** ** Fallback to the second review provider *)

Section FallbackFacts.

Context {W : Type} (h : Handler W).
Variable cfg : Config.
Variable JSON_parse : string -> option json.
Variable Date_parse : string -> option Z.
Variable setDateBack : Z -> Z -> Z.
Variable createClient : string -> string -> bool.

(** The trace of a loop is the concatenation of the traces of its
    iterations, when no iteration ends the process. *)
Lemma forEach_segments {A S} (body : A -> S -> Prog S) (xs : list A) (s : S) (w : W) :
  (∀ x s', returns h (body x s')) →
  ∃ segments,
    trace (interp h (forEach xs body s) w) = concat segments ∧
    Forall2 (fun x segment => ∃ s' w', segment = trace (interp h (body x s') w'))
            xs segments.
Proof.
  intros Hbody. revert s w. induction xs as [| x xs IH]; intros s w.
  - exists []. split; [reflexivity | constructor].
  - simpl. unfold_prog.
    destruct (Hbody x s w) as [s1 Hs1].
    destruct (interp_bind_returned h (body x s) (fun s' => forEach xs body s') w s1 Hs1)
      as (_ & _ & ->).
    destruct (IH s1 (world (interp h (body x s) w))) as (segments & -> & Hall).
    exists (trace (interp h (body x s) w) :: segments).
    split; [reflexivity |]. constructor; [eauto | exact Hall].
Qed.

Lemma processHotel_segment systemPrompt hotel placeId c (w : W) :
  google_place_id hotel = Some placeId → placeId ≠ EmptyString →
  ∃ u resp rest,
    trace (interp h (processHotel cfg JSON_parse Date_parse setDateBack
                       systemPrompt hotel c) w)
    = Answered (Sleep (API_DELAY_MS cfg)) u
        :: Answered (TripAdvisorSearch (name hotel)) resp :: rest ∧
    (noMatch resp →
       ∃ details rest', rest = Answered (GooglePlaceDetails placeId) details :: rest') ∧
    (∀ l, firstMatch resp l →
       ∃ u' reviews rest',
         rest = Answered (Sleep (API_DELAY_MS cfg)) u'
                  :: Answered (TripAdvisorReviews (location_id l)) reviews :: rest') ∧
    (noMatch resp ∨ ∃ l, firstMatch resp l).
Proof.
  intros Hplace Hnonempty. unfold processHotel. rewrite Hplace.
  destruct placeId as [| a s]; [contradiction |].
  unfold processPlace, searchHotelTripAdvisor, fetchGoogleReviewsAll,
    fetchTripAdvisorReviews.
  unfold_prog. cbn [bind interp trace].
  destruct ((h _ (TripAdvisorSearch (name hotel))
               (h unit (Sleep (API_DELAY_MS cfg)) w).2).1) as [| status body] eqn:Hresp.
  { do 3 eexists. split; [reflexivity |].
    split; [intros _; cbn [bind interp trace negb]; do 2 eexists; reflexivity |].
    split; [intros l (? & ? & [=] & _) | left; exact I]. }
  destruct (ok status) eqn:Hok; cbn [negb].
  2:{ do 3 eexists. split; [reflexivity |].
      split; [intros _; cbn [bind interp trace negb]; do 2 eexists; reflexivity |].
      split; [intros l (? & ? & [= -> ->] & Hok'); congruence | left; simpl; auto]. }
  destruct body as [[[| l ls] |] |].
  - do 3 eexists. split; [reflexivity |].
    split; [intros _; cbn [bind interp trace negb]; do 2 eexists; reflexivity |].
    split; [intros l (? & ? & [=] & _) | left; simpl; auto].
  - do 3 eexists. split; [reflexivity |].
    split; [intros [|[|[|]]]; congruence |].
    split.
    + intros l' (? & ? & [= _ <- _] & _). cbn [bind interp trace negb]. do 3 eexists. reflexivity.
    + right. exists l. exists status, ls. auto.
  - do 3 eexists. split; [reflexivity |].
    split; [intros _; cbn [bind interp trace negb]; do 2 eexists; reflexivity |].
    split; [intros l (? & ? & [=] & _) | left; simpl; auto].
  - do 3 eexists. split; [reflexivity |].
    split; [intros _; cbn [bind interp trace negb]; do 2 eexists; reflexivity |].
    split; [intros l (? & ? & [=] & _) | left; simpl; auto].
Qed.

End FallbackFacts.

(** C7: the run over a cohort is made of one segment per venue, in the
    order of the cohort.  The segment of a venue with a place id starts
    with the name search of the first provider for that venue; when the
    search yields no location (also when the call fails) the next call of
    the segment asks the second provider for the reviews of that venue's
    place, and when it yields a location the next calls fetch the reviews
    of that location from the first provider.  The choice depends on the
    answer for the venue at hand only. *)
Theorem C7_fallback_is_decided_per_venue
    {W} (h : Handler W) (w : W) (cfg : Config) (JSON_parse : string → option json)
    (Date_parse : string → option Z) (setDateBack : Z → Z → Z)
    (systemPrompt : string) (dbHotels : list DatabaseHotel) :
  ∃ segments,
    trace (interp h (processCohort cfg JSON_parse Date_parse setDateBack
                       systemPrompt dbHotels) w) = concat segments ∧
    Forall2
      (fun hotel segment =>
         ∀ placeId, google_place_id hotel = Some placeId → placeId ≠ EmptyString →
           ∃ u resp rest,
             segment = Answered (Sleep (API_DELAY_MS cfg)) u
                         :: Answered (TripAdvisorSearch (name hotel)) resp :: rest ∧
             (noMatch resp →
                ∃ details rest',
                  rest = Answered (GooglePlaceDetails placeId) details :: rest') ∧
             (∀ l, firstMatch resp l →
                ∃ u' reviews rest',
                  rest = Answered (Sleep (API_DELAY_MS cfg)) u'
                           :: Answered (TripAdvisorReviews (location_id l)) reviews
                           :: rest') ∧
             (noMatch resp ∨ ∃ l, firstMatch resp l))
      dbHotels segments.
Proof.
  destruct (forEach_segments h
              (processHotel cfg JSON_parse Date_parse setDateBack systemPrompt)
              dbHotels noCounters w) as (segments & Htrace & Hall).
  { intros hotel c. apply processHotel_returns. }
  exists segments. split; [exact Htrace |].
  eapply Forall2_impl; [exact Hall |].
  intros hotel segment (c & w' & ->) placeId Hplace Hnonempty.
  apply processHotel_segment; assumption.
Qed.

(** ** The deduplication gate *)

Section GateFacts.

Context {W : Type} (h : Handler W).
Variable cfg : Config.
Variable JSON_parse : string -> option json.

(** The gate answers for every answer of the store. *)
Lemma checkExistingReport_outcome externalReviewId (w : W) :
  outcome (interp h (checkExistingReport externalReviewId) w) =
    Returned (match (h _ (SelectReportByReviewId externalReviewId) w).1 with
              | Some (_ :: _) => true
              | _ => false
              end).
Proof. reflexivity. Qed.

(** A review that the gate reports as present: one call, no more. *)
Lemma processReview_present systemPrompt hotelName review c (w : W) row rows :
  (h _ (SelectReportByReviewId (id review)) w).1 = Some (row :: rows) →
  let r := interp h (processReview cfg JSON_parse systemPrompt hotelName review c) w in
  trace r = [Answered (SelectReportByReviewId (id review)) (Some (row :: rows))] ∧
  outcome r = Returned (countSkipped (countReview c)) ∧
  world r = (h _ (SelectReportByReviewId (id review)) w).2.
Proof.
  intros Hfound. unfold processReview, checkExistingReport. unfold_prog.
  cbn [bind interp trace outcome world]. rewrite Hfound.
  cbn [bind interp trace outcome world]. auto.
Qed.

(** A review that the gate does not report as present goes through the
    anonymity draw, the delay, the transformer and the insert. *)
Lemma processReview_absent systemPrompt hotelName review c (w : W) :
  (h _ (SelectReportByReviewId (id review)) w).1 = None ∨
  (h _ (SelectReportByReviewId (id review)) w).1 = Some [] →
  let r := interp h (processReview cfg JSON_parse systemPrompt hotelName review c) w in
  ∃ found draw u reply isAnonymous transformed saved,
    trace r =
      [ Answered (SelectReportByReviewId (id review)) found;
        Answered MathRandom draw;
        Answered (Sleep (API_DELAY_MS cfg)) u;
        Answered (DeepSeekChat systemPrompt
                    (userPrompt (text review) hotelName isAnonymous)) reply;
        Answered (InsertReport
                    (insertOf (reportOf cfg hotelName review isAnonymous transformed)))
                 saved ] ∧
    found = (h _ (SelectReportByReviewId (id review)) w).1 ∧
    transformed = insightOfReply JSON_parse reply ∧
    outcome r = Returned (match saved with
                          | InsertOk => countSaved (countReview c)
                          | _ => countReview c
                          end).
Proof.
  intros Habsent.
  unfold processReview, checkExistingReport, shouldBeAnonymous,
    transformReviewToSafetyInsight, upsertReport.
  unfold_prog. cbn [bind interp trace outcome world].
  destruct Habsent as [Hnone | Hnone]; rewrite Hnone;
    cbn [bind interp trace outcome world];
    do 7 eexists; (split; [reflexivity |]); (split; [reflexivity |]);
    (split; [reflexivity |]);
    match goal with |- context [(h InsertAnswer ?c ?w').1] =>
      destruct (h InsertAnswer c w').1 end; reflexivity.
Qed.

End GateFacts.

Section GateStoreFacts.

Variable o : Outside.

Lemma reviewIds_filter x (rows : list ReportRow) :
  x ∈ reviewIds rows ↔ filter (hasReviewId x) rows ≠ [].
Proof.
  unfold reviewIds. rewrite list_elem_of_omap. split.
  - intros (row & Hin & Hid) Hempty.
    assert (Hrow : row ∈ filter (hasReviewId x) rows)
      by (apply list_elem_of_filter; auto).
    rewrite Hempty in Hrow. apply not_elem_of_nil in Hrow. exact Hrow.
  - intros Hne. destruct (filter (hasReviewId x) rows) as [| row rest] eqn:Hf;
      [contradiction |].
    assert (Hrow : row ∈ filter (hasReviewId x) rows) by (rewrite Hf; left).
    apply list_elem_of_filter in Hrow as [Hid Hin]. eauto.
Qed.

(** The answer of a store that serves the lookup. *)
Lemma lookup_served x (w : World) :
  readFails o (calls w) = false →
  (x ∈ reviewIds (reports w) →
     ∃ row, (answer o _ (SelectReportByReviewId x) w).1 = Some [row]) ∧
  (x ∉ reviewIds (reports w) →
     (answer o _ (SelectReportByReviewId x) w).1 = Some []).
Proof.
  intros Hserved. cbn. rewrite Hserved. split.
  - intros Hin. apply reviewIds_filter in Hin.
    destruct (filter (hasReviewId x) (reports w)) as [| row rest]; [contradiction |].
    exists (row_id row). reflexivity.
  - intros Hout.
    destruct (filter (hasReviewId x) (reports w)) as [| row rest] eqn:Hf; [reflexivity |].
    exfalso. apply Hout, reviewIds_filter. rewrite Hf. discriminate.
Qed.

(** With the lookup failing, the review whose id is in the table is
    transformed and offered to the store, which turns it down. *)
Lemma processReview_lookup_fails cfg JSON_parse systemPrompt hotelName review c
    (w : World) :
  readFails o (calls w) = true →
  id review ∈ reviewIds (reports w) →
  let r := interp (answer o)
             (processReview cfg JSON_parse systemPrompt hotelName review c) w in
  length (filter (fun ev => isChat ev = true) (trace r)) = 1 ∧
  length (insertsOf (trace r)) = 1 ∧
  acceptedInserts (trace r) = [] ∧
  reports (world r) = reports w ∧
  outcome r = Returned (countReview c).
Proof.
  intros Hfails Hin.
  unfold processReview, checkExistingReport, shouldBeAnonymous,
    transformReviewToSafetyInsight, upsertReport.
  unfold_prog. cbn [bind interp trace outcome world answer fst snd tick calls reports].
  rewrite Hfails. cbn [bind interp trace outcome world answer fst snd tick calls reports].
  destruct (insertFails o _);
    cbn [bind interp trace outcome world answer fst snd tick calls reports].
  - repeat split.
  - rewrite bool_decide_eq_true_2 by exact Hin.
    cbn [bind interp trace outcome world answer fst snd tick calls reports].
    repeat split.
Qed.

End GateStoreFacts.

(** C10: the gate answers false when the lookup yields no data, and it
    answers for every answer of the store without raising.  The review
    then takes the path of a review that is not yet ingested: anonymity
    draw, delay, one model call and one insert that carries the external
    id of the review.  In the modelled store, when the id is in the table
    already, it is the uniqueness constraint that turns the insert down
    and the table is left as it was. *)
Theorem C10_dedup_gate_fails_open
    (cfg : Config) (JSON_parse : string → option json)
    (systemPrompt hotelName : string) (review : UnifiedReview) (c : Counters) :
  (∀ {W} (h : Handler W) (w : W),
     (∃ present,
        outcome (interp h (checkExistingReport (id review)) w) = Returned present) ∧
     ((h _ (SelectReportByReviewId (id review)) w).1 = None →
        outcome (interp h (checkExistingReport (id review)) w) = Returned false ∧
        ∃ draw u reply isAnonymous transformed saved c',
          trace (interp h (processReview cfg JSON_parse systemPrompt hotelName review c) w)
          = [ Answered (SelectReportByReviewId (id review)) None;
              Answered MathRandom draw;
              Answered (Sleep (API_DELAY_MS cfg)) u;
              Answered (DeepSeekChat systemPrompt
                          (userPrompt (text review) hotelName isAnonymous)) reply;
              Answered (InsertReport
                          (insertOf (reportOf cfg hotelName review isAnonymous transformed)))
                       saved ] ∧
          ins_external_review_id
            (insertOf (reportOf cfg hotelName review isAnonymous transformed)) = id review ∧
          outcome (interp h (processReview cfg JSON_parse systemPrompt hotelName review c) w)
          = Returned c')) ∧
  (∀ (o : Outside) (w : World),
     readFails o (calls w) = true →
     id review ∈ reviewIds (reports w) →
     let r := interp (answer o)
                (processReview cfg JSON_parse systemPrompt hotelName review c) w in
     length (filter (fun ev => isChat ev = true) (trace r)) = 1 ∧
     length (insertsOf (trace r)) = 1 ∧
     acceptedInserts (trace r) = [] ∧
     reports (world r) = reports w).
Proof.
  split.
  - intros W h w. split.
    + eexists. apply checkExistingReport_outcome.
    + intros Hnone. split.
      * rewrite checkExistingReport_outcome, Hnone. reflexivity.
      * destruct (processReview_absent h cfg JSON_parse systemPrompt hotelName review c w
                    (or_introl Hnone))
          as (found & draw & u & reply & isAnonymous & transformed & saved
              & Htrace & Hfound & _ & Hout).
        rewrite Hnone in Hfound. subst found.
        exists draw, u, reply, isAnonymous, transformed, saved. eexists.
        split; [exact Htrace |]. split; [reflexivity | exact Hout].
  - intros o w Hfails Hin r.
    destruct (processReview_lookup_fails o cfg JSON_parse systemPrompt hotelName review c
                w Hfails Hin) as (H1 & H2 & H3 & H4 & _).
    auto.
Qed.

(** ** Splitting a venue into its fetches and its loop over reviews *)

Section SplitFacts.

Context {W : Type} (h : Handler W).
Variable cfg : Config.
Variable JSON_parse : string -> option json.
Variable Date_parse : string -> option Z.
Variable setDateBack : Z -> Z -> Z.
Variable createClient : string -> string -> bool.

Lemma interp_vis_cong {A X} (c : Call X) (k1 k2 : X -> Prog A) (w : W) :
  (∀ x w', interp h (k1 x) w' = interp h (k2 x) w') →
  interp h (Vis c k1) w = interp h (Vis c k2) w.
Proof. intros Hk. cbn [interp]. rewrite Hk. reflexivity. Qed.

Lemma interp_bind_cong {A B} (p : Prog A) (f g : A -> Prog B) (w : W) :
  (∀ a w', interp h (f a) w' = interp h (g a) w') →
  interp h (bind p f) w = interp h (bind p g) w.
Proof.
  intros Hfg. rewrite !interp_bind. unfold andThen.
  destruct (outcome (interp h p w)); [rewrite Hfg |]; reflexivity.
Qed.

Lemma interp_bind_assoc {A B C} (p : Prog A) (f : A -> Prog B) (g : B -> Prog C) (w : W) :
  interp h (bind (bind p f) g) w = interp h (bind p (fun a => bind (f a) g)) w.
Proof.
  revert w. induction p as [a | code | X c k IH]; intros w; cbn [bind];
    [reflexivity | reflexivity |].
  apply interp_vis_cong. intros x w'. apply IH.
Qed.

Lemma processHotel_split systemPrompt hotel c (w : W) :
  interp h (processHotel cfg JSON_parse Date_parse setDateBack systemPrompt hotel c) w =
  andThen h (interp h (reviewsOfHotel cfg Date_parse setDateBack hotel) w)
    (fun reviews => processReviews cfg JSON_parse systemPrompt (name hotel) reviews c).
Proof.
  rewrite <- interp_bind.
  unfold processHotel, reviewsOfHotel.
  destruct (google_place_id hotel) as [[| a s] |]; try reflexivity.
  unfold processPlace, reviewsOfPlace, searchHotelTripAdvisor.
  unfold_prog. cbn [bind].
  apply interp_vis_cong. intros _ w1.
  apply interp_vis_cong. intros resp w2.
  match goal with |- context [match ?m with Some _ => _ | None => _ end] =>
    destruct m as [location |] end.
  - cbn [bind]. apply interp_vis_cong. intros _ w3.
    rewrite interp_bind_assoc. apply interp_bind_cong.
    intros [| x xs] w4; reflexivity.
  - rewrite interp_bind_assoc. apply interp_bind_cong.
    intros [| x xs] w3; reflexivity.
Qed.

Lemma processTopHotel_split systemPrompt hotel c (w : W) :
  interp h (processTopHotel cfg JSON_parse Date_parse setDateBack systemPrompt hotel c) w =
  andThen h (interp h (reviewsOfTopHotel cfg Date_parse setDateBack hotel) w)
    (fun reviews => processReviews cfg JSON_parse systemPrompt (top_name hotel) reviews c).
Proof.
  rewrite <- interp_bind.
  unfold processTopHotel, reviewsOfTopHotel.
  unfold_prog. cbn [bind].
  apply interp_vis_cong. intros _ w1.
  rewrite interp_bind_assoc. apply interp_bind_cong.
  intros [| x xs] w2; reflexivity.
Qed.

(** The fetches are made of upstream calls only; they read the clock
    when there is an age limit. *)
Lemma upstreamOnly_bind timed {A B} (p : Prog A) (f : A -> Prog B) :
  upstreamOnly timed p → (∀ a, upstreamOnly timed (f a)) → upstreamOnly timed (bind p f).
Proof.
  intros Hp Hf. induction p as [a | code | X c k IH]; cbn [bind upstreamOnly].
  - apply Hf.
  - exact I.
  - destruct Hp as [Hc Hk]. split; [exact Hc |]. intros x. apply IH, Hk.
Qed.

Lemma upstreamOnly_filterM timed {A} (p : A -> Prog bool) (xs : list A) :
  (∀ x, upstreamOnly timed (p x)) → upstreamOnly timed (filterM p xs).
Proof.
  intros Hp. induction xs as [| x xs IH]; [exact I |].
  cbn [filterM]. unfold_prog. apply upstreamOnly_bind; [apply Hp |].
  intros keep. apply upstreamOnly_bind; [apply IH |]. intros rest. exact I.
Qed.

Section Timed.

Variable timed : Prop.
Hypothesis timed_when_limited : MAX_REVIEW_AGE_DAYS cfg ≠ 0%Z → timed.

Lemma filterReviews_upstream {R} (rate : R -> Z) (date : R -> string) reviews :
  upstreamOnly timed (filterReviews cfg Date_parse setDateBack rate date reviews).
Proof.
  apply upstreamOnly_filterM. intros x. unfold isReviewWithinDateLimit.
  destruct (Z.eqb_spec (MAX_REVIEW_AGE_DAYS cfg) 0) as [Hzero | Hlimited];
    unfold_prog; cbn; auto.
Qed.

Lemma fetchTripAdvisorReviews_upstream locationId :
  upstreamOnly timed (fetchTripAdvisorReviews cfg Date_parse setDateBack locationId).
Proof.
  unfold fetchTripAdvisorReviews. unfold_prog. cbn [bind upstreamOnly].
  split; [exact I |]. intros [| status body]; [exact I |].
  destruct (negb (ok status)); [exact I |].
  destruct body as [[reviews |] |]; try exact I.
  apply upstreamOnly_bind; [apply filterReviews_upstream | intros; exact I].
Qed.

Lemma reviewsOfHotel_upstream hotel :
  upstreamOnly timed (reviewsOfHotel cfg Date_parse setDateBack hotel).
Proof.
  unfold reviewsOfHotel. destruct (google_place_id hotel) as [[| a s] |]; try exact I.
  unfold reviewsOfPlace, searchHotelTripAdvisor, fetchGoogleReviewsAll.
  unfold_prog. cbn [bind upstreamOnly].
  split; [exact I |]. intros _. split; [exact I |]. intros resp.
  match goal with |- context [match ?m with Some _ => _ | None => _ end] =>
    destruct m as [location |] end.
  - cbn [bind upstreamOnly]. split; [exact I |]. intros _.
    apply upstreamOnly_bind; [apply fetchTripAdvisorReviews_upstream | intros; exact I].
  - cbn [bind upstreamOnly]. split; [exact I |]. intros details.
    match goal with |- context [match ?m with [] => _ | _ :: _ => _ end] =>
      destruct m end; [exact I | apply filterReviews_upstream].
Qed.

Lemma reviewsOfTopHotel_upstream hotel :
  upstreamOnly timed (reviewsOfTopHotel cfg Date_parse setDateBack hotel).
Proof.
  unfold reviewsOfTopHotel. unfold_prog. cbn [bind upstreamOnly].
  split; [exact I |]. intros _.
  apply upstreamOnly_bind; [apply fetchTripAdvisorReviews_upstream | intros; exact I].
Qed.

End Timed.

(** The prompt is loaded without a look at the clock. *)
Lemma loadSystemPrompt_upstream timed : upstreamOnly timed loadSystemPrompt.
Proof.
  unfold loadSystemPrompt. unfold_prog. cbn [bind upstreamOnly].
  split; [exact I |]. intros present. destruct present; cbn; [| exact I].
  split; [exact I |]. intros [content |]; [| exact I].
  destruct (Re.matchSystemPrompt content); exact I.
Qed.

End SplitFacts.

(** ** A second run in the same outside world *)

Section RerunFacts.

Variable o : Outside.
Variable cfg : Config.
Variable JSON_parse : string -> option json.
Hypothesis reads_served : ∀ n, readFails o n = false.
Hypothesis inserts_served : ∀ n, insertFails o n = false.

(** Programs of upstream calls leave the store alone, and they run
    alike in every world when they read the clock only while it stands
    still. *)
Lemma upstream_run {B} (p : Prog B) :
  upstreamOnly (steady o) p →
  ∀ w w',
    outcome (interp (answer o) p w) = outcome (interp (answer o) p w') ∧
    reports (world (interp (answer o) p w)) = reports w ∧
    Forall quiet (trace (interp (answer o) p w)).
Proof.
  induction p as [a | code | X c k IH]; intros Hp w w'; cbn [interp outcome world trace].
  - repeat split. constructor.
  - repeat split. constructor.
  - destruct Hp as [Hc Hk].
    destruct c; try contradiction; cbn [answer fst snd];
      try rewrite (Hc (calls w)), (Hc (calls w'));
      match goal with |- outcome (interp _ (k ?x) _) = _ ∧ _ =>
        destruct (IH x (Hk x) (tick w) (tick w')) as (Hout & Hrep & Hquiet) end;
      (split; [exact Hout |]); (split; [exact Hrep |]);
      (constructor; [split; reflexivity | exact Hquiet]).
Qed.

Lemma reviewIds_app rows rows' :
  reviewIds (rows ++ rows') = reviewIds rows ++ reviewIds rows'.
Proof. unfold reviewIds. apply omap_app. Qed.

(** The ids in the table only grow. *)
Lemma ids_grow {B} (p : Prog B) (w : World) x :
  x ∈ reviewIds (reports w) → x ∈ reviewIds (reports (world (interp (answer o) p w))).
Proof.
  intros Hin. rewrite run_reports, reviewIds_app. apply elem_of_app. auto.
Qed.

Lemma processReview_duplicate systemPrompt hotelName review c (w : World) :
  id review ∈ reviewIds (reports w) →
  let r := interp (answer o) (processReview cfg JSON_parse systemPrompt hotelName review c) w in
  Forall quiet (trace r) ∧
  reports (world r) = reports w ∧
  outcome r = Returned (countSkipped (countReview c)).
Proof.
  intros Hin r.
  destruct (lookup_served o (id review) w (reads_served _)) as [Hfound _].
  destruct (Hfound Hin) as [row Hrow].
  destruct (processReview_present (answer o) cfg JSON_parse systemPrompt hotelName review c w
              row [] Hrow) as (Htrace & Hout & Hworld).
  subst r. rewrite Htrace, Hout, Hworld. repeat split.
  constructor; [split; reflexivity | constructor].
Qed.

Lemma processReview_fresh systemPrompt hotelName review c (w : World) :
  id review ∉ reviewIds (reports w) →
  id review ∈ reviewIds (reports (world (interp (answer o)
     (processReview cfg JSON_parse systemPrompt hotelName review c) w))).
Proof.
  intros Hout.
  destruct (lookup_served o (id review) w (reads_served _)) as [_ Hnone].
  specialize (Hnone Hout). cbn in Hnone. rewrite reads_served in Hnone.
  unfold processReview, checkExistingReport, shouldBeAnonymous,
    transformReviewToSafetyInsight, upsertReport.
  unfold_prog. cbn [bind interp trace outcome world answer fst snd tick calls reports].
  rewrite reads_served.
  injection Hnone as Hnone. rewrite Hnone.
  cbn [bind interp trace outcome world answer fst snd tick calls reports].
  rewrite inserts_served.
  rewrite bool_decide_eq_false_2 by exact Hout.
  cbn [bind interp trace outcome world answer fst snd tick calls reports].
  rewrite reviewIds_app. apply elem_of_app. right. left.
Qed.

Lemma processReview_ingests systemPrompt hotelName review c (w : World) :
  id review ∈ reviewIds (reports (world (interp (answer o)
     (processReview cfg JSON_parse systemPrompt hotelName review c) w))).
Proof.
  destruct (decide (id review ∈ reviewIds (reports w))) as [Hin | Hout].
  - apply ids_grow, Hin.
  - apply processReview_fresh, Hout.
Qed.

Lemma processReviews_ingest systemPrompt hotelName reviews c (w : World) review :
  review ∈ reviews →
  id review ∈ reviewIds (reports (world (interp (answer o)
     (processReviews cfg JSON_parse systemPrompt hotelName reviews c) w))).
Proof.
  revert c w. induction reviews as [| x xs IH]; intros c w Hin.
  - apply elem_of_nil in Hin. contradiction.
  - unfold processReviews. cbn [forEach]. unfold_prog.
    destruct (processReview_returns (answer o) cfg JSON_parse systemPrompt hotelName x c w)
      as [c1 Hc1].
    destruct (interp_bind_returned (answer o) _
                (fun c' => forEach xs (processReview cfg JSON_parse systemPrompt hotelName) c')
                w c1 Hc1) as (_ & -> & _).
    apply elem_of_cons in Hin as [-> | Hin].
    + apply ids_grow, processReview_ingests.
    + apply (IH c1 _ Hin).
Qed.

Lemma onlySkipped_refl c : onlySkipped c c.
Proof. split; reflexivity. Qed.

Lemma onlySkipped_trans c1 c2 c3 :
  onlySkipped c1 c2 → onlySkipped c2 c3 → onlySkipped c1 c3.
Proof. unfold onlySkipped. lia. Qed.

Lemma onlySkipped_step c : onlySkipped c (countSkipped (countReview c)).
Proof. unfold onlySkipped. simpl. lia. Qed.

Lemma processReviews_duplicates systemPrompt hotelName reviews c (w : World) :
  (∀ review, review ∈ reviews → id review ∈ reviewIds (reports w)) →
  let r := interp (answer o) (processReviews cfg JSON_parse systemPrompt hotelName reviews c) w in
  Forall quiet (trace r) ∧
  reports (world r) = reports w ∧
  ∃ c', outcome r = Returned c' ∧ onlySkipped c c'.
Proof.
  revert c w. induction reviews as [| x xs IH]; intros c w Hall.
  - cbn. repeat split; [constructor |]. exists c. split; [reflexivity | apply onlySkipped_refl].
  - unfold processReviews. cbn [forEach]. unfold_prog.
    destruct (processReview_duplicate systemPrompt hotelName x c w)
      as (Hquiet & Hreports & Hout); [apply Hall; left |].
    destruct (interp_bind_returned (answer o) _
                (fun c' => forEach xs (processReview cfg JSON_parse systemPrompt hotelName) c')
                w _ Hout) as (-> & -> & ->).
    destruct (IH (countSkipped (countReview c))
                 (world (interp (answer o) (processReview cfg JSON_parse systemPrompt hotelName x c) w)))
      as (Hquiet' & Hreports' & c' & Hout' & Hskip).
    { intros review Hin. rewrite Hreports. apply Hall. right. exact Hin. }
    split; [apply Forall_app; split; assumption |].
    split; [unfold processReviews in Hreports'; rewrite Hreports', Hreports; reflexivity |].
    exists c'. split; [exact Hout' |].
    eapply onlySkipped_trans; [apply onlySkipped_step | exact Hskip].
Qed.

End RerunFacts.

Section CohortRerun.

Variable o : Outside.
Variable cfg : Config.
Variable JSON_parse : string -> option json.
Hypothesis reads_served : ∀ n, readFails o n = false.
Hypothesis inserts_served : ∀ n, insertFails o n = false.

(** A loop body that first fetches the reviews of a venue with upstream
    calls and then runs the loop over these reviews. *)
Context {X : Type}.
Variable body : string -> X -> Counters -> Prog Counters.
Variable fetches : X -> Prog (list UnifiedReview).
Variable venueName : X -> string.
Hypothesis body_split : ∀ prompt x c w,
  interp (answer o) (body prompt x c) w =
  andThen (answer o) (interp (answer o) (fetches x) w)
    (fun reviews => processReviews cfg JSON_parse prompt (venueName x) reviews c).
Hypothesis fetches_upstream : ∀ x, upstreamOnly (steady o) (fetches x).
Hypothesis fetches_return : ∀ x, returns (answer o) (fetches x).

Lemma venue_seen x (w : World) :
  outcome (interp (answer o) (fetches x) w) = Returned (seen o (fetches x)).
Proof.
  unfold seen.
  destruct (upstream_run o (fetches x) (fetches_upstream x) w blank) as (-> & _ & _).
  destruct (fetches_return x blank) as [reviews ->]. reflexivity.
Qed.

Lemma venue_ingests prompt x c (w : World) review :
  review ∈ seen o (fetches x) →
  id review ∈ reviewIds (reports (world (interp (answer o) (body prompt x c) w))).
Proof.
  intros Hin. rewrite body_split. unfold andThen. rewrite venue_seen.
  cbn [world]. apply processReviews_ingest; assumption.
Qed.

Lemma venue_returns prompt x c (w : World) :
  ∃ c', outcome (interp (answer o) (body prompt x c) w) = Returned c'.
Proof.
  rewrite body_split. unfold andThen. rewrite venue_seen. cbn [outcome].
  apply processReviews_returns.
Qed.

Lemma venue_duplicates prompt x c (w : World) :
  (∀ review, review ∈ seen o (fetches x) → id review ∈ reviewIds (reports w)) →
  let r := interp (answer o) (body prompt x c) w in
  Forall quiet (trace r) ∧
  reports (world r) = reports w ∧
  ∃ c', outcome r = Returned c' ∧ onlySkipped c c'.
Proof.
  intros Hall r. subst r. rewrite body_split. unfold andThen. rewrite venue_seen.
  cbn [outcome world trace].
  destruct (upstream_run o (fetches x) (fetches_upstream x) w blank)
    as (_ & Hreports & Hquiet).
  destruct (processReviews_duplicates o cfg JSON_parse reads_served prompt (venueName x)
              (seen o (fetches x)) c (world (interp (answer o) (fetches x) w)))
    as (Hquiet' & Hreports' & c' & Hout & Hskip).
  { intros review Hin. rewrite Hreports. apply Hall, Hin. }
  split; [apply Forall_app; split; assumption |].
  split; [rewrite Hreports', Hreports; reflexivity |].
  exists c'. auto.
Qed.

Lemma cohort_ingests prompt xs c (w : World) x review :
  x ∈ xs → review ∈ seen o (fetches x) →
  id review ∈ reviewIds (reports (world (interp (answer o)
                                           (forEach xs (body prompt) c) w))).
Proof.
  revert c w. induction xs as [| y ys IH]; intros c w Hx Hreview.
  - apply elem_of_nil in Hx. contradiction.
  - cbn [forEach]. unfold_prog.
    destruct (venue_returns prompt y c w) as [c1 Hc1].
    destruct (interp_bind_returned (answer o) _
                (fun c' => forEach ys (body prompt) c') w c1 Hc1) as (_ & -> & _).
    apply elem_of_cons in Hx as [-> | Hx].
    + apply ids_grow, venue_ingests, Hreview.
    + apply (IH c1 _ Hx Hreview).
Qed.

Lemma cohort_duplicates prompt xs c (w : World) :
  (∀ x review, x ∈ xs → review ∈ seen o (fetches x) →
               id review ∈ reviewIds (reports w)) →
  let r := interp (answer o) (forEach xs (body prompt) c) w in
  Forall quiet (trace r) ∧
  reports (world r) = reports w ∧
  ∃ c', outcome r = Returned c' ∧ onlySkipped c c'.
Proof.
  revert c w. induction xs as [| y ys IH]; intros c w Hall.
  - cbn. repeat split; [constructor |].
    exists c. split; [reflexivity | apply onlySkipped_refl].
  - cbn [forEach]. unfold_prog.
    destruct (venue_duplicates prompt y c w) as (Hquiet & Hreports & c1 & Hc1 & Hskip).
    { intros review Hin. apply (Hall y review); [left | exact Hin]. }
    destruct (interp_bind_returned (answer o) _
                (fun c' => forEach ys (body prompt) c') w c1 Hc1) as (-> & -> & ->).
    destruct (IH c1 (world (interp (answer o) (body prompt y c) w)))
      as (Hquiet' & Hreports' & c' & Hout & Hskip').
    { intros x review Hx Hin. rewrite Hreports. apply (Hall x review); [right |]; assumption. }
    split; [apply Forall_app; split; assumption |].
    split; [rewrite Hreports', Hreports; reflexivity |].
    exists c'. split; [exact Hout |].
    eapply onlySkipped_trans; eassumption.
Qed.

End CohortRerun.

Section RunRerun.

Variable o : Outside.
Variable cfg : Config.
Variable JSON_parse : string -> option json.
Variable Date_parse : string -> option Z.
Variable setDateBack : Z -> Z -> Z.
Variable createClient : string -> string -> bool.
Hypothesis reads_served : ∀ n, readFails o n = false.
Hypothesis inserts_served : ∀ n, insertFails o n = false.

Lemma reviewsOfHotel_returns {W} (h : Handler W) hotel :
  returns h (reviewsOfHotel cfg Date_parse setDateBack hotel).
Proof.
  unfold reviewsOfHotel. destruct (google_place_id hotel) as [[| a s] |];
    try apply returns_ret.
  unfold reviewsOfPlace. unfold_prog. cbn [bind].
  apply returns_vis. intros _.
  apply returns_bind; [apply searchHotelTripAdvisor_returns |].
  intros [location |].
  - cbn [bind]. apply returns_vis. intros _.
    apply returns_bind; [apply fetchTripAdvisorReviews_returns |].
    intros. apply returns_ret.
  - apply returns_bind; [apply fetchGoogleReviewsAll_returns |].
    intros [| x xs]; [apply returns_ret | apply filterReviews_returns].
Qed.

Lemma reviewsOfTopHotel_returns {W} (h : Handler W) hotel :
  returns h (reviewsOfTopHotel cfg Date_parse setDateBack hotel).
Proof.
  unfold reviewsOfTopHotel. unfold_prog. cbn [bind].
  apply returns_vis. intros _.
  apply returns_bind; [apply fetchTripAdvisorReviews_returns |].
  intros. apply returns_ret.
Qed.

(** The prompt is the same in every world. *)
Lemma prompt_run (w : World) :
  outcome (interp (answer o) loadSystemPrompt w)
    = outcome (interp (answer o) loadSystemPrompt blank) ∧
  reports (world (interp (answer o) loadSystemPrompt w)) = reports w ∧
  Forall quiet (trace (interp (answer o) loadSystemPrompt w)).
Proof. apply upstream_run, loadSystemPrompt_upstream. Qed.

(** A run whose events are all quiet leaves the table as it was. *)
Lemma quiet_reports {B} (p : Prog B) (w : World) :
  Forall quiet (trace (interp (answer o) p w)) →
  reports (world (interp (answer o) p w)) = reports w.
Proof.
  intros Hquiet. rewrite run_reports.
  assert (Hnone : acceptedInserts (trace (interp (answer o) p w)) = []).
  { induction Hquiet as [| ev t [_ Hev] _ IH]; [reflexivity |].
    rewrite acceptedInserts_cons, IH, app_nil_r.
    unfold acceptedInserts. simpl.
    destruct (acceptedInsert ev) as [ins |] eqn:Hacc; [| reflexivity].
    apply acceptedInsert_is_insert in Hacc. unfold isInsert in Hev.
    rewrite Hacc in Hev. discriminate Hev. }
  rewrite Hnone. apply app_nil_r.
Qed.

(** The shape of a run of [ingest-hotel-data.ts]. *)
Lemma runIngestion_shape cmd (w : World) :
  missingKeys cfg = [] →
  let r := interp (answer o)
             (runIngestion cfg JSON_parse Date_parse setDateBack createClient cmd) w in
  match outcome (interp (answer o) loadSystemPrompt blank),
        createClient (SUPABASE_URL cfg) (SUPABASE_SERVICE_KEY cfg),
        selectedCohort o cfg cmd w with
  | Returned prompt, true, Returned (hotel :: rest) =>
      ∃ before w',
        Forall quiet before ∧ reports w' = reports w ∧
        let rc := interp (answer o)
                    (processCohort cfg JSON_parse Date_parse setDateBack prompt (hotel :: rest))
                    w' in
        outcome r = outcome rc ∧ world r = world rc ∧ trace r = before ++ trace rc
  | _, _, _ =>
      Forall quiet (trace r) ∧ reports (world r) = reports w ∧
      ∃ code, outcome r = Exited code
  end.
Proof.
  intros Hkeys r. subst r.
  unfold runIngestion, createSupabaseClient. rewrite Hkeys. unfold_prog.
  rewrite interp_bind. unfold andThen.
  destruct (prompt_run w) as (Hprompt & Hreports & Hquiet).
  rewrite Hprompt.
  destruct (outcome (interp (answer o) loadSystemPrompt blank)) as [prompt | code].
  2:{ cbn [outcome world trace]. eauto. }
  destruct (createClient (SUPABASE_URL cfg) (SUPABASE_SERVICE_KEY cfg)).
  2:{ cbn [bind interp outcome world trace]. rewrite app_nil_r. eauto. }
  cbn [bind]. rewrite interp_bind. unfold andThen, selectedCohort.
  pose proof (selectCohort_quiet (answer o) cfg cmd
                (world (interp (answer o) loadSystemPrompt w))) as Hquiet'.
  pose proof (quiet_reports _ _ Hquiet') as Hreports'.
  destruct (outcome (interp (answer o) (selectCohort cfg cmd)
                       (world (interp (answer o) loadSystemPrompt w))))
    as [[| hotel rest] | code]; cbn [interp outcome world trace].
  - split; [| split; [congruence | eauto]].
    rewrite app_nil_r. apply Forall_app. split; assumption.
  - exists (trace (interp (answer o) loadSystemPrompt w)
              ++ trace (interp (answer o) (selectCohort cfg cmd)
                          (world (interp (answer o) loadSystemPrompt w)))),
           (world (interp (answer o) (selectCohort cfg cmd)
                     (world (interp (answer o) loadSystemPrompt w)))).
    split; [apply Forall_app; split; assumption |].
    split; [congruence |].
    cbn zeta. split; [reflexivity |]. split; [reflexivity |].
    rewrite <- app_assoc. reflexivity.
  - split; [| split; [congruence | eauto]].
    apply Forall_app. split; assumption.
Qed.

(** In the default mode the cohort is read off the table of hotels. *)
Lemma selectedCohort_default cmd (w : World) :
  defaultMode cmd →
  selectedCohort o cfg cmd w = Returned (cohortOf cfg (hotels w)).
Proof.
  intros [Hunprocessed Hrandom]. unfold selectedCohort, selectCohort.
  rewrite Hunprocessed, Hrandom. unfold fetchHotelsFromDatabase. unfold_prog.
  cbn [bind interp outcome answer fst snd]. rewrite reads_served.
  cbn [error data answered]. rewrite (run_hotels o loadSystemPrompt w).
  unfold cohortOf. destruct (take _ _); reflexivity.
Qed.

Lemma runIngestionTop_shape (w : World) :
  missingKeys cfg = [] →
  let r := interp (answer o)
             (runIngestionTop cfg JSON_parse Date_parse setDateBack createClient) w in
  match outcome (interp (answer o) loadSystemPrompt blank),
        createClient (SUPABASE_URL cfg) (SUPABASE_SERVICE_KEY cfg) with
  | Returned prompt, true =>
      ∃ before w',
        Forall quiet before ∧ reports w' = reports w ∧
        let rc := interp (answer o)
                    (forEach TOP_HOTELS
                       (processTopHotel cfg JSON_parse Date_parse setDateBack prompt)
                       noCounters) w' in
        outcome r = outcome rc ∧ world r = world rc ∧ trace r = before ++ trace rc
  | _, _ =>
      Forall quiet (trace r) ∧ reports (world r) = reports w ∧
      ∃ code, outcome r = Exited code
  end.
Proof.
  intros Hkeys r. subst r.
  unfold runIngestionTop, createSupabaseClient. rewrite Hkeys. unfold_prog.
  rewrite interp_bind. unfold andThen.
  destruct (prompt_run w) as (Hprompt & Hreports & Hquiet).
  rewrite Hprompt.
  destruct (outcome (interp (answer o) loadSystemPrompt blank)) as [prompt | code].
  2:{ cbn [outcome world trace]. eauto. }
  destruct (createClient (SUPABASE_URL cfg) (SUPABASE_SERVICE_KEY cfg)).
  2:{ cbn [bind interp outcome world trace]. rewrite app_nil_r. eauto. }
  cbn [bind]. eexists _, _. split; [exact Hquiet |]. split; [exact Hreports |].
  cbn zeta. auto.
Qed.

(** A second run of [ingest-hotel-data.ts] on the cohort of the first,
    with a clock that is not read or stands still, makes no model call
    and no insert. *)
Lemma runIngestion_again cmd (w : World) :
  (MAX_REVIEW_AGE_DAYS cfg ≠ 0%Z → steady o) →
  let first := interp (answer o)
                 (runIngestion cfg JSON_parse Date_parse setDateBack createClient cmd) w in
  let second := interp (answer o)
                  (runIngestion cfg JSON_parse Date_parse setDateBack createClient cmd)
                  (world first) in
  selectedCohort o cfg cmd (world first) = selectedCohort o cfg cmd w →
  Forall quiet (trace second).
Proof.
  intros Hfrozen first second Hsame.
  destruct (missingKeys cfg) as [| key keys] eqn:Hkeys.
  2:{ subst first second. unfold runIngestion. rewrite Hkeys. constructor. }
  pose proof (runIngestion_shape cmd w Hkeys) as Hfirst.
  pose proof (runIngestion_shape cmd (world first) Hkeys) as Hsecond.
  rewrite Hsame in Hsecond.
  fold first in Hfirst. fold second in Hsecond.
  destruct (outcome (interp (answer o) loadSystemPrompt blank)) as [prompt | code];
    [| apply Hsecond].
  destruct (createClient (SUPABASE_URL cfg) (SUPABASE_SERVICE_KEY cfg));
    [| apply Hsecond].
  destruct (selectedCohort o cfg cmd w) as [[| hotel rest] | code];
    [apply Hsecond | | apply Hsecond].
  destruct Hfirst as (before1 & w1 & _ & _ & _ & Hworld1 & _).
  destruct Hsecond as (before2 & w2 & Hquiet2 & Hreports2 & _ & _ & Htrace2).
  destruct (cohort_duplicates o cfg JSON_parse reads_served
              (processHotel cfg JSON_parse Date_parse setDateBack)
              (reviewsOfHotel cfg Date_parse setDateBack) name
              (fun prompt x c w => processHotel_split (answer o) cfg JSON_parse
                                     Date_parse setDateBack prompt x c w)
              (reviewsOfHotel_upstream cfg Date_parse setDateBack (steady o) Hfrozen)
              (reviewsOfHotel_returns (answer o))
              prompt (hotel :: rest) noCounters w2)
    as (Hquiet & _).
  { intros x review Hx Hseen. rewrite Hreports2, Hworld1.
    apply (cohort_ingests o cfg JSON_parse reads_served inserts_served
             (processHotel cfg JSON_parse Date_parse setDateBack)
             (reviewsOfHotel cfg Date_parse setDateBack) name
             (fun prompt x c w => processHotel_split (answer o) cfg JSON_parse
                                    Date_parse setDateBack prompt x c w)
             (reviewsOfHotel_upstream cfg Date_parse setDateBack (steady o) Hfrozen)
             (reviewsOfHotel_returns (answer o))
             prompt (hotel :: rest) noCounters w1 x review Hx Hseen). }
  unfold processCohort in Htrace2.
  rewrite Htrace2. apply Forall_app. split; assumption.
Qed.

(** The same for [ingest-top-hotels.ts], whose cohort is fixed. *)
Lemma runIngestionTop_again (w : World) :
  (MAX_REVIEW_AGE_DAYS cfg ≠ 0%Z → steady o) →
  let first := interp (answer o)
                 (runIngestionTop cfg JSON_parse Date_parse setDateBack createClient) w in
  let second := interp (answer o)
                  (runIngestionTop cfg JSON_parse Date_parse setDateBack createClient)
                  (world first) in
  Forall quiet (trace second).
Proof.
  intros Hfrozen first second.
  destruct (missingKeys cfg) as [| key keys] eqn:Hkeys.
  2:{ subst first second. unfold runIngestionTop. rewrite Hkeys. constructor. }
  pose proof (runIngestionTop_shape w Hkeys) as Hfirst.
  pose proof (runIngestionTop_shape (world first) Hkeys) as Hsecond.
  fold first in Hfirst. fold second in Hsecond.
  destruct (outcome (interp (answer o) loadSystemPrompt blank)) as [prompt | code];
    [| apply Hsecond].
  destruct (createClient (SUPABASE_URL cfg) (SUPABASE_SERVICE_KEY cfg));
    [| apply Hsecond].
  destruct Hfirst as (before1 & w1 & _ & _ & _ & Hworld1 & _).
  destruct Hsecond as (before2 & w2 & Hquiet2 & Hreports2 & _ & _ & Htrace2).
  destruct (cohort_duplicates o cfg JSON_parse reads_served
              (processTopHotel cfg JSON_parse Date_parse setDateBack)
              (reviewsOfTopHotel cfg Date_parse setDateBack) top_name
              (fun prompt x c w => processTopHotel_split (answer o) cfg JSON_parse
                                     Date_parse setDateBack prompt x c w)
              (reviewsOfTopHotel_upstream cfg Date_parse setDateBack (steady o) Hfrozen)
              (reviewsOfTopHotel_returns (answer o))
              prompt TOP_HOTELS noCounters w2)
    as (Hquiet & _).
  { intros x review Hx Hseen. rewrite Hreports2, Hworld1.
    apply (cohort_ingests o cfg JSON_parse reads_served inserts_served
             (processTopHotel cfg JSON_parse Date_parse setDateBack)
             (reviewsOfTopHotel cfg Date_parse setDateBack) top_name
             (fun prompt x c w => processTopHotel_split (answer o) cfg JSON_parse
                                    Date_parse setDateBack prompt x c w)
             (reviewsOfTopHotel_upstream cfg Date_parse setDateBack (steady o) Hfrozen)
             (reviewsOfTopHotel_returns (answer o))
             prompt TOP_HOTELS noCounters w1 x review Hx Hseen). }
  rewrite Htrace2. apply Forall_app. split; assumption.
Qed.

End RunRerun.

(** ** The cohort of unprocessed venues *)

Section CohortFacts.

Context {W : Type} (h : Handler W).

Lemma swap_elem {A} (l : list A) (i j : nat) (x : A) : x ∈ swap l i j → x ∈ l.
Proof.
  unfold swap.
  destruct (l !! i) as [a |] eqn:Hi; [| auto].
  destruct (l !! j) as [b |] eqn:Hj; [| auto].
  intros Hin. apply list_elem_of_lookup in Hin as [k Hk].
  apply list_lookup_insert_Some in Hk as [(_ & <- & _) | (_ & Hk)].
  { apply list_elem_of_lookup. eauto. }
  apply list_lookup_insert_Some in Hk as [(_ & <- & _) | (_ & Hk)].
  { apply list_elem_of_lookup. eauto. }
  apply list_elem_of_lookup. eauto.
Qed.

(** The shuffle hands back elements of its input only. *)
Lemma shuffleFrom_elem {A} (i : nat) (l l' : list A) (w : W) :
  outcome (interp h (shuffleFrom i l) w) = Returned l' → ∀ x, x ∈ l' → x ∈ l.
Proof.
  revert l w. induction i as [| i IH]; intros l w.
  - cbn. intros [= <-]. auto.
  - cbn [shuffleFrom]. unfold_prog. cbn [bind interp outcome].
    intros Hout x Hx. eapply swap_elem, IH; eassumption.
Qed.

Lemma sliceMin_elem {A} (count : option Z) (l : list A) (x : A) :
  x ∈ sliceMin count l → x ∈ l.
Proof.
  unfold sliceMin. destruct count as [c |]; [| intros Hin; apply elem_of_nil in Hin; contradiction].
  destruct (_ <? _)%Z; intros Hin;
    (eapply elem_of_sublist; [exact Hin | apply sublist_take]).
Qed.

Lemma processedIds_elem (rows : option (list (option string))) (x : string) :
  x ∈ processedIds rows ↔ Some x ∈ default [] rows ∧ x ≠ EmptyString.
Proof.
  unfold processedIds. rewrite elem_of_list_to_set, list_elem_of_omap. split.
  - intros (v & Hin & Hv). destruct v as [[| c s] |]; try discriminate.
    injection Hv as <-. split; [exact Hin | discriminate].
  - intros [Hin Hne]. exists (Some x). split; [exact Hin |].
    destruct x; [contradiction | reflexivity].
Qed.

(** What the selection of unprocessed venues does ensure: a selected
    venue is a row of the table of hotels whose id is not among the hotel
    ids read from the table of reports. *)
Lemma fetchUnprocessedHotels_excludes_linked (count : option Z) (w : W) selected :
  let processed := h _ SelectReportHotelIds w in
  let allHotels := h _ SelectHotelRecords processed.2 in
  outcome (interp h (fetchUnprocessedHotels count) w) = Returned selected →
  ∀ d, d ∈ selected →
    ∃ record,
      d = asDatabaseHotel record ∧
      record ∈ default [] (data allHotels.1) ∧
      ∀ x, Some x ∈ default [] (data processed.1) → x ≠ EmptyString → hotel_id record ≠ x.
Proof.
  intros processed allHotels. unfold fetchUnprocessedHotels. unfold_prog.
  cbn [bind interp outcome]. fold processed.
  destruct (error processed.1).
  { cbn. intros [= <-] d Hd. apply elem_of_nil in Hd. contradiction. }
  cbn [bind interp outcome]. fold allHotels.
  destruct (error allHotels.1).
  { cbn. intros [= <-] d Hd. apply elem_of_nil in Hd. contradiction. }
  destruct (filter _ _) as [| first rest] eqn:Hfilter.
  { cbn. intros [= <-] d Hd. apply elem_of_nil in Hd. contradiction. }
  rewrite <- Hfilter. clear Hfilter.
  rewrite interp_bind. unfold andThen, shuffle.
  destruct (outcome (interp h (shuffleFrom _ _) _)) as [shuffled |] eqn:Hshuffle;
    [| discriminate].
  cbn. intros [= <-] d Hd.
  apply list_elem_of_fmap in Hd as (record & -> & Hrecord).
  apply sliceMin_elem in Hrecord.
  eapply shuffleFrom_elem in Hrecord; [| exact Hshuffle].
  apply list_elem_of_filter in Hrecord as [Hnot Hin].
  exists record. split; [reflexivity |]. split; [exact Hin |].
  intros x Hx Hne Heq. apply Hnot. apply processedIds_elem. subst x. auto.
Qed.

End CohortFacts.

(** C8, evaluated on a failing input.  The store holds one venue and no
    report.  A first run of the pipeline in the default mode writes a
    report for that venue.  A selection of unprocessed venues made
    afterwards still returns the venue: the row that the pipeline wrote
    names the venue but carries no hotel id, and the selection subtracts
    hotel ids only. *)
Theorem C8_unprocessed_mode_selects_venue_with_pipeline_report :
  let first := Sample.run Sample.outside Sample.allHotels Sample.oneHotel in
  hotels (world first) = [Sample.grand] ∧
  (∃ row, reports (world first) = [row] ∧
          row_hotel_name row = hotel_record_name Sample.grand ∧
          row_source row = system ∧
          row_hotel_id row = None) ∧
  outcome (interp (answer Sample.outside)
             (selectCohort (CONFIG Sample.env) Sample.unprocessedOnly) (world first))
  = Returned [asDatabaseHotel Sample.grand].
Proof.
  cbn zeta. split; [vm_compute; reflexivity |]. split.
  - eexists. split; [vm_compute; reflexivity |]. repeat split.
  - vm_compute. reflexivity.
Qed.

(** ** Checks of the embedding on sample inputs *)

Example trim_removes_surrounding_space :
  Js.trim (Js.newline +:+ "  Pool " +:+ Js.newline) = "Pool"%string.
Proof. reflexivity. Qed.

Example validate_mixed_case : validateIssueKey "ELEVATOR" = "elevator"%string.
Proof. vm_compute. reflexivity. Qed.

Example validate_unknown : validateIssueKey "parking" = "other"%string.
Proof. vm_compute. reflexivity. Qed.

Example validate_undefined : validateIssueKeyDyn None = Normal "other"%string.
Proof. reflexivity. Qed.

Example validate_number : validateIssueKeyDyn (Some (JNum 5)) = Thrown.
Proof. reflexivity. Qed.

Example matchObject_is_greedy :
  Re.matchObject "Sure: {a} and {b} done" = Some "{a} and {b}"%string.
Proof. vm_compute. reflexivity. Qed.

Example matchObject_needs_closing_brace : Re.matchObject "Sure: {a and b" = None.
Proof. vm_compute. reflexivity. Qed.

Example matchSystemPrompt_sample :
  Re.matchSystemPrompt Sample.promptText
  = Some (Js.newline +:+ "You are a hotel safety analyst." +:+ Js.newline).
Proof. vm_compute. reflexivity. Qed.

Example googleReviewId_sample :
  googleReviewId "places/place-1/reviews/r2" = "google_place-1_r2"%string.
Proof. vm_compute. reflexivity. Qed.

Example sliceMin_samples :
  sliceMin (Some 2%Z) [1; 2; 3] = [1; 2] ∧
  sliceMin (Some 20%Z) [1; 2; 3] = [1; 2; 3] ∧
  sliceMin (Some (-1)%Z) [1; 2; 3] = [1; 2] ∧
  sliceMin None [1; 2; 3] = [].
Proof. repeat split. Qed.

Example swap_sample : swap [1; 2; 3] 2 0 = [3; 2; 1].
Proof. reflexivity. Qed.

Example missingKeys_sample :
  missingKeys (CONFIG Sample.env) = [] ∧
  missingKeys (CONFIG {| env_GOOGLE_MAPS_API_KEY := None;
                         env_TRIPADVISOR_API_KEY := Some "key"%string;
                         env_DEEPSEEK_API_KEY := Some EmptyString;
                         env_DEEPSEEK_API_URL := None;
                         env_NEXT_PUBLIC_SUPABASE_URL := Some "https://db.example"%string;
                         env_SUPABASE_SERVICE_ROLE_KEY := Some "key"%string |})
  = [ "GOOGLE_MAPS_API_KEY"; "DEEPSEEK_API_KEY" ]%string.
Proof. split; vm_compute; reflexivity. Qed.

(** Scenario A of the specification on the sample data: one review
    rated 3, inside the age window and not seen before, gives one record
    whose severity is the one of the model reply. *)
Example first_run_sample :
  let r := Sample.run Sample.outside Sample.allHotels Sample.oneHotel in
  outcome r = Returned {| totalReviews := 1; skippedReviews := 0; successfulReports := 1 |} ∧
  (row_severity <$> reports (world r)) = [critical] ∧
  (row_external_review_id <$> reports (world r)) = [Some "google_place-1_r2"%string] ∧
  (row_created_at <$> reports (world r)) = ["2025-06-15T00:00:00Z"%string].
Proof. cbn zeta. repeat split; vm_compute; reflexivity. Qed.

(** Scenario B: the second run meets the same review and skips it. *)
Example second_run_sample :
  let first := Sample.run Sample.outside Sample.allHotels Sample.oneHotel in
  let r := Sample.run Sample.outside Sample.allHotels (world first) in
  outcome r = Returned {| totalReviews := 1; skippedReviews := 1; successfulReports := 0 |} ∧
  length (reports (world r)) = 1 ∧
  insertsOf (trace r) = [].
Proof. cbn zeta. repeat split; vm_compute; reflexivity. Qed.

(** The filter on the sample reviews: with the 30 days of
    [ingest-hotel-data.ts] the review of January is too old on 1 July,
    with the 0 days of [ingest-top-hotels.ts] it is kept. *)
Example filter_sample :
  let reviews := [Sample.oldReview; Sample.recentReview; Sample.praise] in
  outcome (interp (answer Sample.outside)
             (filterReviews (CONFIG Sample.env) Sample.parseDate Sample.daysBack
                g_rating g_publishTime reviews) Sample.oneHotel)
  = Returned [Sample.recentReview] ∧
  outcome (interp (answer Sample.outside)
             (filterReviews (CONFIG_top Sample.env) Sample.parseDate Sample.daysBack
                g_rating g_publishTime reviews) Sample.oneHotel)
  = Returned [Sample.oldReview; Sample.recentReview].
Proof. cbn zeta. split; vm_compute; reflexivity. Qed.

(** A draw below the probability of anonymity gives an anonymous record
    without reporter name. *)
Example anonymous_sample :
  let o := {| searchAnswer := searchAnswer Sample.outside;
              reviewsAnswer := reviewsAnswer Sample.outside;
              detailsAnswer := detailsAnswer Sample.outside;
              chatAnswer := chatAnswer Sample.outside;
              clock := clock Sample.outside;
              randomAt := fun _ => Sample.tenth;
              promptFileExists := true;
              promptFile := Some Sample.promptText;
              readFails := fun _ => false;
              insertFails := fun _ => false |} in
  let r := Sample.run o Sample.allHotels Sample.oneHotel in
  (row_is_anonymous <$> reports (world r)) = [true] ∧
  (row_system_reporter_name <$> reports (world r)) = [None].
Proof. cbn zeta. split; vm_compute; reflexivity. Qed.

(** ** Properties of the traces that sequencing preserves *)

Section TraceFacts.

Context {W : Type} (h : Handler W).
Variable P : list Event -> Prop.
Hypothesis P_nil : P [].
Hypothesis P_app : ∀ t t', P t → P t' → P (t ++ t').

Lemma traces_ret {A} (a : A) : traces h P (Ret a).
Proof. intros w. exact P_nil. Qed.

Lemma traces_exit {A} code : traces h P (Exit code : Prog A).
Proof. intros w. exact P_nil. Qed.

Lemma traces_bind {A B} (p : Prog A) (f : A -> Prog B) :
  traces h P p → (∀ a, traces h P (f a)) → traces h P (bind p f).
Proof.
  intros Hp Hf w. rewrite interp_bind. unfold andThen.
  destruct (outcome (interp h p w)); cbn [trace]; [| apply Hp].
  apply P_app; [apply Hp | apply Hf].
Qed.

Lemma traces_vis {A X} (c : Call X) (k : X -> Prog A) :
  (∀ x, P [Answered c x]) → (∀ x, traces h P (k x)) → traces h P (Vis c k).
Proof.
  intros Hc Hk w. cbn [interp trace].
  apply (P_app [_]); [apply Hc | apply Hk].
Qed.

Lemma traces_forEach {A S} (xs : list A) (body : A -> S -> Prog S) (s : S) :
  (∀ x s', traces h P (body x s')) → traces h P (forEach xs body s).
Proof.
  intros Hbody. revert s. induction xs as [| x xs IH]; intros s; cbn [forEach].
  - apply traces_ret.
  - apply traces_bind; [apply Hbody | intros; apply IH].
Qed.

Lemma traces_filterM {A} (p : A -> Prog bool) (xs : list A) :
  (∀ x, traces h P (p x)) → traces h P (filterM p xs).
Proof.
  intros Hp. induction xs as [| x xs IH]; cbn [filterM].
  - apply traces_ret.
  - apply traces_bind; [apply Hp |]. intros keep.
    apply traces_bind; [apply IH |]. intros rest. apply traces_ret.
Qed.

Lemma traces_always {A} (Q : Event -> Prop) (p : Prog A) :
  (∀ t, Forall Q t → P t) → always h Q p → traces h P p.
Proof. intros HQ Hp w. apply HQ, Hp. Qed.

Lemma traces_createSupabaseClient cfg createClient :
  traces h P (createSupabaseClient cfg createClient).
Proof.
  unfold createSupabaseClient.
  destruct (createClient _ _); [apply traces_ret | apply traces_exit].
Qed.

End TraceFacts.

(** ** The call protocol of the scripts *)

Section ProtocolFacts.

Context {W : Type} (h : Handler W).
Variable cfg : Config.
Variable JSON_parse : string -> option json.
Variable Date_parse : string -> option Z.
Variable setDateBack : Z -> Z -> Z.
Variable createClient : string -> string -> bool.

Lemma protocol_app t t' : (protocol cfg JSON_parse) t → (protocol cfg JSON_parse) t' → (protocol cfg JSON_parse) (t ++ t').
Proof.
  intros Ht Ht'. induction Ht; cbn [app]; try (constructor; assumption).
  exact Ht'.
Qed.

Lemma protocol_all_plain t : Forall plain t → (protocol cfg JSON_parse) t.
Proof. induction 1; constructor; assumption. Qed.

Ltac plain_step :=
  first
    [ apply always_ret
    | apply always_exit
    | apply always_vis; [intros; repeat split | intros]
    | apply always_filterM; intros
    | apply always_bind; [| intros] ].

Lemma isReviewWithinDateLimit_plain publishDate :
  always h plain (isReviewWithinDateLimit cfg Date_parse setDateBack publishDate).
Proof.
  unfold isReviewWithinDateLimit. destruct (_ =? _)%Z; unfold_prog; cbn [bind];
    repeat plain_step.
Qed.

Lemma filterReviews_plain {R} (rate : R -> Z) (date : R -> string) reviews :
  always h plain (filterReviews cfg Date_parse setDateBack rate date reviews).
Proof. unfold filterReviews. plain_step. apply isReviewWithinDateLimit_plain. Qed.

Lemma loadSystemPrompt_plain : always h plain loadSystemPrompt.
Proof.
  unfold loadSystemPrompt. unfold_prog. cbn [bind].
  plain_step. destruct x; cbn; [| plain_step].
  plain_step. destruct x as [content |]; [| plain_step].
  destruct (Re.matchSystemPrompt content); plain_step.
Qed.

Lemma shuffleFrom_plain {A} i (l : list A) : always h plain (shuffleFrom i l).
Proof.
  revert l. induction i as [| i IH]; intros l; cbn [shuffleFrom]; [apply always_ret |].
  unfold_prog. cbn [bind]. plain_step. apply IH.
Qed.

Lemma selectCohort_plain cmd : always h plain (selectCohort cfg cmd).
Proof.
  unfold selectCohort, fetchUnprocessedHotels, fetchRandomHotels,
    fetchHotelsFromDatabase, shuffle.
  destruct (useUnprocessedOnly cmd); [| destruct (useRandomSampling cmd)];
    unfold_prog; cbn [bind].
  - plain_step. destruct (error x); [apply always_ret |].
    cbn [bind]. plain_step. destruct (error x0); [apply always_ret |].
    destruct (filter _ _); [apply always_ret |].
    apply always_bind; [apply shuffleFrom_plain | intros; apply always_ret].
  - plain_step. destruct (error x); [apply always_ret |].
    destruct (data x) as [[| y rows] |]; try apply always_ret.
    apply always_bind; [apply shuffleFrom_plain | intros; apply always_ret].
  - plain_step. apply always_ret.
Qed.

Lemma processReview_protocol systemPrompt hotelName review c :
  traces h (protocol cfg JSON_parse) (processReview cfg JSON_parse systemPrompt hotelName review c).
Proof.
  intros w.
  unfold processReview, checkExistingReport, shouldBeAnonymous,
    transformReviewToSafetyInsight, upsertReport.
  unfold_prog. cbn [bind interp trace outcome world].
  destruct (h _ (SelectReportByReviewId (id review)) w).1 as [[| row rows] |] eqn:Hfound;
    cbn [bind interp trace outcome world].
  - apply protocol_ingest; [auto | constructor].
  - apply protocol_skip. constructor.
  - apply protocol_ingest; [auto | constructor].
Qed.

Lemma processReviews_protocol systemPrompt hotelName reviews c :
  traces h (protocol cfg JSON_parse) (processReviews cfg JSON_parse systemPrompt hotelName reviews c).
Proof.
  apply traces_forEach; [constructor | apply protocol_app |].
  intros. apply processReview_protocol.
Qed.

Lemma filterReviews_protocol {R} (rate : R -> Z) (date : R -> string) reviews :
  traces h (protocol cfg JSON_parse) (filterReviews cfg Date_parse setDateBack rate date reviews).
Proof.
  eapply traces_always; [apply protocol_all_plain | apply filterReviews_plain].
Qed.

Lemma fetchTripAdvisorReviews_paced locationId u {A} (k : list TripAdvisorReview -> Prog A) :
  (∀ reviews, traces h (protocol cfg JSON_parse) (k reviews)) →
  ∀ w,
    (protocol cfg JSON_parse) (Answered (Sleep (API_DELAY_MS cfg)) u
              :: trace (interp h (bind (fetchTripAdvisorReviews cfg Date_parse setDateBack
                                           locationId) k) w)).
Proof.
  intros Hk w. unfold fetchTripAdvisorReviews. unfold_prog.
  cbn [bind interp trace].
  apply protocol_paced; [reflexivity | reflexivity |].
  destruct (h _ (TripAdvisorReviews locationId) w).1 as [| status body]; cbn [bind];
    [apply Hk |].
  destruct (negb (ok status)); cbn [bind]; [apply Hk |].
  destruct body as [[reviews |] |]; cbn [bind]; try apply Hk.
  fold (bind (A := list TripAdvisorReview) (B := A)).
  rewrite interp_bind_assoc.
  apply traces_bind; [apply protocol_app | |].
  - apply filterReviews_protocol.
  - intros kept. cbn [bind]. apply Hk.
Qed.

Lemma processPlace_protocol systemPrompt hotel placeId c :
  traces h (protocol cfg JSON_parse)
    (processPlace cfg JSON_parse Date_parse setDateBack systemPrompt hotel placeId c).
Proof.
  intros w. unfold processPlace, searchHotelTripAdvisor. unfold_prog.
  cbn [bind interp trace].
  apply protocol_paced; [reflexivity | reflexivity |].
  match goal with |- context [match ?found with Some _ => _ | None => _ end] =>
    destruct found as [location |] end.
  - cbn [bind interp trace].
    apply fetchTripAdvisorReviews_paced.
    intros [| review reviews]; [apply traces_ret; constructor |].
    apply processReviews_protocol.
  - unfold fetchGoogleReviewsAll. unfold_prog. cbn [bind interp trace].
    apply protocol_plain; [repeat split |].
    match goal with |- context [match ?found with [] => _ | _ :: _ => _ end] =>
      destruct found as [| review reviews] end.
    + constructor.
    + apply traces_bind; [apply protocol_app | apply filterReviews_protocol |].
      intros kept. apply processReviews_protocol.
Qed.

Lemma processHotel_protocol systemPrompt hotel c :
  traces h (protocol cfg JSON_parse)
    (processHotel cfg JSON_parse Date_parse setDateBack systemPrompt hotel c).
Proof.
  unfold processHotel. destruct (google_place_id hotel) as [[| a s] |];
    try (apply traces_ret; constructor).
  apply processPlace_protocol.
Qed.

Lemma processTopHotel_protocol systemPrompt hotel c :
  traces h (protocol cfg JSON_parse)
    (processTopHotel cfg JSON_parse Date_parse setDateBack systemPrompt hotel c).
Proof.
  intros w. unfold processTopHotel. unfold_prog. cbn [bind interp trace].
  apply fetchTripAdvisorReviews_paced.
  intros [| review reviews]; [apply traces_ret; constructor |].
  apply processReviews_protocol.
Qed.

Lemma runIngestion_protocol cmd :
  traces h (protocol cfg JSON_parse)
    (runIngestion cfg JSON_parse Date_parse setDateBack createClient cmd).
Proof.
  unfold runIngestion. destruct (missingKeys cfg); [| apply traces_exit; constructor].
  unfold_prog.
  apply traces_bind; [apply protocol_app | |].
  { eapply traces_always; [apply protocol_all_plain | apply loadSystemPrompt_plain]. }
  intros prompt. apply traces_bind; [apply protocol_app | |].
  { apply traces_createSupabaseClient. constructor. }
  intros _. apply traces_bind; [apply protocol_app | |].
  { eapply traces_always; [apply protocol_all_plain | apply selectCohort_plain]. }
  intros [| hotel rest]; [apply traces_exit; constructor |].
  apply traces_forEach; [constructor | apply protocol_app |].
  intros. apply processHotel_protocol.
Qed.

Lemma runIngestionTop_protocol :
  traces h (protocol cfg JSON_parse)
    (runIngestionTop cfg JSON_parse Date_parse setDateBack createClient).
Proof.
  unfold runIngestionTop. destruct (missingKeys cfg); [| apply traces_exit; constructor].
  unfold_prog.
  apply traces_bind; [apply protocol_app | |].
  { eapply traces_always; [apply protocol_all_plain | apply loadSystemPrompt_plain]. }
  intros prompt. apply traces_bind; [apply protocol_app | |].
  { apply traces_createSupabaseClient. constructor. }
  intros _.
  apply traces_forEach; [constructor | apply protocol_app |].
  intros. apply processTopHotel_protocol.
Qed.

End ProtocolFacts.

(** ** What the protocol gives *)

Section ProtocolUse.

Variable cfg : Config.
Variable JSON_parse : string -> option json.

Lemma plain_no_insert ev : plain ev → insertOfEvent ev = None.
Proof.
  intros (_ & Hinsert & _). unfold isInsert in Hinsert.
  destruct (insertOfEvent ev); [discriminate | reflexivity].
Qed.

Lemma throttled_no_insert ev : throttled ev = true → insertOfEvent ev = None.
Proof. destruct ev as [X c x]. destruct c; cbn; congruence. Qed.

(** The calls around an insert. *)
Lemma protocol_insert t :
  protocol cfg JSON_parse t →
  ∀ pre ev post ins,
    t = pre ++ ev :: post → insertOfEvent ev = Some ins →
    ∃ pre' systemPrompt hotelName review found draw u reply,
      pre = pre' ++
        [ Answered (SelectReportByReviewId (id review)) found;
          Answered MathRandom draw;
          Answered (Sleep (API_DELAY_MS cfg)) u;
          Answered (DeepSeekChat systemPrompt
                      (userPrompt (text review) hotelName (ins_is_anonymous ins))) reply ] ∧
      (found = None ∨ found = Some []) ∧
      ins = insertOf (reportOf cfg hotelName review (anonymousAt cfg draw)
                        (insightOfReply JSON_parse reply)).
Proof.
  induction 1 as [| ev0 t Hplain Ht IH | u X c x t Hc Hchat Ht IH
                  | x row rows t Ht IH
                  | systemPrompt hotelName review found draw u reply saved t Hfound Ht IH];
    intros pre ev post ins Hsplit Hins.
  - destruct pre; discriminate.
  - destruct pre as [| e pre]; cbn [app] in Hsplit; injection Hsplit as Hev Hrest.
    { subst ev. rewrite plain_no_insert in Hins by assumption. discriminate. }
    destruct (IH _ _ _ _ Hrest Hins)
      as (pre' & sp & hn & rv & fd & dr & u' & rp & -> & Hfd & Hrec).
    exists (e :: pre'), sp, hn, rv, fd, dr, u', rp. auto.
  - destruct pre as [| e pre]; cbn [app] in Hsplit; injection Hsplit as Hev Hrest.
    { subst ev. discriminate. }
    destruct pre as [| e' pre]; cbn [app] in Hrest; injection Hrest as Hev' Hrest.
    { subst ev. rewrite throttled_no_insert in Hins by assumption. discriminate. }
    destruct (IH _ _ _ _ Hrest Hins)
      as (pre' & sp & hn & rv & fd & dr & u' & rp & -> & Hfd & Hrec).
    exists (e :: e' :: pre'), sp, hn, rv, fd, dr, u', rp. auto.
  - destruct pre as [| e pre]; cbn [app] in Hsplit; injection Hsplit as Hev Hrest.
    { subst ev. discriminate. }
    destruct (IH _ _ _ _ Hrest Hins)
      as (pre' & sp & hn & rv & fd & dr & u' & rp & -> & Hfd & Hrec).
    exists (e :: pre'), sp, hn, rv, fd, dr, u', rp. auto.
  - destruct pre as [| e1 pre]; cbn [app] in Hsplit; injection Hsplit as Hev Hrest.
    { subst ev. discriminate. }
    destruct pre as [| e2 pre]; cbn [app] in Hrest; injection Hrest as Hev2 Hrest.
    { subst ev. discriminate. }
    destruct pre as [| e3 pre]; cbn [app] in Hrest; injection Hrest as Hev3 Hrest.
    { subst ev. discriminate. }
    destruct pre as [| e4 pre]; cbn [app] in Hrest; injection Hrest as Hev4 Hrest.
    { subst ev. discriminate. }
    destruct pre as [| e5 pre]; cbn [app] in Hrest; injection Hrest as Hev5 Hrest.
    { subst ev. cbn in Hins. injection Hins as <-.
      exists [], systemPrompt, hotelName, review, found, draw, u, reply.
      subst. auto. }
    destruct (IH _ _ _ _ Hrest Hins)
      as (pre' & sp & hn & rv & fd & dr & u' & rp & -> & Hfd & Hrec).
    exists (e1 :: e2 :: e3 :: e4 :: e5 :: pre'), sp, hn, rv, fd, dr, u', rp. auto.
Qed.

(** The pause before a call that the scripts space out. *)
Lemma protocol_pause t :
  protocol cfg JSON_parse t →
  ∀ pre ev post,
    t = pre ++ ev :: post → throttled ev = true →
    ∃ pre' u, pre = pre' ++ [Answered (Sleep (API_DELAY_MS cfg)) u].
Proof.
  induction 1 as [| ev0 t Hplain Ht IH | u X c x t Hc Hchat Ht IH
                  | x row rows t Ht IH
                  | systemPrompt hotelName review found draw u reply saved t Hfound Ht IH];
    intros pre ev post Hsplit Hev.
  - destruct pre; discriminate.
  - destruct pre as [| e pre]; cbn [app] in Hsplit; injection Hsplit as He Hrest.
    { subst ev. destruct Hplain as (_ & _ & Hno). congruence. }
    destruct (IH _ _ _ Hrest Hev) as (pre' & u' & ->).
    exists (e :: pre'), u'. reflexivity.
  - destruct pre as [| e pre]; cbn [app] in Hsplit; injection Hsplit as He Hrest.
    { subst ev. discriminate. }
    destruct pre as [| e' pre]; cbn [app] in Hrest; injection Hrest as He' Hrest.
    { exists [], u. subst. reflexivity. }
    destruct (IH _ _ _ Hrest Hev) as (pre' & u' & ->).
    exists (e :: e' :: pre'), u'. reflexivity.
  - destruct pre as [| e pre]; cbn [app] in Hsplit; injection Hsplit as He Hrest.
    { subst ev. discriminate. }
    destruct (IH _ _ _ Hrest Hev) as (pre' & u' & ->).
    exists (e :: pre'), u'. reflexivity.
  - destruct pre as [| e1 pre]; cbn [app] in Hsplit; injection Hsplit as He Hrest.
    { subst ev. discriminate. }
    destruct pre as [| e2 pre]; cbn [app] in Hrest; injection Hrest as He2 Hrest.
    { subst ev. discriminate. }
    destruct pre as [| e3 pre]; cbn [app] in Hrest; injection Hrest as He3 Hrest.
    { subst ev. discriminate. }
    destruct pre as [| e4 pre]; cbn [app] in Hrest; injection Hrest as He4 Hrest.
    { exists [e1; e2], u. subst. reflexivity. }
    destruct pre as [| e5 pre]; cbn [app] in Hrest; injection Hrest as He5 Hrest.
    { subst ev. discriminate. }
    destruct (IH _ _ _ Hrest Hev) as (pre' & u' & ->).
    exists (e1 :: e2 :: e3 :: e4 :: e5 :: pre'), u'. reflexivity.
Qed.

Lemma insightOfParsed_wellformed parsed i :
  insightOfParsed parsed = Normal i →
  issueKey i ∈ VALID_ISSUE_KEYS ∧ Dyn.truthy (Some (insight i)) = true.
Proof.
  unfold insightOfParsed.
  destruct (Dyn.get (Some parsed) "insight") as [v |]; [| discriminate]. cbn [cbind].
  destruct (Dyn.get (Some parsed) "issueKey") as [k |]; [| discriminate]. cbn [cbind].
  destruct (validateIssueKeyDyn k) as [key |] eqn:Hkey; [| discriminate]. cbn [cbind].
  destruct (Dyn.get (Some parsed) "severity") as [sev |]; [| discriminate]. cbn [cbind].
  intros [= <-]. cbn [issueKey insight]. split.
  - destruct k as [[] |]; cbn in Hkey; try discriminate; injection Hkey as <-;
      first [apply other_is_valid | apply validateIssueKey_valid].
  - unfold Dyn.or. destruct (Dyn.truthy v) eqn:Hv; [| reflexivity].
    destruct v as [j |]; [exact Hv | discriminate].
Qed.

Lemma insightOfPlainText_truthy c :
  Dyn.truthy (Some (insight (insightOfPlainText c))) = true.
Proof.
  unfold insightOfPlainText. cbn [insight]. generalize (Js.sliceTo 500 c).
  intros [| a s]; reflexivity.
Qed.

Lemma insightOfReply_wellformed r :
  issueKey (insightOfReply JSON_parse r) ∈ VALID_ISSUE_KEYS ∧
  Dyn.truthy (Some (insight (insightOfReply JSON_parse r))) = true.
Proof.
  unfold insightOfReply, interpretReply.
  destruct (replyText r) as [c |]; cbn [cbind];
    [| split; [apply other_is_valid | reflexivity]].
  unfold insightOfText. destruct (Re.matchObject c) as [m |].
  - destruct (JSON_parse m) as [parsed |];
      [| split; [apply other_is_valid | reflexivity]].
    destruct (insightOfParsed parsed) as [i |] eqn:Hi;
      [| split; [apply other_is_valid | reflexivity]].
    eapply insightOfParsed_wellformed, Hi.
  - split; [apply other_is_valid | apply insightOfPlainText_truthy].
Qed.

Lemma protocol_records t :
  protocol cfg JSON_parse t → Forall recordWellFormed (insertsOf t).
Proof.
  unfold insertsOf.
  induction 1 as [| ev0 t Hplain Ht IH | u X c x t Hc Hchat Ht IH
                  | x row rows t Ht IH
                  | systemPrompt hotelName review found draw u reply saved t Hfound Ht IH];
    cbn [omap list_omap].
  - constructor.
  - rewrite plain_no_insert by assumption. exact IH.
  - rewrite (throttled_no_insert (Answered c x)) by assumption. exact IH.
  - exact IH.
  - cbn [insertOfEvent]. constructor; [| exact IH].
    destruct (insightOfReply_wellformed reply) as [Hkey Htruthy].
    repeat split; assumption.
Qed.

End ProtocolUse.

Lemma append_assoc_r (a b c : string) : (a +:+ b) +:+ c = a +:+ (b +:+ c).
Proof.
  induction a as [| x a IH]; [reflexivity |].
  change (String x ((a +:+ b) +:+ c) = String x (a +:+ (b +:+ c))). f_equal. exact IH.
Qed.

(** The prompt tells the voice asked for. *)
Lemma userPrompt_voice reviewText hotelName a b :
  userPrompt reviewText hotelName a = userPrompt reviewText hotelName b → a = b.
Proof.
  destruct a, b; try reflexivity; intros H; exfalso;
    unfold userPrompt in H; cbn [Js.join] in H;
    rewrite !append_assoc_r in H;
    repeat (apply (inj (String.append _)) in H);
    discriminate H.
Qed.

Lemma runScript_protocol {W} (h : Handler W) cfg JSON_parse Date_parse setDateBack
    createClient s :
  traces h (protocol cfg JSON_parse)
    (runScript cfg JSON_parse Date_parse setDateBack createClient s).
Proof.
  destruct s; [apply runIngestion_protocol | apply runIngestionTop_protocol].
Qed.

(** X1.  In every run of either script, whatever the outside world
    answers, an insert comes directly after four calls made for the same
    review: the lookup of the gate, which found no record; the draw of
    the voice; the pause; and the model call, whose prompt is the one
    for the text of the review, the name of the hotel and the anonymity
    flag of the record.  The record inserted is built from the
    transformer's reading of the reply to that call.  The prompts for
    the two voices differ, so the voice asked for is the voice stored. *)
Theorem insert_follows_lookup_draw_pause_and_model_call
    {W} (h : Handler W) (w : W) (cfg : Config) (JSON_parse : string → option json)
    (Date_parse : string → option Z) (setDateBack : Z → Z → Z)
    (createClient : string → string → bool) (s : Script)
    (pre post : list Event) (ev : Event) (ins : ReportInsert) :
  trace (interp h (runScript cfg JSON_parse Date_parse setDateBack createClient s) w) = pre ++ ev :: post →
  insertOfEvent ev = Some ins →
  ∃ pre' systemPrompt hotelName review found draw u reply,
    pre = pre' ++
      [ Answered (SelectReportByReviewId (id review)) found;
        Answered MathRandom draw;
        Answered (Sleep (API_DELAY_MS cfg)) u;
        Answered (DeepSeekChat systemPrompt
                    (userPrompt (text review) hotelName (ins_is_anonymous ins))) reply ] ∧
    (found = None ∨ found = Some []) ∧
    ins = insertOf (reportOf cfg hotelName review (anonymousAt cfg draw)
                      (insightOfReply JSON_parse reply)) ∧
    userPrompt (text review) hotelName (negb (ins_is_anonymous ins))
      ≠ userPrompt (text review) hotelName (ins_is_anonymous ins).
Proof.
  intros Hsplit Hins.
  destruct (protocol_insert cfg JSON_parse _ (runScript_protocol h cfg JSON_parse
              Date_parse setDateBack createClient s w) _ _ _ _ Hsplit Hins)
    as (pre' & sp & hn & rv & fd & dr & u & rp & Hpre & Hfd & Hrec).
  exists pre', sp, hn, rv, fd, dr, u, rp. repeat split; try assumption.
  intros Heq. apply userPrompt_voice in Heq. destruct (ins_is_anonymous ins); discriminate.
Qed.

(** X2.  In every run of either script every call to the first review
    provider and every call to the model comes directly after a pause of
    [API_DELAY_MS]. *)
Theorem provider_and_model_calls_follow_a_pause
    {W} (h : Handler W) (w : W) (cfg : Config) (JSON_parse : string → option json)
    (Date_parse : string → option Z) (setDateBack : Z → Z → Z)
    (createClient : string → string → bool) (s : Script)
    (pre post : list Event) (ev : Event) :
  trace (interp h (runScript cfg JSON_parse Date_parse setDateBack createClient s) w) = pre ++ ev :: post →
  throttled ev = true →
  ∃ pre' u, pre = pre' ++ [Answered (Sleep (API_DELAY_MS cfg)) u].
Proof.
  intros Hsplit Hev.
  exact (protocol_pause cfg JSON_parse _ (runScript_protocol h cfg JSON_parse
           Date_parse setDateBack createClient s w) _ _ _ Hsplit Hev).
Qed.

(** X3.  Every object that a run of either script hands to [insert] has
    a category of the enumeration, a description that is not empty (a
    truthy value), the mark [is_verified] and a creation time equal to
    the date of the review, whatever the model replied. *)
Theorem inserted_records_are_well_formed
    {W} (h : Handler W) (w : W) (cfg : Config) (JSON_parse : string → option json)
    (Date_parse : string → option Z) (setDateBack : Z → Z → Z)
    (createClient : string → string → bool) (s : Script) :
  Forall recordWellFormed
    (insertsOf (trace (interp h (runScript cfg JSON_parse Date_parse setDateBack createClient s) w))).
Proof. apply protocol_records with cfg JSON_parse, runScript_protocol. Qed.


(** ** The counters of a run *)

Section CountFacts.

Context {W : Type} (h : Handler W).
Variable cfg : Config.
Variable JSON_parse : string -> option json.
Variable Date_parse : string -> option Z.
Variable setDateBack : Z -> Z -> Z.
Variable createClient : string -> string -> bool.

Lemma countOf_app f t t' : countOf f (t ++ t') = countOf f t + countOf f t'.
Proof. unfold countOf. rewrite List.filter_app, length_app. reflexivity. Qed.

Lemma countOf_cons f ev t :
  countOf f (ev :: t) = (if f ev then 1 else 0) + countOf f t.
Proof. unfold countOf. cbn [List.filter]. destruct (f ev); reflexivity. Qed.

Lemma countOf_le f g t : (∀ ev, f ev = true → g ev = true) → countOf f t ≤ countOf g t.
Proof.
  intros Hfg. induction t as [| ev t IH]; [reflexivity |].
  rewrite !countOf_cons. destruct (f ev) eqn:Hf; [rewrite (Hfg _ Hf); lia |].
  destruct (g ev); lia.
Qed.

Lemma countOf_none f t : Forall (fun ev => f ev = false) t → countOf f t = 0.
Proof.
  induction 1 as [| ev t Hev _ IH]; [reflexivity |].
  rewrite countOf_cons, Hev, IH. reflexivity.
Qed.

Lemma isHit_lookup ev : isHit ev = true → isLookup ev = true.
Proof. destruct ev as [X c x]. destruct c; cbn; congruence. Qed.

Lemma isAccepted_insert ev : isAccepted ev = true → isInsert ev = true.
Proof.
  unfold isAccepted, isInsert. destruct (acceptedInsert ev) as [ins |] eqn:Hins;
    [| discriminate].
  rewrite (acceptedInsert_is_insert _ _ Hins). reflexivity.
Qed.

Lemma counters_eq (c d : Counters) :
  totalReviews c = totalReviews d → skippedReviews c = skippedReviews d →
  successfulReports c = successfulReports d → c = d.
Proof. destruct c, d. cbn. congruence. Qed.

Lemma tally_app t t' : tally (t ++ t') = addCounters (tally t) (tally t').
Proof. apply counters_eq; cbn; apply countOf_app. Qed.

Lemma addCounters_assoc c d e :
  addCounters (addCounters c d) e = addCounters c (addCounters d e).
Proof. apply counters_eq; cbn; lia. Qed.

Lemma addCounters_none c : addCounters c noCounters = c.
Proof. apply counters_eq; cbn; lia. Qed.

Lemma tally_uncounted t : Forall uncounted t → tally t = noCounters.
Proof.
  intros Ht. apply counters_eq; cbn; apply countOf_none;
    (eapply Forall_impl; [exact Ht |]); intros ev (Hlookup & Hchat & Hinsert).
  - exact Hlookup.
  - destruct (isHit ev) eqn:Hhit; [| reflexivity].
    apply isHit_lookup in Hhit. congruence.
  - destruct (isAccepted ev) eqn:Hacc; [| reflexivity].
    apply isAccepted_insert in Hacc. congruence.
Qed.

Lemma plain_uncounted ev : plain ev → uncounted ev.
Proof.
  intros (Hlookup & Hinsert & Hthrottled). repeat split; try assumption.
  destruct ev as [X c x]. destruct c; cbn in *; congruence.
Qed.

Lemma upstream_uncounted {A} (p : Prog A) : upstreamOnly True p → always h uncounted p.
Proof.
  induction p as [a | code | X c k IH]; intros Hp.
  - apply always_ret.
  - apply always_exit.
  - destruct Hp as [Hc Hk]. apply always_vis; [| intros; apply IH, Hk].
    intros x. destruct c; try contradiction; repeat split.
Qed.

Lemma processReview_accounts systemPrompt hotelName review :
  accounts h (processReview cfg JSON_parse systemPrompt hotelName review).
Proof.
  intros c w.
  unfold processReview, checkExistingReport, shouldBeAnonymous,
    transformReviewToSafetyInsight, upsertReport.
  unfold_prog. cbn [bind interp trace outcome world].
  destruct (h _ (SelectReportByReviewId (id review)) w).1 as [[| row rows] |];
    cbn [bind interp trace outcome world];
    try match goal with |- context [(h InsertAnswer ?c ?w').1] =>
      destruct (h InsertAnswer c w').1 end;
    f_equal; apply counters_eq; cbn; lia.
Qed.

Lemma accounts_forEach {A} (xs : list A) (body : A -> Counters -> Prog Counters) :
  (∀ x, accounts h (body x)) → accounts h (forEach xs body).
Proof.
  intros Hbody. induction xs as [| x xs IH]; intros c w; cbn [forEach].
  - cbn. rewrite addCounters_none. reflexivity.
  - unfold_prog. rewrite interp_bind. unfold andThen. rewrite Hbody.
    cbn [outcome trace]. rewrite IH, tally_app, addCounters_assoc. reflexivity.
Qed.

(** A loop body that starts with calls that no counter counts. *)
Lemma accounts_andThen {A} (p : Prog A) (f : A -> Counters -> Prog Counters)
    (body : Counters -> Prog Counters) :
  (∀ c w, interp h (body c) w = andThen h (interp h p w) (fun a => f a c)) →
  returns h p → always h uncounted p → (∀ a, accounts h (f a)) →
  accounts h body.
Proof.
  intros Hsplit Hreturns Hquiet Hf c w. rewrite Hsplit. unfold andThen.
  destruct (Hreturns w) as [a Ha]. rewrite Ha. cbn [outcome trace].
  rewrite Hf, tally_app, (tally_uncounted _ (Hquiet w)).
  f_equal; apply counters_eq; cbn; lia.
Qed.

Lemma processHotel_accounts systemPrompt hotel :
  accounts h (processHotel cfg JSON_parse Date_parse setDateBack systemPrompt hotel).
Proof.
  eapply (accounts_andThen (reviewsOfHotel cfg Date_parse setDateBack hotel)
            (fun reviews => processReviews cfg JSON_parse systemPrompt (name hotel) reviews)).
  - intros c w. apply processHotel_split.
  - apply reviewsOfHotel_returns.
  - apply upstream_uncounted, reviewsOfHotel_upstream. auto.
  - intros reviews. apply accounts_forEach. intros. apply processReview_accounts.
Qed.

Lemma processTopHotel_accounts systemPrompt hotel :
  accounts h (processTopHotel cfg JSON_parse Date_parse setDateBack systemPrompt hotel).
Proof.
  eapply (accounts_andThen (reviewsOfTopHotel cfg Date_parse setDateBack hotel)
            (fun reviews => processReviews cfg JSON_parse systemPrompt (top_name hotel) reviews)).
  - intros c w. apply processTopHotel_split.
  - apply reviewsOfTopHotel_returns.
  - apply upstream_uncounted, reviewsOfTopHotel_upstream. auto.
  - intros reviews. apply accounts_forEach. intros. apply processReview_accounts.
Qed.

(** The counters that a run returns are the tally of its trace. *)
Lemma tallied_bind {A} (p : Prog A) (f : A -> Prog Counters) (w : W) c :
  always h uncounted p →
  (∀ a w' c', outcome (interp h (f a) w') = Returned c' →
              c' = tally (trace (interp h (f a) w'))) →
  outcome (interp h (bind p f) w) = Returned c →
  c = tally (trace (interp h (bind p f) w)).
Proof.
  intros Hp Hf. rewrite interp_bind. unfold andThen.
  destruct (outcome (interp h p w)) as [a | code]; cbn [outcome trace]; [| discriminate].
  intros Hout. rewrite tally_app, (tally_uncounted _ (Hp w)), (Hf _ _ _ Hout).
  apply counters_eq; reflexivity.
Qed.

Lemma accounts_tallied (body : Counters -> Prog Counters) (w : W) c :
  accounts h body →
  outcome (interp h (body noCounters) w) = Returned c →
  c = tally (trace (interp h (body noCounters) w)).
Proof.
  intros Hbody. rewrite Hbody. intros [= <-]. apply counters_eq; reflexivity.
Qed.

Lemma runScript_tallied s (w : W) c :
  outcome (interp h (runScript cfg JSON_parse Date_parse setDateBack createClient s) w) = Returned c →
  c = tally (trace (interp h (runScript cfg JSON_parse Date_parse setDateBack createClient s) w)).
Proof.
  destruct s as [cmd |]; cbn [runScript]; unfold runIngestion, runIngestionTop;
    (destruct (missingKeys cfg); [| discriminate]); unfold_prog.
  - apply tallied_bind.
    { intros w'. eapply Forall_impl; [apply loadSystemPrompt_plain |].
      apply plain_uncounted. }
    intros prompt w' c'. apply tallied_bind; [apply createSupabaseClient_always |].
    intros _ w'' c''. apply tallied_bind.
    { intros w3. eapply Forall_impl; [apply selectCohort_plain |].
      apply plain_uncounted. }
    intros [| hotel rest] w3 c3; [discriminate |].
    apply (accounts_tallied
             (forEach (hotel :: rest)
                (processHotel cfg JSON_parse Date_parse setDateBack prompt))).
    apply accounts_forEach. intros. apply processHotel_accounts.
  - apply tallied_bind.
    { intros w'. eapply Forall_impl; [apply loadSystemPrompt_plain |].
      apply plain_uncounted. }
    intros prompt w' c'. apply tallied_bind; [apply createSupabaseClient_always |].
    intros _ w'' c''.
    apply (accounts_tallied
             (forEach TOP_HOTELS
                (processTopHotel cfg JSON_parse Date_parse setDateBack prompt))).
    apply accounts_forEach. intros. apply processTopHotel_accounts.
Qed.

(** One model call per insert, and one insert per lookup that found no
    record. *)
Lemma protocol_balance t :
  protocol cfg JSON_parse t →
  countOf isChat t = countOf isInsert t ∧
  countOf isInsert t + countOf isHit t = countOf isLookup t.
Proof.
  induction 1 as [| ev0 t Hplain Ht IH | u X c x t Hc Hchat Ht IH
                  | x row rows t Ht IH
                  | systemPrompt hotelName review found draw u reply saved t Hfound Ht IH];
    rewrite ?countOf_cons.
  - split; reflexivity.
  - destruct (plain_uncounted _ Hplain) as (Hlookup & Hchat & Hinsert).
    rewrite Hlookup, Hchat, Hinsert.
    destruct (isHit ev0) eqn:Hhit; [apply isHit_lookup in Hhit; congruence |].
    cbn. exact IH.
  - rewrite Hchat.
    assert (isInsert (Answered c x) = false ∧ isHit (Answered c x) = false ∧
            isLookup (Answered c x) = false) as (-> & -> & ->).
    { destruct c; cbn in *; try discriminate; auto. }
    cbn. exact IH.
  - cbn. lia.
  - assert (isHit (Answered (SelectReportByReviewId (id review)) found) = false) as Hmiss.
    { destruct Hfound as [-> | ->]; reflexivity. }
    rewrite Hmiss. cbn. lia.
Qed.

End CountFacts.

(** X4.  The counters that a run of either script returns are exact:
    [totalReviews] is the number of lookups of the deduplication gate,
    [skippedReviews] the number of lookups that found a record, and
    [successfulReports] the number of inserts that the store accepted.
    Every lookup that finds no record is followed by one model call and
    one insert, so the run makes [totalReviews - skippedReviews] model
    calls, and [skippedReviews + successfulReports] never exceeds
    [totalReviews]. *)
Theorem counters_are_the_tally_of_the_calls
    {W} (h : Handler W) (w : W) (cfg : Config) (JSON_parse : string → option json)
    (Date_parse : string → option Z) (setDateBack : Z → Z → Z)
    (createClient : string → string → bool) (s : Script)
    (c : Counters) :
  let r := interp h (runScript cfg JSON_parse Date_parse setDateBack createClient s) w in
  outcome r = Returned c →
  totalReviews c = countOf isLookup (trace r) ∧
  skippedReviews c = countOf isHit (trace r) ∧
  successfulReports c = countOf isAccepted (trace r) ∧
  countOf isChat (trace r) = totalReviews c - skippedReviews c ∧
  countOf isInsert (trace r) = totalReviews c - skippedReviews c ∧
  skippedReviews c + successfulReports c ≤ totalReviews c.
Proof.
  intros r Hout. apply runScript_tallied in Hout. fold r in Hout.
  destruct (protocol_balance cfg JSON_parse (trace r)
              (runScript_protocol h cfg JSON_parse Date_parse setDateBack createClient s w))
    as [Hchat Hinsert].
  pose proof (countOf_le isAccepted isInsert (trace r) isAccepted_insert) as Hle.
  subst c. cbn [tally totalReviews skippedReviews successfulReports]. lia.
Qed.

(** ** A second run over reviews that have a record *)

Section SecondRun.

Variable o : Outside.
Variable cfg : Config.
Variable JSON_parse : string -> option json.

Lemma answer_calls {X} (c : Call X) (w : World) : calls (answer o X c w).2 = S (calls w).
Proof.
  destruct c; cbn; try reflexivity.
  destruct (insertFails o (calls w)); [reflexivity |]. case_bool_decide; reflexivity.
Qed.

Lemma reviewIds_rowOfInsert (l : list ReportInsert) :
  reviewIds (rowOfInsert <$> l) = ins_external_review_id <$> l.
Proof. induction l as [| ins l IH]; [reflexivity |]. cbn. f_equal. exact IH. Qed.

Lemma answer_answeredAs {X} (c : Call X) (w : World) :
  answeredAs o (reviewIds (reports w)) (calls w) (Answered c (answer o X c w).1).
Proof.
  destruct c; try exact I.
  - cbn [answeredAs]. destruct (readFails o (calls w)) eqn:Hread; [cbn; rewrite Hread; reflexivity |].
    destruct (lookup_served o externalReviewId w Hread) as [Hin Hout].
    case_bool_decide; auto.
  - cbn. destruct (insertFails o (calls w)); cbn.
    { split; [discriminate | intros [? _]; discriminate]. }
    case_bool_decide; cbn; split; try discriminate; try tauto.
Qed.

(** The runs of the modelled store are traces of the store. *)
Lemma answer_storeTrace {A} (p : Prog A) (w : World) :
  storeTrace o (reviewIds (reports w)) (calls w) (trace (interp (answer o) p w)).
Proof.
  revert w. induction p as [a | code | X c k IH]; intros w; cbn [interp trace];
    try exact I.
  cbn [storeTrace]. split; [apply answer_answeredAs |].
  specialize (IH (answer o X c w).1 (answer o X c w).2).
  rewrite answer_calls, answer_reports, reviewIds_app, reviewIds_rowOfInsert in IH.
  exact IH.
Qed.

Lemma idsAdded_none ev : isInsert ev = false → idsAdded ev = [].
Proof.
  intros Hev. unfold idsAdded, acceptedInserts. cbn.
  destruct (acceptedInsert ev) as [ins |] eqn:Hacc; [| reflexivity].
  apply acceptedInsert_is_insert in Hacc. unfold isInsert in Hev. rewrite Hacc in Hev.
  discriminate Hev.
Qed.

Lemma lookupOfEvent_none ev : isLookup ev = false → lookupOfEvent ev = None.
Proof. destruct ev as [X c x]. destruct c; cbn; congruence. Qed.

Lemma lookupsOf_cons ev t :
  lookupsOf (ev :: t) =
    match lookupOfEvent ev with
    | Some x => x :: lookupsOf t
    | None => lookupsOf t
    end.
Proof. reflexivity. Qed.

Lemma lookupsOf_length t : length (lookupsOf t) = countOf isLookup t.
Proof.
  induction t as [| [X c x] t IH]; [reflexivity |].
  rewrite countOf_cons. unfold lookupsOf in *. destruct c; cbn in *; lia.
Qed.

(** An event that is neither a lookup nor an insert leaves the store as
    it is. *)
Lemma storeTrace_uncounted ids n ev t :
  isInsert ev = false →
  storeTrace o ids n (ev :: t) → storeTrace o ids (S n) t.
Proof.
  intros Hev [_ Ht]. rewrite (idsAdded_none _ Hev), app_nil_r in Ht. exact Ht.
Qed.

(** In a protocol trace, a lookup that finds no record is followed by a
    model call. *)
Lemma protocol_quiet_hits t :
  protocol cfg JSON_parse t → Forall quiet t →
  Forall (fun ev => isLookup ev = true → isHit ev = true) t.
Proof.
  induction 1 as [| ev0 t Hplain Ht IH | u X c x t Hc Hchat Ht IH
                  | x row rows t Ht IH
                  | systemPrompt hotelName review found draw u reply saved t Hfound Ht IH];
    intros Hquiet.
  - constructor.
  - apply Forall_cons in Hquiet as [_ Hquiet]. constructor; [| exact (IH Hquiet)].
    destruct Hplain as (Hlookup & _). congruence.
  - apply Forall_cons in Hquiet as [_ Hquiet]. apply Forall_cons in Hquiet as [_ Hquiet].
    constructor; [discriminate |]. constructor; [| exact (IH Hquiet)].
    destruct c; cbn in *; congruence.
  - apply Forall_cons in Hquiet as [_ Hquiet]. constructor; [reflexivity | exact (IH Hquiet)].
  - exfalso. do 3 apply Forall_cons in Hquiet as [_ Hquiet].
    apply Forall_cons in Hquiet as [[Hchat _] _]. discriminate Hchat.
Qed.

(** A run that only looks up ids that the table holds has no insert
    accepted, whether its lookups are served or not. *)
Lemma protocol_nothing_accepted ids n t :
  protocol cfg JSON_parse t → storeTrace o ids n t →
  (∀ x, x ∈ lookupsOf t → x ∈ ids) →
  acceptedInserts t = [].
Proof.
  intros Ht. revert ids n.
  induction Ht as [| ev0 t Hplain Ht IH | u X c x t Hc Hchat Ht IH
                   | x row rows t Ht IH
                   | systemPrompt hotelName review found draw u reply saved t Hfound Ht IH];
    intros ids n Hstore Hids.
  - reflexivity.
  - destruct Hplain as (Hlookup & Hinsert & _).
    rewrite acceptedInserts_cons.
    assert (acceptedInserts [ev0] = []) as ->.
    { pose proof (idsAdded_none _ Hinsert) as Hnone. unfold idsAdded in Hnone.
      destruct (acceptedInserts [ev0]); [reflexivity | discriminate]. }
    apply (IH ids (S n)); [eapply storeTrace_uncounted; eassumption |].
    intros y Hy. apply Hids.
    rewrite lookupsOf_cons, (lookupOfEvent_none _ Hlookup). exact Hy.
  - assert (Hc' : isInsert (Answered c x) = false ∧ isLookup (Answered c x) = false).
    { destruct c; cbn in *; try discriminate; auto. }
    destruct Hc' as [Hins Hlook].
    apply storeTrace_uncounted in Hstore; [| reflexivity].
    apply storeTrace_uncounted in Hstore; [| exact Hins].
    rewrite acceptedInserts_cons, (acceptedInserts_cons (Answered c x)).
    assert (acceptedInserts [Answered c x] = []) as ->.
    { pose proof (idsAdded_none _ Hins) as Hnone. unfold idsAdded in Hnone.
      destruct (acceptedInserts [Answered c x]); [reflexivity | discriminate]. }
    cbn [app]. change (acceptedInserts [Answered (Sleep (API_DELAY_MS cfg)) u]) with (@nil ReportInsert).
    cbn [app]. apply (IH ids (S (S n)) Hstore).
    intros y Hy. apply Hids.
    rewrite !lookupsOf_cons, (lookupOfEvent_none _ Hlook). exact Hy.
  - apply storeTrace_uncounted in Hstore; [| reflexivity].
    rewrite acceptedInserts_cons. cbn [app].
    change (acceptedInserts [Answered (SelectReportByReviewId x) (Some (row :: rows))])
      with (@nil ReportInsert).
    cbn [app]. apply (IH ids (S n) Hstore).
    intros y Hy. apply Hids. rewrite !lookupsOf_cons. cbn [lookupOfEvent]. right. exact Hy.
  - assert (Hin : id review ∈ ids) by (apply Hids; rewrite lookupsOf_cons; left).
    do 4 (apply storeTrace_uncounted in Hstore; [| reflexivity]).
    destruct Hstore as [Hsaved Hstore].
    assert (Hrefused : saved ≠ InsertOk).
    { intros Hok. apply Hsaved in Hok as [_ Hout]. apply Hout. exact Hin. }
    assert (Hnone : acceptedInserts
                      [Answered (InsertReport
                         (insertOf (reportOf cfg hotelName review (anonymousAt cfg draw)
                                      (insightOfReply JSON_parse reply)))) saved] = []).
    { unfold acceptedInserts. cbn. destruct saved; try contradiction; reflexivity. }
    unfold idsAdded in Hstore. rewrite Hnone in Hstore. cbn [fmap list_fmap] in Hstore.
    rewrite app_nil_r in Hstore.
    do 4 (rewrite acceptedInserts_cons; cbn [app];
          match goal with |- context [acceptedInserts [?e]] =>
            change (acceptedInserts [e]) with (@nil ReportInsert) end; cbn [app]).
    rewrite acceptedInserts_cons, Hnone. cbn [app].
    apply (IH ids _ Hstore).
    intros y Hy. apply Hids. rewrite !lookupsOf_cons. cbn [lookupOfEvent]. right. exact Hy.
Qed.

(** With its lookups served, a run that only looks up ids that the
    table holds makes no model call and no insert. *)
Lemma protocol_duplicates ids n t :
  protocol cfg JSON_parse t → storeTrace o ids n t →
  (∀ m, n ≤ m → readFails o m = false) →
  (∀ x, x ∈ lookupsOf t → x ∈ ids) →
  Forall quiet t.
Proof.
  intros Ht. revert ids n.
  induction Ht as [| ev0 t Hplain Ht IH | u X c x t Hc Hchat Ht IH
                   | x row rows t Ht IH
                   | systemPrompt hotelName review found draw u reply saved t Hfound Ht IH];
    intros ids n Hstore Hreads Hids.
  - constructor.
  - destruct (plain_uncounted _ Hplain) as (Hlookup & Hnochat & Hinsert).
    constructor; [split; assumption |].
    apply (IH ids (S n)); [eapply storeTrace_uncounted; eassumption | |].
    + intros m Hm. apply Hreads. lia.
    + intros y Hy. apply Hids.
      rewrite lookupsOf_cons, (lookupOfEvent_none _ Hlookup). exact Hy.
  - assert (Hc' : isInsert (Answered c x) = false ∧ isLookup (Answered c x) = false).
    { destruct c; cbn in *; try discriminate; auto. }
    destruct Hc' as [Hins Hlook].
    apply storeTrace_uncounted in Hstore; [| reflexivity].
    apply storeTrace_uncounted in Hstore; [| exact Hins].
    constructor; [split; reflexivity |]. constructor; [split; assumption |].
    apply (IH ids (S (S n)) Hstore).
    + intros m Hm. apply Hreads. lia.
    + intros y Hy. apply Hids.
      rewrite !lookupsOf_cons, (lookupOfEvent_none _ Hlook). exact Hy.
  - apply storeTrace_uncounted in Hstore; [| reflexivity].
    constructor; [split; reflexivity |].
    apply (IH ids (S n) Hstore).
    + intros m Hm. apply Hreads. lia.
    + intros y Hy. apply Hids. rewrite !lookupsOf_cons. cbn [lookupOfEvent]. right. exact Hy.
  - exfalso.
    assert (Hin : id review ∈ ids) by (apply Hids; rewrite lookupsOf_cons; left).
    destruct Hstore as [Hanswer _]. cbn [answeredAs] in Hanswer.
    rewrite (Hreads n) in Hanswer by lia.
    rewrite bool_decide_eq_true_2 in Hanswer by exact Hin.
    destruct Hanswer as [row ->]. destruct Hfound; discriminate.
Qed.

(** With its inserts served, a run leaves a record for every id that it
    looked up. *)
Lemma protocol_recorded ids n t :
  protocol cfg JSON_parse t → storeTrace o ids n t →
  (∀ m, n ≤ m → insertFails o m = false) →
  ∀ x, x ∈ lookupsOf t → x ∈ ids ++ (ins_external_review_id <$> acceptedInserts t).
Proof.
  intros Ht. revert ids n.
  induction Ht as [| ev0 t Hplain Ht IH | u X c x t Hc Hchat Ht IH
                   | x row rows t Ht IH
                   | systemPrompt hotelName review found draw u reply saved t Hfound Ht IH];
    intros ids n Hstore Hinserts y Hy.
  - apply elem_of_nil in Hy. contradiction.
  - destruct Hplain as (Hlookup & Hinsert & _).
    rewrite lookupsOf_cons, (lookupOfEvent_none _ Hlookup) in Hy.
    rewrite acceptedInserts_cons, fmap_app. fold (idsAdded ev0).
    rewrite (idsAdded_none _ Hinsert). cbn [app].
    apply (IH ids (S n)); [eapply storeTrace_uncounted; eassumption | | exact Hy].
    intros m Hm. apply Hinserts. lia.
  - assert (Hc' : isInsert (Answered c x) = false ∧ isLookup (Answered c x) = false).
    { destruct c; cbn in *; try discriminate; auto. }
    destruct Hc' as [Hins Hlook].
    apply storeTrace_uncounted in Hstore; [| reflexivity].
    apply storeTrace_uncounted in Hstore; [| exact Hins].
    rewrite !lookupsOf_cons, (lookupOfEvent_none _ Hlook) in Hy. cbn [lookupOfEvent] in Hy.
    rewrite acceptedInserts_cons, (acceptedInserts_cons (Answered c x)), !fmap_app.
    fold (idsAdded (Answered c x)). rewrite (idsAdded_none _ Hins). cbn [app].
    change (acceptedInserts [Answered (Sleep (API_DELAY_MS cfg)) u]) with (@nil ReportInsert).
    cbn [fmap list_fmap app].
    apply (IH ids (S (S n)) Hstore); [| exact Hy].
    intros m Hm. apply Hinserts. lia.
  - pose proof Hstore as [Hanswer _].
    apply storeTrace_uncounted in Hstore; [| reflexivity].
    rewrite lookupsOf_cons in Hy. cbn [lookupOfEvent] in Hy.
    rewrite acceptedInserts_cons, fmap_app.
    change (acceptedInserts [Answered (SelectReportByReviewId x) (Some (row :: rows))])
      with (@nil ReportInsert).
    cbn [fmap list_fmap app].
    apply elem_of_cons in Hy as [-> | Hy].
    + apply elem_of_app. left. cbn [answeredAs] in Hanswer.
      destruct (readFails o n); [discriminate |].
      case_bool_decide; [assumption | discriminate].
    + apply (IH ids (S n) Hstore); [| exact Hy]. intros m Hm. apply Hinserts. lia.
  - do 4 (apply storeTrace_uncounted in Hstore; [| reflexivity]).
    destruct Hstore as [Hsaved Hstore]. cbn [answeredAs] in Hsaved.
    change (ins_external_review_id
              (insertOf (reportOf cfg hotelName review (anonymousAt cfg draw)
                           (insightOfReply JSON_parse reply)))) with (id review) in Hsaved.
    rewrite lookupsOf_cons in Hy. cbn [lookupOfEvent] in Hy.
    rewrite !lookupsOf_cons in Hy. cbn [lookupOfEvent] in Hy.
    do 4 (rewrite acceptedInserts_cons;
          match goal with |- context [acceptedInserts [?e]] =>
            change (acceptedInserts [e]) with (@nil ReportInsert) end; cbn [app]).
    rewrite acceptedInserts_cons, fmap_app, app_assoc.
    match goal with |- context [ins_external_review_id <$> acceptedInserts [?e]] =>
      fold (idsAdded e) end.
    apply elem_of_cons in Hy as [-> | Hy].
    + apply elem_of_app. left.
      destruct (decide (id review ∈ ids)) as [Hin | Hout]; [apply elem_of_app; auto |].
      assert (Hok : saved = InsertOk).
      { apply Hsaved. split; [apply Hinserts; lia | exact Hout]. }
      subst saved. apply elem_of_app. right. cbn. left.
    + apply (IH _ _ Hstore); [| exact Hy]. intros m Hm. apply Hinserts. lia.
Qed.

Lemma storeTrace_app ids n pre t :
  storeTrace o ids n (pre ++ t) →
  storeTrace o (ids ++ (ins_external_review_id <$> acceptedInserts pre)) (n + length pre) t.
Proof.
  revert ids n. induction pre as [| ev pre IH]; intros ids n Hstore.
  - cbn. rewrite app_nil_r, Nat.add_0_r. exact Hstore.
  - destruct Hstore as [_ Hstore]. apply IH in Hstore.
    rewrite acceptedInserts_cons, fmap_app, app_assoc.
    cbn [length]. replace (n + S (length pre)) with (S n + length pre) by lia.
    exact Hstore.
Qed.

(** After a lookup that found a record the trace goes on with the
    groups of other reviews. *)
Lemma protocol_after_hit t :
  protocol cfg JSON_parse t →
  ∀ pre ev post, t = pre ++ ev :: post → isHit ev = true → protocol cfg JSON_parse post.
Proof.
  induction 1 as [| ev0 t Hplain Ht IH | u X c x t Hc Hchat Ht IH
                  | x row rows t Ht IH
                  | systemPrompt hotelName review found draw u reply saved t Hfound Ht IH];
    intros pre ev post Hsplit Hhit.
  - destruct pre; discriminate.
  - destruct pre as [| e pre]; cbn [app] in Hsplit; injection Hsplit as He Hrest.
    { subst ev. destruct Hplain as (Hno & _). apply isHit_lookup in Hhit. congruence. }
    exact (IH _ _ _ Hrest Hhit).
  - destruct pre as [| e pre]; cbn [app] in Hsplit; injection Hsplit as He Hrest.
    { subst ev. discriminate. }
    destruct pre as [| e' pre]; cbn [app] in Hrest; injection Hrest as He' Hrest.
    { subst ev. destruct c; cbn in *; discriminate. }
    exact (IH _ _ _ Hrest Hhit).
  - destruct pre as [| e pre]; cbn [app] in Hsplit; injection Hsplit as He Hrest.
    { subst post. exact Ht. }
    exact (IH _ _ _ Hrest Hhit).
  - destruct pre as [| e1 pre]; cbn [app] in Hsplit; injection Hsplit as He Hrest.
    { subst ev. destruct Hfound as [-> | ->]; discriminate. }
    destruct pre as [| e2 pre]; cbn [app] in Hrest; injection Hrest as He2 Hrest.
    { subst ev. discriminate. }
    destruct pre as [| e3 pre]; cbn [app] in Hrest; injection Hrest as He3 Hrest.
    { subst ev. discriminate. }
    destruct pre as [| e4 pre]; cbn [app] in Hrest; injection Hrest as He4 Hrest.
    { subst ev. discriminate. }
    destruct pre as [| e5 pre]; cbn [app] in Hrest; injection Hrest as He5 Hrest.
    { subst ev. discriminate. }
    exact (IH _ _ _ Hrest Hhit).
Qed.

Lemma quiet_no_insert t : Forall quiet t → countOf isInsert t = 0.
Proof.
  induction 1 as [| ev t [_ Hev] _ IH]; [reflexivity |].
  rewrite countOf_cons, Hev, IH. reflexivity.
Qed.

Variable Date_parse : string -> option Z.
Variable setDateBack : Z -> Z -> Z.
Variable createClient : string -> string -> bool.

(** A run of a script that makes no model call and no insert, after
    another run. *)
Lemma quiet_nothingNew s (first : Run World Counters) :
  let second := interp (answer o)
                  (runScript cfg JSON_parse Date_parse setDateBack createClient s)
                  (world first) in
  Forall quiet (trace second) → nothingNew first second.
Proof.
  intros second Hquiet.
  pose proof (runScript_protocol (answer o) cfg JSON_parse Date_parse setDateBack
                createClient s (world first)) as Hprotocol.
  fold second in Hprotocol.
  split; [apply quiet_reports, Hquiet |]. split; [exact Hquiet |].
  split; [apply protocol_quiet_hits; assumption |].
  intros c Hc.
  apply (runScript_tallied (answer o)) in Hc. fold second in Hc. subst c.
  destruct (protocol_balance cfg JSON_parse _ Hprotocol) as [_ Hbalance].
  pose proof (quiet_no_insert _ Hquiet) as Hnone.
  pose proof (countOf_le isAccepted isInsert (trace second) isAccepted_insert) as Hle.
  cbn [tally totalReviews skippedReviews successfulReports].
  rewrite lookupsOf_length. lia.
Qed.

End SecondRun.


(** The figures of the two runs above: the first makes 128 calls and
    leaves 20 records; the second looks up the reviews 1 to 20 and
    inserts the last of them. *)
Example later_second_run_figures :
  let run := interp (answer Sample.outsideLater)
               (runIngestion (CONFIG Sample.env) Sample.parse Sample.parseDates
                  Sample.daysBack Sample.client Sample.allHotels) in
  let first := run Sample.oneHotel in
  let second := run (world first) in
  calls (world first) = 128 ∧
  length (reports (world first)) = 20 ∧
  lookupsOf (trace second)
    = (fun n : nat => "tripadvisor_" +:+ pretty n) <$> seq 1 20 ∧
  ins_external_review_id <$> acceptedInserts (trace second) = ["tripadvisor_20"%string] ∧
  length (reports (world second)) = 21.
Proof. vm_compute. repeat split. Qed.


(** ** Every event of a run of the scripts *)

Ltac always_walk leaf tac :=
  repeat first
    [ leaf
    | apply always_forEach; intros
    | apply always_filterM; intros
    | apply always_ret
    | apply always_exit
    | apply always_bind; [| intros]
    | apply always_vis; [intros; tac | intros]
    | match goal with |- always _ _ (match ?x with _ => _ end) => destruct x end
    | progress (unfold_prog; cbn [bind]) ].

Section AlwaysFacts.

Context {W : Type} (h : Handler W).
Variable cfg : Config.
Variable JSON_parse : string -> option json.
Variable Date_parse : string -> option Z.
Variable setDateBack : Z -> Z -> Z.
Variable createClient : string -> string -> bool.
Variable Q : Event -> Prop.
Hypothesis Q_uncounted : ∀ ev, uncounted ev → Q ev.

Section OnePrompt.

Variable systemPrompt : string.
Hypothesis Q_processReview : ∀ hotelName review c,
  always h Q (processReview cfg JSON_parse systemPrompt hotelName review c).

Lemma processHotel_always hotel c :
  always h Q (processHotel cfg JSON_parse Date_parse setDateBack systemPrompt hotel c).
Proof.
  unfold processHotel, processPlace, searchHotelTripAdvisor, fetchGoogleReviewsAll,
    fetchTripAdvisorReviews, filterReviews, isReviewWithinDateLimit, processReviews.
  always_walk ltac:(apply Q_processReview) ltac:(apply Q_uncounted; repeat split).
Qed.

Lemma processTopHotel_always hotel c :
  always h Q (processTopHotel cfg JSON_parse Date_parse setDateBack systemPrompt hotel c).
Proof.
  unfold processTopHotel, fetchTripAdvisorReviews, filterReviews,
    isReviewWithinDateLimit, processReviews.
  always_walk ltac:(apply Q_processReview) ltac:(apply Q_uncounted; repeat split).
Qed.

(** The run after the prompt is loaded. *)
Lemma afterPrompt_always s :
  always h Q
    (_ ← createSupabaseClient cfg createClient;
     match s with
     | IngestHotelData cmd =>
         dbHotels ← selectCohort cfg cmd;
         match dbHotels with
         | [] => Exit 1
         | _ => processCohort cfg JSON_parse Date_parse setDateBack systemPrompt dbHotels
         end
     | IngestTopHotels =>
         forEach TOP_HOTELS
           (processTopHotel cfg JSON_parse Date_parse setDateBack systemPrompt) noCounters
     end).
Proof.
  unfold_prog. apply always_bind; [apply createSupabaseClient_always |]. intros _.
  destruct s as [cmd |]; unfold_prog.
  - apply always_bind.
    { intros w. eapply Forall_impl; [apply selectCohort_plain |].
      intros ev Hev. apply Q_uncounted, plain_uncounted, Hev. }
    intros [| hotel rest]; [apply always_exit |].
    apply always_forEach. intros. apply processHotel_always.
  - apply always_forEach. intros. apply processTopHotel_always.
Qed.

End OnePrompt.

Lemma loadSystemPrompt_always : always h Q loadSystemPrompt.
Proof.
  intros w. eapply Forall_impl; [apply loadSystemPrompt_plain |].
  intros ev Hev. apply Q_uncounted, plain_uncounted, Hev.
Qed.

Lemma runScript_afterPrompt s :
  missingKeys cfg = [] →
  runScript cfg JSON_parse Date_parse setDateBack createClient s =
  bind loadSystemPrompt
    (fun systemPrompt =>
       _ ← createSupabaseClient cfg createClient;
       match s with
       | IngestHotelData cmd =>
           dbHotels ← selectCohort cfg cmd;
           match dbHotels with
           | [] => Exit 1
           | _ => processCohort cfg JSON_parse Date_parse setDateBack systemPrompt dbHotels
           end
       | IngestTopHotels =>
           forEach TOP_HOTELS
             (processTopHotel cfg JSON_parse Date_parse setDateBack systemPrompt) noCounters
       end).
Proof.
  intros Hkeys. destruct s; cbn [runScript]; unfold runIngestion, runIngestionTop;
    rewrite Hkeys; reflexivity.
Qed.

Lemma runScript_always s :
  (∀ systemPrompt hotelName review c,
     always h Q (processReview cfg JSON_parse systemPrompt hotelName review c)) →
  always h Q (runScript cfg JSON_parse Date_parse setDateBack createClient s).
Proof.
  intros Hreview. destruct (missingKeys cfg) as [| key keys] eqn:Hkeys.
  - rewrite runScript_afterPrompt by exact Hkeys.
    apply always_bind; [apply loadSystemPrompt_always |].
    intros systemPrompt. apply afterPrompt_always. apply Hreview.
  - destruct s; cbn [runScript]; unfold runIngestion, runIngestionTop; rewrite Hkeys;
      apply always_exit.
Qed.

End AlwaysFacts.

(** ** A store that serves every request *)

Section HealthyStore.

Variable o : Outside.
Variable cfg : Config.
Variable JSON_parse : string -> option json.
Variable Date_parse : string -> option Z.
Variable setDateBack : Z -> Z -> Z.
Variable createClient : string -> string -> bool.
Hypothesis reads_served : ∀ n, readFails o n = false.
Hypothesis inserts_served : ∀ n, insertFails o n = false.

Lemma quiet_unrefused ev : quiet ev → unrefused ev.
Proof. intros [_ Hinsert] Hins. congruence. Qed.

(** The gate looks the review up in the table that the insert goes to:
    an insert that follows a lookup without result is accepted. *)
Lemma processReview_unrefused systemPrompt hotelName review c :
  always (answer o) unrefused (processReview cfg JSON_parse systemPrompt hotelName review c).
Proof.
  intros w. destruct (decide (id review ∈ reviewIds (reports w))) as [Hin | Hout].
  - eapply Forall_impl; [| intros ev; apply quiet_unrefused].
    eapply processReview_duplicate; eassumption.
  - destruct (lookup_served o (id review) w (reads_served _)) as [_ Hnone].
    specialize (Hnone Hout). cbn in Hnone. rewrite reads_served in Hnone.
    unfold processReview, checkExistingReport, shouldBeAnonymous,
      transformReviewToSafetyInsight, upsertReport.
    unfold_prog. cbn [bind interp trace outcome world answer fst snd tick calls reports].
    rewrite reads_served.
    injection Hnone as Hnone. rewrite Hnone.
    cbn [bind interp trace outcome world answer fst snd tick calls reports].
    rewrite inserts_served.
    rewrite bool_decide_eq_false_2 by exact Hout.
    cbn [bind interp trace outcome world answer fst snd tick calls reports].
    repeat constructor; intros Hins; try discriminate Hins.
Qed.

Lemma runScript_unrefused s :
  always (answer o) unrefused (runScript cfg JSON_parse Date_parse setDateBack createClient s).
Proof.
  apply runScript_always.
  - intros ev (_ & _ & Hinsert) Hins. congruence.
  - intros. apply processReview_unrefused.
Qed.

Lemma unrefused_inserts t :
  Forall unrefused t →
  acceptedInserts t = insertsOf t ∧ countOf isAccepted t = countOf isInsert t.
Proof.
  unfold acceptedInserts, insertsOf.
  induction 1 as [| ev t Hev _ [IHlist IHcount]]; [split; reflexivity |].
  rewrite !countOf_cons. cbn [omap list_omap]. rewrite IHlist, IHcount.
  unfold unrefused, isInsert, isAccepted in *.
  destruct (acceptedInsert ev) as [ins |] eqn:Hacc.
  - rewrite (acceptedInsert_is_insert _ _ Hacc). split; reflexivity.
  - destruct (insertOfEvent ev); [specialize (Hev eq_refl); discriminate |].
    split; reflexivity.
Qed.

End HealthyStore.

(** X5.  Against a store that serves every read and every insert, and
    that rejects a second record for an external review id, no insert of
    a run of either script is refused: the lookup of the gate keeps the
    scripts from ever meeting the uniqueness constraint, also when a
    provider lists a review twice.  Every review counted is then either
    skipped or saved. *)
Theorem served_store_accepts_every_insert
    (o : Outside) (w : World) (cfg : Config) (JSON_parse : string → option json)
    (Date_parse : string → option Z) (setDateBack : Z → Z → Z)
    (createClient : string → string → bool) (s : Script) :
  (∀ n, readFails o n = false) →
  (∀ n, insertFails o n = false) →
  let r := interp (answer o) (runScript cfg JSON_parse Date_parse setDateBack createClient s) w in
  acceptedInserts (trace r) = insertsOf (trace r) ∧
  reports (world r) = reports w ++ (rowOfInsert <$> insertsOf (trace r)) ∧
  ∀ c, outcome r = Returned c →
       skippedReviews c + successfulReports c = totalReviews c.
Proof.
  intros Hreads Hinserts r.
  destruct (unrefused_inserts (trace r)
              (runScript_unrefused o cfg JSON_parse Date_parse setDateBack createClient
                 Hreads Hinserts s w)) as [Hlist Hcount].
  split; [exact Hlist |]. split.
  { subst r. rewrite run_reports, Hlist. reflexivity. }
  intros c Hout. apply runScript_tallied in Hout. fold r in Hout.
  destruct (protocol_balance cfg JSON_parse (trace r)
              (runScript_protocol (answer o) cfg JSON_parse Date_parse setDateBack createClient s w))
    as [_ Hbalance].
  subst c. cbn [tally totalReviews skippedReviews successfulReports]. lia.
Qed.

(** ** Results of composed programs *)

Section OutcomeFacts.

Context {W : Type} (h : Handler W).

Lemma outcomes_ret {A} (P : A -> Prop) (a : A) : P a → outcomes h P (Ret a).
Proof. intros Ha w a' [= <-]. exact Ha. Qed.

Lemma outcomes_exit {A} (P : A -> Prop) code : outcomes h P (Exit code).
Proof. intros w a. discriminate. Qed.

Lemma outcomes_vis {A X} (P : A -> Prop) (c : Call X) (k : X -> Prog A) :
  (∀ x, outcomes h P (k x)) → outcomes h P (Vis c k).
Proof. intros Hk w a. cbn [interp outcome]. apply Hk. Qed.

Lemma outcomes_bind {A B} (Q : A -> Prop) (P : B -> Prop) (p : Prog A) (f : A -> Prog B) :
  outcomes h Q p → (∀ a, Q a → outcomes h P (f a)) → outcomes h P (bind p f).
Proof.
  intros Hp Hf w b. rewrite interp_bind. unfold andThen.
  destruct (outcome (interp h p w)) as [a | code] eqn:Hout; cbn [outcome]; [| discriminate].
  apply (Hf a), (Hp w a Hout).
Qed.

Lemma outcomes_any {A} (p : Prog A) : outcomes h (fun _ => True) p.
Proof. intros w a _. exact I. Qed.

Lemma outcomes_impl {A} (P Q : A -> Prop) (p : Prog A) :
  (∀ a, P a → Q a) → outcomes h P p → outcomes h Q p.
Proof. intros HPQ Hp w a Ha. apply HPQ, (Hp w a Ha). Qed.

(** [filter] with a predicate that performs calls keeps a sublist. *)
Lemma filterM_sublist {A} (p : A -> Prog bool) (xs : list A) :
  outcomes h (fun ys => ys `sublist_of` xs) (filterM p xs).
Proof.
  induction xs as [| x xs IH]; cbn [filterM].
  - apply outcomes_ret. constructor.
  - unfold_prog. eapply outcomes_bind; [apply outcomes_any |]. intros keep _.
    eapply outcomes_bind; [apply IH |]. intros rest Hrest.
    apply outcomes_ret. destruct keep; constructor; exact Hrest.
Qed.

End OutcomeFacts.

(** ** The review adapters *)

Section AdapterFacts.

Context {W : Type} (h : Handler W).
Variable cfg : Config.
Variable Date_parse : string -> option Z.
Variable setDateBack : Z -> Z -> Z.
Variable createClient : string -> string -> bool.

Lemma filterReviews_sublist {R} (rate : R -> Z) (date : R -> string) reviews :
  outcomes h (fun kept => kept `sublist_of` reviews ∧
                          Forall (fun r => (rate r <= MAX_REVIEW_RATING cfg)%Z) kept)
    (filterReviews cfg Date_parse setDateBack rate date reviews).
Proof.
  unfold filterReviews. eapply outcomes_impl; [| apply filterM_sublist].
  intros kept Hkept. split.
  - etrans; [exact Hkept | apply sublist_filter].
  - apply Forall_forall. intros r Hr.
    eapply elem_of_sublist in Hr; [| exact Hkept].
    apply list_elem_of_filter in Hr as [Hrate _]. exact Hrate.
Qed.

Lemma fetchTripAdvisorReviews_result locationId (w : W) :
  ∃ reviews,
    outcome (interp h (fetchTripAdvisorReviews cfg Date_parse setDateBack locationId) w)
      = Returned reviews ∧
    reviews `sublist_of` sentReviews (h _ (TripAdvisorReviews locationId) w).1 ∧
    length reviews ≤ MAX_REVIEWS_PER_HOTEL cfg ∧
    Forall (fun r => (ta_rating r <= MAX_REVIEW_RATING cfg)%Z) reviews.
Proof.
  unfold fetchTripAdvisorReviews. unfold_prog. cbn [bind interp outcome].
  destruct (h _ (TripAdvisorReviews locationId) w).1 as [| status body];
    cbn [bind interp outcome sentReviews].
  { exists []. split; [reflexivity |]. split; [apply sublist_nil_l |].
    split; [cbn; lia | constructor]. }
  destruct body as [[reviews |] |]; destruct (ok status); cbn [negb bind interp outcome];
    try (exists []; split; [reflexivity |]; split; [apply sublist_nil_l |];
         split; [cbn; lia | constructor]).
  destruct (filterReviews_returns h cfg Date_parse setDateBack ta_rating ta_published_date
              reviews (h _ (TripAdvisorReviews locationId) w).2) as [kept Hkept].
  destruct (filterReviews_sublist ta_rating ta_published_date reviews _ _ Hkept)
    as [Hsub Hrate].
  destruct (interp_bind_returned h _
              (fun kept => Ret (take (MAX_REVIEWS_PER_HOTEL cfg) kept)) _ _ Hkept)
    as (Hout & _ & _).
  exists (take (MAX_REVIEWS_PER_HOTEL cfg) kept). split; [exact Hout |]. split; [| split].
  - etrans; [apply sublist_take | exact Hsub].
  - rewrite length_take. lia.
  - apply Forall_take, Hrate.
Qed.

Lemma fetchGoogleReviewsAll_result placeId hotelName (w : W) :
  outcome (interp h (fetchGoogleReviewsAll cfg placeId hotelName) w)
  = Returned (googleToUnified <$>
                take (MAX_REVIEWS_PER_HOTEL cfg)
                  (sentReviews (h _ (GooglePlaceDetails placeId) w).1)).
Proof.
  unfold fetchGoogleReviewsAll. unfold_prog. cbn [bind interp outcome].
  destruct (h _ (GooglePlaceDetails placeId) w).1 as [| status body];
    cbn [sentReviews]; [rewrite take_nil; reflexivity |].
  destruct body as [[reviews |] |]; destruct (ok status); cbn [negb];
    rewrite ?take_nil; reflexivity.
Qed.

End AdapterFacts.

(** ** The number of reviews that a venue contributes *)

Section CostFacts.

Context {W : Type} (h : Handler W).
Variable cfg : Config.
Variable JSON_parse : string -> option json.
Variable Date_parse : string -> option Z.
Variable setDateBack : Z -> Z -> Z.
Variable createClient : string -> string -> bool.

Lemma fetchTripAdvisorReviews_capped locationId :
  outcomes h (fun reviews => length reviews ≤ MAX_REVIEWS_PER_HOTEL cfg)
    (fetchTripAdvisorReviews cfg Date_parse setDateBack locationId).
Proof.
  intros w reviews Hout.
  destruct (fetchTripAdvisorReviews_result h cfg Date_parse setDateBack locationId w)
    as (reviews' & Hout' & _ & Hlen & _).
  congruence.
Qed.

Lemma reviewsOfHotel_capped hotel :
  outcomes h (fun reviews => length reviews ≤ MAX_REVIEWS_PER_HOTEL cfg)
    (reviewsOfHotel cfg Date_parse setDateBack hotel).
Proof.
  unfold reviewsOfHotel.
  destruct (google_place_id hotel) as [[| a s] |];
    try (apply outcomes_ret; cbn; lia).
  unfold reviewsOfPlace. unfold_prog. cbn [bind].
  apply outcomes_vis. intros _.
  eapply outcomes_bind; [apply outcomes_any |]. intros [location |] _.
  - cbn [bind]. apply outcomes_vis. intros _.
    eapply outcomes_bind; [apply fetchTripAdvisorReviews_capped |].
    intros reviews Hlen. apply outcomes_ret.
    unfold convertTripAdvisorToUnified. rewrite length_fmap. exact Hlen.
  - eapply (outcomes_bind h (fun reviews => length reviews ≤ MAX_REVIEWS_PER_HOTEL cfg)).
    { intros w reviews. rewrite fetchGoogleReviewsAll_result. intros [= <-].
      rewrite length_fmap, length_take. lia. }
    intros [| review reviews] Hlen; [apply outcomes_ret; cbn; lia |].
    eapply outcomes_impl; [| apply filterReviews_sublist].
    intros kept [Hsub _]. apply sublist_length in Hsub. lia.
Qed.

Lemma reviewsOfTopHotel_capped hotel :
  outcomes h (fun reviews => length reviews ≤ MAX_REVIEWS_PER_HOTEL cfg)
    (reviewsOfTopHotel cfg Date_parse setDateBack hotel).
Proof.
  unfold reviewsOfTopHotel. unfold_prog. cbn [bind].
  apply outcomes_vis. intros _.
  eapply outcomes_bind; [apply fetchTripAdvisorReviews_capped |].
  intros reviews Hlen. apply outcomes_ret.
  unfold convertTripAdvisorToUnified. rewrite length_fmap. exact Hlen.
Qed.

(** One lookup for each review of the loop. *)
Lemma processReviews_lookups systemPrompt hotelName reviews c (w : W) :
  countOf isLookup
    (trace (interp h (processReviews cfg JSON_parse systemPrompt hotelName reviews c) w))
  = length reviews.
Proof.
  unfold processReviews. revert c w.
  induction reviews as [| review reviews IH]; intros c w; cbn [forEach]; [reflexivity |].
  unfold_prog. rewrite interp_bind. unfold andThen.
  pose proof (processReview_accounts h cfg JSON_parse systemPrompt hotelName review c w)
    as Hout.
  assert (countOf isLookup
            (trace (interp h (processReview cfg JSON_parse systemPrompt hotelName review c) w))
          = 1) as Hone.
  { unfold processReview, checkExistingReport, shouldBeAnonymous,
      transformReviewToSafetyInsight, upsertReport.
    unfold_prog. cbn [bind interp trace outcome world].
    destruct (h _ (SelectReportByReviewId (id review)) w).1 as [[| row rows] |];
      reflexivity. }
  rewrite Hout. cbn [trace length]. rewrite countOf_app, Hone, IH. reflexivity.
Qed.

Lemma venue_lookups (p : Prog (list UnifiedReview))
    (body : Prog Counters) (f : list UnifiedReview -> Prog Counters) (w : W) :
  interp h body w = andThen h (interp h p w) f →
  always h uncounted p →
  outcomes h (fun reviews => length reviews ≤ MAX_REVIEWS_PER_HOTEL cfg) p →
  (∀ reviews w', countOf isLookup (trace (interp h (f reviews) w')) = length reviews) →
  countOf isLookup (trace (interp h body w)) ≤ MAX_REVIEWS_PER_HOTEL cfg.
Proof.
  intros -> Hquiet Hcap Hf. unfold andThen.
  pose proof (tally_uncounted _ (Hquiet w)) as Hzero.
  apply (f_equal totalReviews) in Hzero. cbn in Hzero.
  destruct (outcome (interp h p w)) as [reviews | code] eqn:Hout; cbn [trace].
  - rewrite countOf_app, Hzero, Hf. apply (Hcap w reviews Hout).
  - lia.
Qed.

Lemma processHotel_lookups systemPrompt hotel c (w : W) :
  countOf isLookup
    (trace (interp h (processHotel cfg JSON_parse Date_parse setDateBack
                        systemPrompt hotel c) w))
  ≤ MAX_REVIEWS_PER_HOTEL cfg.
Proof.
  eapply venue_lookups.
  - apply processHotel_split.
  - apply upstream_uncounted, reviewsOfHotel_upstream. auto.
  - apply reviewsOfHotel_capped.
  - intros. apply processReviews_lookups.
Qed.

Lemma processTopHotel_lookups systemPrompt hotel c (w : W) :
  countOf isLookup
    (trace (interp h (processTopHotel cfg JSON_parse Date_parse setDateBack
                        systemPrompt hotel c) w))
  ≤ MAX_REVIEWS_PER_HOTEL cfg.
Proof.
  eapply venue_lookups.
  - apply processTopHotel_split.
  - apply upstream_uncounted, reviewsOfTopHotel_upstream. auto.
  - apply reviewsOfTopHotel_capped.
  - intros. apply processReviews_lookups.
Qed.

Lemma forEach_count {A S} (f : Event -> bool) (n : nat)
    (body : A -> S -> Prog S) (xs : list A) (s : S) (w : W) :
  (∀ x s' w', countOf f (trace (interp h (body x s') w')) ≤ n) →
  countOf f (trace (interp h (forEach xs body s) w)) ≤ n * length xs.
Proof.
  intros Hbody. revert s w. induction xs as [| x xs IH]; intros s w; cbn [forEach length].
  - cbn. lia.
  - unfold_prog. rewrite interp_bind. unfold andThen.
    specialize (Hbody x s w).
    destruct (outcome (interp h (body x s) w)) as [s' | code]; cbn [trace].
    + rewrite countOf_app. specialize (IH s' (world (interp h (body x s) w))). lia.
    + lia.
Qed.

End CostFacts.

(** X6.  A venue contributes at most [MAX_REVIEWS_PER_HOTEL] reviews to
    a run, whichever provider serves it: the loop of [ingest-hotel-data.ts]
    over a cohort makes at most [MAX_REVIEWS_PER_HOTEL] lookups, and so at
    most that many model calls, per venue of the cohort, and a run of
    [ingest-top-hotels.ts] with its settings makes at most 200 model
    calls. *)
Theorem model_calls_are_bounded_by_the_cap_per_venue
    {W} (h : Handler W) (w : W) (cfg : Config) (JSON_parse : string → option json)
    (Date_parse : string → option Z) (setDateBack : Z → Z → Z)
    (createClient : string → string → bool)
    (systemPrompt : string) (dbHotels : list DatabaseHotel) (env : ProcessEnv) :
  let cohort := interp h (processCohort cfg JSON_parse Date_parse setDateBack
                            systemPrompt dbHotels) w in
  let top := interp h (runIngestionTop (CONFIG_top env) JSON_parse Date_parse
                         setDateBack createClient) w in
  countOf isLookup (trace cohort) ≤ MAX_REVIEWS_PER_HOTEL cfg * length dbHotels ∧
  countOf isChat (trace cohort) ≤ MAX_REVIEWS_PER_HOTEL cfg * length dbHotels ∧
  countOf isChat (trace top) ≤ 200.
Proof.
  intros cohort top.
  assert (Hcohort : countOf isLookup (trace cohort)
                    ≤ MAX_REVIEWS_PER_HOTEL cfg * length dbHotels).
  { apply forEach_count. intros. apply processHotel_lookups. }
  assert (Hbalance : ∀ cfg' s w',
            countOf isChat (trace (interp h (runScript cfg' JSON_parse Date_parse
                                               setDateBack createClient s) w'))
            ≤ countOf isLookup (trace (interp h (runScript cfg' JSON_parse Date_parse
                                                   setDateBack createClient s) w'))).
  { intros cfg' s w'.
    destruct (protocol_balance cfg' JSON_parse _
                (runScript_protocol h cfg' JSON_parse Date_parse setDateBack createClient
                   s w')). lia. }
  split; [exact Hcohort |]. split.
  - assert (Hprotocol : traces h (protocol cfg JSON_parse)
                          (processCohort cfg JSON_parse Date_parse setDateBack
                             systemPrompt dbHotels)).
    { apply traces_forEach; [constructor | apply protocol_app |].
      intros. apply processHotel_protocol. }
    destruct (protocol_balance cfg JSON_parse _ (Hprotocol w)) as [Hchat Hinsert].
    subst cohort. lia.
  - etrans; [apply (Hbalance (CONFIG_top env) IngestTopHotels w) |].
    subst top. cbn [runScript]. unfold runIngestionTop.
    destruct (missingKeys (CONFIG_top env)); [| cbn; lia].
    unfold_prog. rewrite interp_bind. unfold andThen.
    pose proof (tally_uncounted _
                  (Forall_impl _ _ _ (loadSystemPrompt_plain h w) plain_uncounted)) as Hzero.
    apply (f_equal totalReviews) in Hzero. cbn [tally totalReviews noCounters] in Hzero.
    destruct (outcome (interp h loadSystemPrompt w)) as [prompt | code]; cbn [trace];
      [| lia].
    rewrite countOf_app, Hzero. unfold createSupabaseClient.
    destruct (createClient _ _); cbn [bind interp trace]; [| cbn; lia].
    etrans; [apply forEach_count; intros; apply processTopHotel_lookups |].
    cbn. lia.
Qed.

(** ** The venues that a run attempts *)

Section CoverageFacts.

Context {W : Type} (h : Handler W).
Variable cfg : Config.
Variable JSON_parse : string -> option json.
Variable Date_parse : string -> option Z.
Variable setDateBack : Z -> Z -> Z.
Variable createClient : string -> string -> bool.

Lemma omap_none {B} (f : Event -> option B) t :
  Forall (fun ev => f ev = None) t → omap f t = [].
Proof.
  induction 1 as [| ev t Hev _ IH]; [reflexivity |].
  cbn [omap list_omap]. rewrite Hev. exact IH.
Qed.

Lemma plain_no_request ev :
  plain ev → searchOfEvent ev = None ∧ reviewsRequestOfEvent ev = None.
Proof.
  intros (_ & _ & Hthrottled). destruct ev as [X c x].
  destruct c; cbn in *; try discriminate; auto.
Qed.

Lemma plain_requests {A} (p : Prog A) (w : W) :
  always h plain p →
  omap searchOfEvent (trace (interp h p w)) = [] ∧
  omap reviewsRequestOfEvent (trace (interp h p w)) = [].
Proof.
  intros Hp. split; apply omap_none; (eapply Forall_impl; [apply Hp |]);
    intros ev Hev; apply plain_no_request, Hev.
Qed.

Lemma processReview_no_search systemPrompt hotelName review c :
  always h (fun ev => searchOfEvent ev = None)
    (processReview cfg JSON_parse systemPrompt hotelName review c).
Proof.
  unfold processReview, checkExistingReport, shouldBeAnonymous,
    transformReviewToSafetyInsight, upsertReport.
  always_walk ltac:(fail) ltac:(reflexivity).
Qed.

Lemma processReview_no_request systemPrompt hotelName review c :
  always h (fun ev => reviewsRequestOfEvent ev = None)
    (processReview cfg JSON_parse systemPrompt hotelName review c).
Proof.
  unfold processReview, checkExistingReport, shouldBeAnonymous,
    transformReviewToSafetyInsight, upsertReport.
  always_walk ltac:(fail) ltac:(reflexivity).
Qed.

Lemma processHotel_searches systemPrompt hotel c (w : W) :
  omap searchOfEvent
    (trace (interp h (processHotel cfg JSON_parse Date_parse setDateBack
                        systemPrompt hotel c) w))
  = if hasUsablePlaceId hotel then [name hotel] else [].
Proof.
  unfold processHotel, hasUsablePlaceId.
  destruct (google_place_id hotel) as [[| a s] |]; try reflexivity.
  unfold processPlace, searchHotelTripAdvisor. unfold_prog.
  cbn [bind interp trace omap list_omap searchOfEvent]. f_equal.
  apply omap_none.
  match goal with |- Forall ?Q (trace (interp _ ?p _)) =>
    cut (always h Q p); [intros Hall; apply Hall |] end.
  unfold fetchGoogleReviewsAll, fetchTripAdvisorReviews, filterReviews,
    isReviewWithinDateLimit, processReviews.
  always_walk ltac:(apply processReview_no_search) ltac:(reflexivity).
Qed.

Lemma processTopHotel_requests systemPrompt hotel c (w : W) :
  omap reviewsRequestOfEvent
    (trace (interp h (processTopHotel cfg JSON_parse Date_parse setDateBack
                        systemPrompt hotel c) w))
  = [tripAdvisorId hotel].
Proof.
  unfold processTopHotel, fetchTripAdvisorReviews. unfold_prog.
  cbn [bind interp trace omap list_omap reviewsRequestOfEvent]. f_equal.
  apply omap_none.
  match goal with |- Forall ?Q (trace (interp _ ?p _)) =>
    cut (always h Q p); [intros Hall; apply Hall |] end.
  unfold filterReviews, isReviewWithinDateLimit, processReviews.
  always_walk ltac:(apply processReview_no_request) ltac:(reflexivity).
Qed.

Lemma forEach_requests {A S B} (f : Event -> option B) (g : A -> list B)
    (body : A -> S -> Prog S) (xs : list A) (s : S) (w : W) :
  (∀ x s', returns h (body x s')) →
  (∀ x s' w', omap f (trace (interp h (body x s') w')) = g x) →
  omap f (trace (interp h (forEach xs body s) w)) = concat (g <$> xs).
Proof.
  intros Hreturns Hbody. revert s w.
  induction xs as [| x xs IH]; intros s w; cbn [forEach]; [reflexivity |].
  unfold_prog. rewrite interp_bind. unfold andThen.
  destruct (Hreturns x s w) as [s' Hs']. rewrite Hs'. cbn [trace].
  rewrite omap_app, Hbody, IH. reflexivity.
Qed.

Lemma usable_names (dbHotels : list DatabaseHotel) :
  concat ((fun hotel => if hasUsablePlaceId hotel then [name hotel] else []) <$> dbHotels)
  = name <$> List.filter hasUsablePlaceId dbHotels.
Proof.
  induction dbHotels as [| hotel rest IH]; [reflexivity |].
  cbn [fmap list_fmap concat List.filter]. cbn [fmap] in IH. rewrite IH.
  destruct (hasUsablePlaceId hotel); reflexivity.
Qed.

End CoverageFacts.

(** X7.  Once the settings are complete, the prompt is loaded and the
    client of the store is created, a run attempts every venue of its
    cohort once and in the order of the cohort, whatever fails on the way:
    the searches of a run of [ingest-hotel-data.ts] are the names of the
    venues selected that have a place id, and the review fetches of a run
    of [ingest-top-hotels.ts] are the ten locations of [TOP_HOTELS]. *)
Theorem every_venue_is_attempted_once_in_order
    {W} (h : Handler W) (w : W) (cfg : Config) (JSON_parse : string → option json)
    (Date_parse : string → option Z) (setDateBack : Z → Z → Z)
    (createClient : string → string → bool) (prompt : string) :
  missingKeys cfg = [] →
  outcome (interp h loadSystemPrompt w) = Returned prompt →
  createClient (SUPABASE_URL cfg) (SUPABASE_SERVICE_KEY cfg) = true →
  (∀ cmd dbHotels,
     outcome (interp h (selectCohort cfg cmd) (world (interp h loadSystemPrompt w)))
       = Returned dbHotels →
     omap searchOfEvent
       (trace (interp h (runIngestion cfg JSON_parse Date_parse setDateBack
                           createClient cmd) w))
     = name <$> List.filter hasUsablePlaceId dbHotels) ∧
  omap reviewsRequestOfEvent
    (trace (interp h (runIngestionTop cfg JSON_parse Date_parse setDateBack
                        createClient) w))
  = tripAdvisorId <$> TOP_HOTELS.
Proof.
  intros Hkeys Hprompt Hclient.
  destruct (plain_requests h loadSystemPrompt w (loadSystemPrompt_plain h))
    as [Hsearch Hrequest].
  split.
  - intros cmd dbHotels Hcohort. unfold runIngestion, createSupabaseClient.
    rewrite Hkeys, Hclient. unfold_prog.
    rewrite interp_bind. unfold andThen. rewrite Hprompt. cbn [trace].
    rewrite omap_app, Hsearch. cbn [app bind].
    rewrite interp_bind. unfold andThen. rewrite Hcohort. cbn [trace].
    rewrite omap_app.
    destruct (plain_requests h (selectCohort cfg cmd)
                (world (interp h loadSystemPrompt w)) (selectCohort_plain h cfg cmd))
      as [-> _].
    cbn [app]. destruct dbHotels as [| hotel rest]; [reflexivity |].
    rewrite <- usable_names. apply forEach_requests.
    + intros. apply processHotel_returns.
    + intros. apply processHotel_searches.
  - unfold runIngestionTop, createSupabaseClient. rewrite Hkeys, Hclient. unfold_prog.
    rewrite interp_bind. unfold andThen. rewrite Hprompt. cbn [trace].
    rewrite omap_app, Hrequest. cbn [app bind].
    rewrite (forEach_requests h reviewsRequestOfEvent (fun hotel => [tripAdvisorId hotel])).
    + reflexivity.
    + intros. apply processTopHotel_returns.
    + intros. apply processTopHotel_requests.
Qed.

(** ** Binary64 arithmetic *)

Section NumberFacts.

Lemma digits2_pos_size (p : positive) : digits2_pos p = Pos.size p.
Proof. induction p as [p IH | p IH |]; cbn; [rewrite IH | rewrite IH |]; reflexivity. Qed.

Lemma digits2_pos_bounds (p : positive) :
  (2 ^ (Z.pos (digits2_pos p) - 1) <= Z.pos p < 2 ^ Z.pos (digits2_pos p))%Z.
Proof.
  rewrite digits2_pos_size. split.
  - pose proof (Pos.size_le p) as Hle.
    apply Pos2Z.pos_le_pos in Hle. rewrite Pos2Z.inj_pow in Hle.
    change (Z.pos p~0) with (2 * Z.pos p)%Z in Hle.
    assert (Heq : (Z.pos (Pos.size p) = Z.succ (Z.pos (Pos.size p) - 1))%Z) by lia.
    rewrite Heq in Hle at 1.
    rewrite Z.pow_succ_r in Hle by lia. lia.
  - pose proof (Pos.size_gt p) as Hgt.
    apply Pos2Z.pos_lt_pos in Hgt. rewrite Pos2Z.inj_pow in Hgt. exact Hgt.
Qed.

Lemma iter_pos_nat {A} (f : A -> A) (p : positive) (x : A) :
  SpecFloat.iter_pos f p x = Nat.iter (Pos.to_nat p) f x.
Proof.
  revert x. induction p as [p IH | p IH |]; intros x; cbn [SpecFloat.iter_pos].
  - rewrite !IH, Pos2Nat.inj_xI, <- Nat.iter_add, <- Nat.iter_succ_r. f_equal; lia.
  - rewrite !IH, Pos2Nat.inj_xO, <- Nat.iter_add. f_equal; lia.
  - reflexivity.
Qed.

Local Open Scope Z_scope.

Lemma shr_1_spec (mrs : shr_record) :
  0 <= shr_m mrs →
  shr_m (shr_1 mrs) = shr_m mrs / 2 ∧ shr_r (shr_1 mrs) = Z.odd (shr_m mrs).
Proof.
  destruct mrs as [m r s]. cbn [shr_m]. intros Hm.
  destruct m as [| p | p]; [split; reflexivity | | lia].
  destruct p as [p | p |]; cbn [shr_1 shr_m shr_r]; (split; [| reflexivity]).
  - apply Z.div_unique with 1; lia.
  - apply Z.div_unique with 0; lia.
  - reflexivity.
Qed.

Lemma shr_iter (m : Z) (n : nat) :
  0 <= m →
  let mrs := Nat.iter n shr_1 {| shr_m := m; shr_r := false; shr_s := false |} in
  shr_m mrs = m / 2 ^ Z.of_nat n ∧
  (shr_r mrs = true → 2 ^ Z.of_nat n <= 2 * (m mod 2 ^ Z.of_nat n)).
Proof.
  intros Hm. induction n as [| n [IHm IHr]]; cbn zeta.
  - cbn. split; [symmetry; apply Z.div_1_r | discriminate].
  - change (Nat.iter (S n) shr_1 ?x) with (shr_1 (Nat.iter n shr_1 x)).
    cbn zeta in IHm, IHr. set (mrs := Nat.iter n shr_1 _) in *.
    assert (Hpow : 0 < 2 ^ Z.of_nat n) by (apply Z.pow_pos_nonneg; lia).
    destruct (shr_1_spec mrs) as [Hm' Hr'].
    { rewrite IHm. apply Z.div_pos; lia. }
    rewrite Hm', Hr', IHm, Nat2Z.inj_succ, Z.pow_succ_r by lia.
    split.
    + rewrite Z.div_div by lia. f_equal; lia.
    + intros Hodd. rewrite (Z.mul_comm 2 (2 ^ Z.of_nat n)) at 2.
      rewrite Z.rem_mul_r by lia.
      rewrite Zmod_odd, Hodd.
      pose proof (Z.mod_pos_bound m (2 ^ Z.of_nat n) Hpow). lia.
Qed.

Lemma shr_spec (m e n : Z) :
  0 <= m →
  let r := shr {| shr_m := m; shr_r := false; shr_s := false |} e n in
  r.2 = e + Z.max n 0 ∧
  shr_m r.1 = m / 2 ^ Z.max n 0 ∧
  (shr_r r.1 = true → 0 < n ∧ 2 ^ n <= 2 * (m mod 2 ^ n)).
Proof.
  intros Hm. destruct n as [| p | p]; cbn [shr fst snd shr_m shr_r].
  - rewrite Z.add_0_r. split; [reflexivity |]. split; [symmetry; apply Z.div_1_r | discriminate].
  - rewrite iter_pos_nat. destruct (shr_iter m (Pos.to_nat p) Hm) as [Hq Hr].
    rewrite positive_nat_Z in Hq, Hr.
    replace (Z.max (Z.pos p) 0) with (Z.pos p) by lia.
    split; [reflexivity |]. split; [exact Hq |]. intros Htrue. split; [lia | auto].
  - replace (Z.max (Z.neg p) 0) with 0 by lia. rewrite Z.add_0_r.
    split; [reflexivity |]. split; [symmetry; apply Z.div_1_r | discriminate].
Qed.

Lemma round_nearest_even_bounds (mrs : shr_record) :
  shr_m mrs <= round_nearest_even (shr_m mrs) (loc_of_shr_record mrs)
            <= shr_m mrs + (if shr_r mrs then 1 else 0).
Proof.
  destruct mrs as [m [] []]; cbn; try destruct (Z.even m); lia.
Qed.

Lemma fexp_binary64 (e : Z) : fexp 53 1024 e = Z.max (e - 53) (-1074).
Proof. reflexivity. Qed.

Lemma Zdigits2_small (z : Z) : 0 <= z <= 2 ^ 53 → Zdigits2 z <= 54.
Proof.
  intros [Hlow Hhigh]. destruct z as [| p | p]; cbn [Zdigits2]; [lia | | lia].
  destruct (Z.le_gt_cases (Z.pos (digits2_pos p)) 54) as [Hle | Hgt]; [exact Hle |].
  exfalso. destruct (digits2_pos_bounds p) as [Hbound _].
  assert (2 ^ 54 <= 2 ^ (Z.pos (digits2_pos p) - 1)) by (apply Z.pow_le_mono_r; lia).
  assert (2 ^ 53 < 2 ^ 54) by (apply Z.pow_lt_mono_r; lia). lia.
Qed.

(** The rounding of [P * 2^E] to binary64. *)
Lemma binary_round_aux_spec (sx : bool) (P : positive) (E : Z) :
  let s := fexp 53 1024 (Z.pos (digits2_pos P) + E) - E in
  ∃ m e,
    binary_round_aux 53 1024 sx (Z.pos P) E loc_Exact =
      match m with
      | Z0 => S754_zero sx
      | Z.pos q => if e <=? 971 then S754_finite sx q e else S754_infinity sx
      | Z.neg _ => S754_nan
      end ∧
    0 <= m ∧
    E + Z.max s 0 <= e <= E + Z.max s 0 + 1 ∧
    (s <= 0 → m = Z.pos P ∧ e = E) ∧
    (0 < s → 2 * (m * 2 ^ (e - E)) <= 2 * Z.pos P + 2 ^ s).
Proof.
  intros s. unfold binary_round_aux, shr_fexp.
  cbn [Zdigits2 shr_record_of_loc]. fold s.
  destruct (digits2_pos_bounds P) as [Hdlow Hdhigh].
  set (d := Z.pos (digits2_pos P)) in *.
  assert (Hs : s = Z.max (d + E - 53) (-1074) - E) by reflexivity.
  pose proof (shr_spec (Z.pos P) E s ltac:(lia)) as H1. cbn zeta in H1.
  destruct (shr {| shr_m := Z.pos P; shr_r := false; shr_s := false |} E s)
    as [mrs' e'] eqn:Hshr1.
  cbn [fst snd] in H1. destruct H1 as (He' & Hq & Hr).
  pose proof (round_nearest_even_bounds mrs') as Hq'.
  set (q' := round_nearest_even (shr_m mrs') (loc_of_shr_record mrs')) in *.
  assert (Hpow : 0 < 2 ^ Z.max s 0) by (apply Z.pow_pos_nonneg; lia).
  assert (Hq0 : 0 <= shr_m mrs') by (rewrite Hq; apply Z.div_pos; lia).
  assert (Hq'0 : 0 <= q') by lia.
  (* the mantissa after the first shift has at most 53 digits, 54 after rounding *)
  assert (Hq'53 : q' <= 2 ^ 53 ∧ (s <= 0 → q' = Z.pos P ∧ d <= 53)).
  { destruct (Z.le_gt_cases s 0) as [Hneg | Hpos].
    - assert (shr_r mrs' = false) as Hfalse
        by (destruct (shr_r mrs'); [destruct (Hr eq_refl); lia | reflexivity]).
      rewrite Hfalse in Hq'. replace (Z.max s 0) with 0 in Hq by lia.
      rewrite Z.div_1_r in Hq.
      assert (d <= 53) by lia.
      assert (2 ^ d <= 2 ^ 53) by (apply Z.pow_le_mono_r; lia).
      split; [lia |]. intros _. split; lia.
    - split; [| lia]. replace (Z.max s 0) with s in Hq by lia.
      assert (Z.pos P < 2 ^ s * 2 ^ 53).
      { rewrite <- Z.pow_add_r by lia.
        eapply Z.lt_le_trans; [exact Hdhigh |]. apply Z.pow_le_mono_r; lia. }
      assert (shr_m mrs' < 2 ^ 53).
      { rewrite Hq. apply Z.div_lt_upper_bound; [apply Z.pow_pos_nonneg; lia | assumption]. }
      destruct (shr_r mrs'); lia. }
  destruct Hq'53 as [Hq'53 Hexact].
  pose proof (Zdigits2_small q' ltac:(lia)) as Hd'.
  assert (Hd'0 : 0 <= Zdigits2 q') by (destruct q'; cbn; lia).
  set (t := fexp 53 1024 (Zdigits2 q' + e') - e') in *.
  assert (Ht : t = Z.max (Zdigits2 q' + e' - 53) (-1074) - e') by reflexivity.
  pose proof (shr_spec q' e' t Hq'0) as H2. cbn zeta in H2.
  destruct (shr {| shr_m := q'; shr_r := false; shr_s := false |} e' t)
    as [mrs'' e''] eqn:Hshr2.
  cbn [fst snd] in H2. destruct H2 as (He'' & Hm & _).
  exists (shr_m mrs''), e''.
  assert (Hpow' : 0 < 2 ^ Z.max t 0) by (apply Z.pow_pos_nonneg; lia).
  split; [destruct (shr_m mrs''); reflexivity |].
  split; [rewrite Hm; apply Z.div_pos; lia |].
  split; [lia |]. split.
  - intros Hneg. destruct (Hexact Hneg) as [HqP Hd53].
    assert (t <= 0).
    { rewrite Ht, HqP. cbn [Zdigits2]. fold d. lia. }
    replace (Z.max t 0) with 0 in * by lia.
    rewrite Z.div_1_r in Hm. split; lia.
  - intros Hpos. replace (Z.max s 0) with s in * by lia.
    replace (e'' - E) with (s + Z.max t 0) by lia.
    rewrite Z.pow_add_r by lia.
    assert (Hfloor : shr_m mrs'' * 2 ^ Z.max t 0 <= q').
    { rewrite Hm, Z.mul_comm. apply Z.mul_div_le. lia. }
    assert (Hround : 2 * (q' * 2 ^ s) <= 2 * Z.pos P + 2 ^ s).
    { pose proof (Z.div_mod (Z.pos P) (2 ^ s) ltac:(lia)) as Hdm.
      pose proof (Z.mod_pos_bound (Z.pos P) (2 ^ s) ltac:(lia)) as Hmod.
      rewrite <- Hq in Hdm.
      destruct (shr_r mrs'); [destruct (Hr eq_refl) as [_ Hhalf] |]; nia. }
    nia.
Qed.

(** The integer part of the product of a number below 1 and a number
    whose value is the positive integer [n] is below [n]. *)
Lemma mul_floor_below (mx : positive) (ex : Z) (my : positive) (ey n : Z) :
  Z.pos mx < 2 ^ 53 → ex < 0 → Z.pos mx < 2 ^ (- ex) →
  ey <= 0 → Z.pos my = n * 2 ^ (- ey) → 0 < n < 2 ^ 53 →
  ∃ j, Num.floor (Num.mul (S754_finite false mx ex) (S754_finite false my ey)) = Some j ∧
       0 <= j < n.
Proof.
  intros Hmx Hex Hunit Hey Hmy Hn.
  unfold Num.mul, SFmul, Num.prec, Num.emax. cbn [xorb].
  set (P := (mx * my)%positive). set (E := ex + ey).
  destruct (binary_round_aux_spec false P E) as (m & e & -> & Hm & He & Hexact & Hround).
  set (s := fexp 53 1024 (Z.pos (digits2_pos P) + E) - E) in *.
  destruct (digits2_pos_bounds P) as [Hdlow Hdhigh].
  set (d := Z.pos (digits2_pos P)) in *.
  assert (Hs : s = Z.max (d + E - 53) (-1074) - E) by reflexivity.
  set (X := 2 ^ (- ex)) in *. set (Y := 2 ^ (- ey)) in *. set (T := 2 ^ 53) in *.
  assert (HX : 0 < X) by (apply Z.pow_pos_nonneg; lia).
  assert (HY : 0 < Y) by (apply Z.pow_pos_nonneg; lia).
  assert (HT : 0 < T) by (apply Z.pow_pos_nonneg; lia).
  assert (HXY : 2 ^ (- E) = X * Y).
  { unfold X, Y, E. rewrite <- Z.pow_add_r by lia. f_equal; lia. }
  set (B := n * (X * Y)).
  assert (HP : Z.pos P = Z.pos mx * Z.pos my) by reflexivity.
  assert (HPB : Z.pos P < B) by (unfold B; nia).
  (* the draw is at most [1 - 2^-53] *)
  assert (Hdraw : Z.pos mx * T <= X * (T - 1)).
  { destruct (Z.le_ge_cases 53 (- ex)) as [Hbig | Hsmall].
    - assert (T <= X) by (apply Z.pow_le_mono_r; lia). nia.
    - assert (X <= T) by (apply Z.pow_le_mono_r; lia). nia. }
  assert (Hgap : B <= (B - Z.pos P) * T) by (unfold B; nia).
  (* the exponent of the product *)
  assert (HdE : d + E <= 53).
  { destruct (Z.le_gt_cases (d + E) 53) as [Hle | Hgt]; [exact Hle |]. exfalso.
    assert (2 ^ (53 - E) <= 2 ^ (d - 1)) by (apply Z.pow_le_mono_r; lia).
    assert (2 ^ (53 - E) = T * (X * Y)).
    { rewrite <- HXY. unfold T. rewrite <- Z.pow_add_r by lia. f_equal; lia. }
    unfold B in HPB. nia. }
  (* the value rounded is below [n] *)
  assert (Hbelow : m * 2 ^ (e - E) < B).
  { destruct (Z.le_gt_cases s 0) as [Hneg | Hpos].
    - destruct (Hexact Hneg) as [-> ->]. rewrite Z.sub_diag, Z.mul_1_r. exact HPB.
    - specialize (Hround Hpos).
      assert (Hhalf : 2 ^ s * T < 2 * B).
      { assert (2 ^ s * T = 2 * 2 ^ (s + 52)) as ->.
        { unfold T. rewrite <- Z.pow_add_r, <- Z.pow_succ_r by lia. f_equal; lia. }
        destruct (Z.le_ge_cases (-1074) (d + E - 53)) as [Hnormal | Hsub].
        + replace (s + 52) with (d - 1) by lia. lia.
        + replace (s + 52) with (-1022 - E) by lia.
          assert (2 ^ (-1022 - E) < 2 ^ (- E)) by (apply Z.pow_lt_mono_r; lia).
          rewrite HXY in *. unfold B. nia. }
      nia. }
  assert (Hpow : 0 < 2 ^ (e - E)) by (apply Z.pow_pos_nonneg; lia).
  destruct m as [| q | q]; [exists 0; cbn; split; [reflexivity | lia] | | lia].
  assert (e <= 971) as Hfinite by lia.
  apply Z.leb_le in Hfinite. rewrite Hfinite. cbn [Num.floor cond_Zopp].
  eexists. split; [reflexivity |].
  split; [apply Z.shiftl_nonneg; lia |].
  destruct (Z.le_gt_cases e 0) as [Hle | Hgt].
  - rewrite Z.shiftl_div_pow2 by exact Hle.
    apply Z.div_lt_upper_bound; [apply Z.pow_pos_nonneg; lia |].
    assert (2 ^ (- e) * 2 ^ (e - E) = X * Y).
    { rewrite <- HXY, <- Z.pow_add_r by lia. f_equal; lia. }
    unfold B in Hbelow.
    assert (0 < 2 ^ (- e)) by (apply Z.pow_pos_nonneg; lia). nia.
  - rewrite Z.shiftl_mul_pow2 by lia.
    assert (2 ^ (e - E) = 2 ^ e * (X * Y)).
    { rewrite <- HXY, <- Z.pow_add_r by lia. f_equal; lia. }
    unfold B in Hbelow. nia.
Qed.

Lemma iter_xO_value (n k : positive) : Z.pos (Pos.iter xO n k) = Z.pos n * 2 ^ Z.pos k.
Proof.
  induction k as [| k IH] using Pos.peano_ind.
  - cbn [Pos.iter]. rewrite Pos2Z.inj_xO. lia.
  - rewrite Pos.iter_succ, Pos2Z.inj_xO, IH, Pos2Z.inj_succ, Z.pow_succ_r by lia. lia.
Qed.

Lemma iter_xO_digits (n k : positive) :
  Z.pos (digits2_pos (Pos.iter xO n k)) = Z.pos (digits2_pos n) + Z.pos k.
Proof.
  induction k as [| k IH] using Pos.peano_ind.
  - cbn [Pos.iter digits2_pos]. lia.
  - rewrite Pos.iter_succ. cbn [digits2_pos]. rewrite Pos2Z.inj_succ, IH. lia.
Qed.

(** The Number for an integer below [2^53] in absolute value has the
    value of the integer. *)
Lemma binary_round_exact (sx : bool) (n : positive) :
  Z.pos n < 2 ^ 53 →
  ∃ my ey, binary_round 53 1024 sx n 0 = S754_finite sx my ey ∧
           -52 <= ey <= 0 ∧ Z.pos my = Z.pos n * 2 ^ (- ey).
Proof.
  intros Hn. unfold binary_round.
  destruct (digits2_pos_bounds n) as [Hdlow Hdhigh].
  set (d := Z.pos (digits2_pos n)) in *.
  assert (Hd : 1 <= d <= 53).
  { split; [unfold d; lia |].
    destruct (Z.le_gt_cases d 53) as [Hle | Hgt]; [exact Hle |]. exfalso.
    assert (2 ^ 53 <= 2 ^ (d - 1)) by (apply Z.pow_le_mono_r; lia). lia. }
  rewrite Z.add_0_r, fexp_binary64.
  replace (Z.max (d - 53) (-1074)) with (d - 53) by lia.
  unfold shl_align. rewrite Z.sub_0_r.
  destruct (d - 53) as [| k | k] eqn:Hk; [| lia |].
  - destruct (binary_round_aux_spec sx n 0) as (m & e & -> & _ & _ & Hexact & _).
    destruct Hexact as [-> ->].
    { fold d. rewrite Z.add_0_r, fexp_binary64. lia. }
    exists n, 0. cbn [Z.leb Z.compare]. split; [reflexivity |]. split; [lia |].
    cbn. lia.
  - destruct (binary_round_aux_spec sx (Pos.iter xO n k) (Z.neg k))
      as (m & e & -> & _ & _ & Hexact & _).
    destruct Hexact as [-> ->].
    { rewrite iter_xO_digits. fold d. rewrite fexp_binary64. lia. }
    exists (Pos.iter xO n k), (Z.neg k).
    assert ((Z.neg k <=? 971) = true) as -> by (apply Z.leb_le; lia).
    split; [reflexivity |]. split; [lia |].
    rewrite iter_xO_value. f_equal.
Qed.

Lemma valid_binary_digits (s : bool) (m : positive) (e : Z) :
  valid_binary 53 1024 (S754_finite s m e) = true → Z.pos m < 2 ^ 53.
Proof.
  cbn [valid_binary]. unfold bounded, canonical_mantissa.
  intros Hvalid. apply andb_true_iff in Hvalid as [Hcanonical _].
  apply Z.eqb_eq in Hcanonical. rewrite fexp_binary64 in Hcanonical.
  destruct (digits2_pos_bounds m) as [_ Hhigh].
  assert (2 ^ Z.pos (digits2_pos m) <= 2 ^ 53) by (apply Z.pow_le_mono_r; lia).
  lia.
Qed.

(** [Math.floor(Math.random() * (i + 1))] is an index at or below [i],
    for every [i] that can index an array. *)
Lemma randomIndex_le (r : Random01) (i : nat) :
  Z.of_nat i + 1 < 2 ^ 53 → (randomIndex r i ≤ i)%nat.
Proof.
  intros Hi. unfold randomIndex. destruct r as [x Hx]. cbn [rnd_number].
  apply andb_true_iff in Hx as [Hvalid Hunit].
  replace (Z.of_nat (i + 1)) with (Z.pos (Pos.of_succ_nat i)) by lia.
  change (Num.ofZ (Z.pos (Pos.of_succ_nat i)))
    with (binary_round 53 1024 false (Pos.of_succ_nat i) 0).
  destruct (binary_round_exact false (Pos.of_succ_nat i)) as (my & ey & -> & Hey & Hmy);
    [lia |].
  destruct x as [s | s | | s mx ex]; try discriminate.
  - cbn. lia.
  - cbn [Num.inUnitInterval] in Hunit.
    apply andb_true_iff in Hunit as [Hunit Hbelow].
    apply andb_true_iff in Hunit as [Hsign Hex].
    apply negb_true_iff in Hsign as ->.
    apply Z.ltb_lt in Hex, Hbelow.
    apply valid_binary_digits in Hvalid.
    destruct (mul_floor_below mx ex my ey (Z.pos (Pos.of_succ_nat i)))
      as (j & -> & Hj); try lia.
Qed.

End NumberFacts.

(** ** Cohort selection *)

Section SelectionFacts.

Context {W : Type} (h : Handler W).

Lemma insert_head_perm {A} (l : list A) (j : nat) (a b : A) :
  l !! j = Some b → b :: <[j := a]> l ≡ₚ a :: l.
Proof.
  revert j. induction l as [| y l IH]; intros [| j] Hj; try discriminate.
  - injection Hj as ->. cbn. apply perm_swap.
  - cbn in Hj |- *. rewrite perm_swap. rewrite (IH _ Hj). apply perm_swap.
Qed.

Lemma swap_perm {A} (l : list A) (i j : nat) : swap l i j ≡ₚ l.
Proof.
  unfold swap.
  destruct (l !! i) as [a |] eqn:Hi; [| reflexivity].
  destruct (l !! j) as [b |] eqn:Hj; [| reflexivity].
  revert i j Hi Hj. induction l as [| x l IH]; intros [| i] [| j] Hi Hj; try discriminate.
  - cbn in Hi, Hj |- *. injection Hi as ->. reflexivity.
  - cbn in Hi, Hj |- *. injection Hi as ->. apply insert_head_perm, Hj.
  - cbn in Hi, Hj |- *. injection Hj as ->. apply insert_head_perm, Hi.
  - cbn in Hi, Hj |- *. f_equiv. apply IH; assumption.
Qed.

Lemma shuffleFrom_result {A} (i : nat) (l : list A) (w : W) :
  ∃ l', outcome (interp h (shuffleFrom i l) w) = Returned l' ∧ l' ≡ₚ l.
Proof.
  revert l w. induction i as [| i IH]; intros l w; cbn [shuffleFrom].
  - exists l. split; reflexivity.
  - unfold_prog. cbn [bind interp outcome].
    destruct (IH (swap l (S i) (randomIndex (h _ MathRandom w).1 (S i)))
                 (h _ MathRandom w).2) as (l' & Hout & Hperm).
    exists l'. split; [exact Hout |]. rewrite Hperm. apply swap_perm.
Qed.

Lemma shuffleFrom_draws {A} (i : nat) (l : list A) (w : W) :
  length (trace (interp h (shuffleFrom i l) w)) = i.
Proof.
  revert l w. induction i as [| i IH]; intros l w; cbn [shuffleFrom]; [reflexivity |].
  unfold_prog. cbn [bind interp trace length]. rewrite IH. reflexivity.
Qed.

Lemma sliceMin_nil {A} (count : option Z) : sliceMin count (@nil A) = [].
Proof.
  destruct count as [c |]; [| reflexivity].
  unfold sliceMin. destruct (_ <? _)%Z; apply take_nil.
Qed.

Lemma sliceMin_prefix {A} (count : option Z) (l : list A) :
  sliceMin count l `prefix_of` l.
Proof.
  unfold sliceMin. destruct count as [c |]; [| apply prefix_nil].
  destruct (_ <? _)%Z; apply prefix_take.
Qed.

Lemma sliceMin_length {A} (c : Z) (l : list A) :
  (0 <= c)%Z → length (sliceMin (Some c) l) = Z.to_nat (Z.min c (Z.of_nat (length l))).
Proof.
  intros Hc. unfold sliceMin.
  destruct (Z.ltb_spec (Z.min c (Z.of_nat (length l))) 0) as [Hneg | _]; [lia |].
  rewrite length_take. lia.
Qed.

Lemma sliceMin_nothing {A} (count : option Z) (l : list A) :
  count = None ∨ count = Some 0%Z → sliceMin count l = [].
Proof.
  intros [-> | ->]; [reflexivity |]. unfold sliceMin.
  destruct (Z.ltb_spec (Z.min 0 (Z.of_nat (length l))) 0) as [Hneg | _]; [lia |].
  replace (Z.min 0 (Z.of_nat (length l))) with 0%Z by lia. reflexivity.
Qed.

Lemma sliceMin_sample {A} (count : option Z) (shuffled rows : list A) :
  shuffled ≡ₚ rows → sliceMin count shuffled ⊆+ rows.
Proof.
  intros Hperm. rewrite <- Hperm. unfold sliceMin.
  destruct count as [c |]; [| apply submseteq_nil_l].
  destruct (_ <? _)%Z; apply submseteq_take.
Qed.

Lemma fetchRandomHotels_result (count : option Z) (w : W) :
  ∃ shuffled,
    shuffled ≡ₚ usableRows (h _ SelectHotels w).1 ∧
    outcome (interp h (fetchRandomHotels count) w) = Returned (sliceMin count shuffled).
Proof.
  unfold fetchRandomHotels, usableRows. unfold_prog. cbn [bind interp outcome].
  destruct (error (h _ SelectHotels w).1).
  { exists []. rewrite sliceMin_nil. split; reflexivity. }
  destruct (data (h _ SelectHotels w).1) as [[| row rows] |].
  - exists []. rewrite sliceMin_nil. split; reflexivity.
  - destruct (shuffleFrom_result (length (row :: rows) - 1) (row :: rows)
                (h _ SelectHotels w).2) as (shuffled & Hout & Hperm).
    exists shuffled. split; [exact Hperm |].
    destruct (interp_bind_returned h _ (fun shuffled => Ret (sliceMin count shuffled))
                _ _ Hout) as (Hbind & _ & _).
    exact Hbind.
  - exists []. rewrite sliceMin_nil. split; reflexivity.
Qed.

Lemma fetchUnprocessedHotels_result (count : option Z) (w : W) :
  let processed := h _ SelectReportHotelIds w in
  let allHotels := h _ SelectHotelRecords processed.2 in
  let unprocessed :=
    match error processed.1, error allHotels.1 with
    | None, None =>
        filter (fun record => hotel_id record ∉ processedIds (data processed.1))
               (default [] (data allHotels.1))
    | _, _ => []
    end in
  ∃ shuffled,
    shuffled ≡ₚ unprocessed ∧
    outcome (interp h (fetchUnprocessedHotels count) w)
    = Returned (asDatabaseHotel <$> sliceMin count shuffled).
Proof.
  intros processed allHotels. unfold fetchUnprocessedHotels. unfold_prog.
  cbn [bind interp outcome]. fold processed.
  destruct (error processed.1).
  { exists []. rewrite sliceMin_nil. split; reflexivity. }
  cbn [bind interp outcome]. fold allHotels.
  destruct (error allHotels.1).
  { exists []. rewrite sliceMin_nil. split; reflexivity. }
  destruct (filter _ _) as [| first rest] eqn:Hfilter.
  { exists []. rewrite sliceMin_nil. split; reflexivity. }
  destruct (shuffleFrom_result (length (first :: rest) - 1) (first :: rest) allHotels.2)
    as (shuffled & Hout & Hperm).
  exists shuffled. split; [exact Hperm |].
  destruct (interp_bind_returned h _
              (fun shuffled => Ret (asDatabaseHotel <$> sliceMin count shuffled))
              _ _ Hout) as (Hbind & _ & _).
  exact Hbind.
Qed.

End SelectionFacts.

(** X8.  The Fisher-Yates loop of the two sampling modes returns a
    permutation of the rows it is given, after one draw for each index
    above the first; for an array of fewer than 2^53 elements, every
    index that it computes, as the integer part of the binary64 product
    of the draw and of [i + 1], lies at or below the loop index, so that
    both elements exchanged exist. *)
Theorem shuffle_is_a_permutation_with_draws_in_range
    {W} (h : Handler W) (w : W) {A} (l : list A) :
  (∃ l', outcome (interp h (shuffle l) w) = Returned l' ∧ l' ≡ₚ l) ∧
  length (trace (interp h (shuffle l) w)) = length l - 1 ∧
  (∀ (r : Random01) (i : nat) (l' : list A),
     i < length l' → (Z.of_nat (length l') < 2 ^ 53)%Z →
     randomIndex r i ≤ i ∧
     ∃ a b, l' !! i = Some a ∧ l' !! randomIndex r i = Some b ∧
            swap l' i (randomIndex r i) = <[randomIndex r i := a]> (<[i := b]> l')).
Proof.
  split; [apply shuffleFrom_result |]. split; [apply shuffleFrom_draws |].
  intros r i l' Hi Hsize.
  assert (Hle : randomIndex r i ≤ i) by (apply randomIndex_le; lia).
  split; [exact Hle |].
  destruct (lookup_lt_is_Some_2 l' i Hi) as [a Ha].
  destruct (lookup_lt_is_Some_2 l' (randomIndex r i)) as [b Hb]; [lia |].
  exists a, b. unfold swap. rewrite Ha, Hb. auto.
Qed.

(** The product is rounded before its integer part is taken: the draw
    next below 0.7 and the Number 10 give the index 7. *)
Example randomIndex_of_a_rounded_product : randomIndex Sample.sevenTenths 9 = 7.
Proof. vm_compute. reflexivity. Qed.

(** X9.  [fetchRandomHotels] returns a sample of the rows that the store
    sent: no row is returned more often than it was sent; for a count
    that is not negative the sample has [min(count, rows)] venues; a
    store error, an empty table, a count of zero and a count that is NaN
    all give the empty sample. *)
Theorem random_sample_is_drawn_from_the_rows_without_repetition
    {W} (h : Handler W) (w : W) (count : option Z) :
  let rows := usableRows (h _ SelectHotels w).1 in
  ∃ selected,
    outcome (interp h (fetchRandomHotels count) w) = Returned selected ∧
    selected ⊆+ rows ∧
    (∀ c, count = Some c → (0 <= c)%Z →
          length selected = Z.to_nat (Z.min c (Z.of_nat (length rows)))) ∧
    (count = None ∨ count = Some 0%Z → selected = []).
Proof.
  intros rows.
  destruct (fetchRandomHotels_result h count w) as (shuffled & Hperm & Hout).
  exists (sliceMin count shuffled). split; [exact Hout |]. split; [| split].
  - apply sliceMin_sample, Hperm.
  - intros c -> Hc. rewrite sliceMin_length by exact Hc.
    rewrite (Permutation_length Hperm). reflexivity.
  - apply sliceMin_nothing.
Qed.

(** X10.  [fetchUnprocessedHotels] returns a sample of the rows of the
    table of hotels whose id is not among the hotel ids read from the
    table of reports: no row is returned more often than the store sent
    it, at most [count] rows are returned for a count that is not
    negative, and an error of either query gives the empty sample. *)
Theorem unprocessed_sample_leaves_out_the_venues_linked_to_a_report
    {W} (h : Handler W) (w : W) (count : option Z) :
  let processed := h _ SelectReportHotelIds w in
  let allHotels := h _ SelectHotelRecords processed.2 in
  ∃ records,
    outcome (interp h (fetchUnprocessedHotels count) w)
      = Returned (asDatabaseHotel <$> records) ∧
    records ⊆+ default [] (data allHotels.1) ∧
    Forall (fun record => hotel_id record ∉ processedIds (data processed.1)) records ∧
    (∀ c, count = Some c → (0 <= c)%Z → length records ≤ Z.to_nat c) ∧
    (is_Some (error processed.1) ∨ is_Some (error allHotels.1) → records = []).
Proof.
  intros processed allHotels.
  destruct (fetchUnprocessedHotels_result h count w) as (shuffled & Hperm & Hout).
  fold processed allHotels in Hperm.
  exists (sliceMin count shuffled). split; [exact Hout |].
  pose proof (sliceMin_sample count _ _ Hperm) as Hsample.
  split; [| split; [| split]].
  - etrans; [exact Hsample |].
    destruct (error processed.1); [apply submseteq_nil_l |].
    destruct (error allHotels.1); [apply submseteq_nil_l |].
    apply sublist_submseteq, sublist_filter.
  - apply Forall_forall. intros record Hrecord.
    eapply elem_of_submseteq in Hrecord; [| exact Hsample].
    destruct (error processed.1); [apply elem_of_nil in Hrecord; contradiction |].
    destruct (error allHotels.1); [apply elem_of_nil in Hrecord; contradiction |].
    apply list_elem_of_filter in Hrecord as [Hnot _]. exact Hnot.
  - intros c -> Hc. rewrite sliceMin_length by exact Hc. lia.
  - intros Herror. apply submseteq_nil_r. etrans; [exact Hsample |].
    destruct Herror as [[e He] | [e He]]; rewrite He;
      [| destruct (error processed.1)]; reflexivity.
Qed.

Section SamplingFacts.

Context {W : Type} (h : Handler W).

Lemma loadSystemPrompt_sampling : always h promptOrSampling loadSystemPrompt.
Proof.
  unfold loadSystemPrompt. unfold_prog. cbn [bind].
  apply always_vis; [intros; exact I | intros exists_].
  destruct exists_; cbn; [| apply always_exit].
  apply always_vis; [intros; exact I | intros content].
  destruct content as [content |]; [| apply always_exit].
  destruct (Re.matchSystemPrompt content); [apply always_ret | apply always_exit].
Qed.

Lemma shuffleFrom_sampling {A} i (l : list A) : always h promptOrSampling (shuffleFrom i l).
Proof.
  revert l. induction i as [| i IH]; intros l; cbn [shuffleFrom]; [apply always_ret |].
  unfold_prog. cbn [bind]. apply always_vis; [intros; exact I | intros; apply IH].
Qed.

Lemma selectCohort_sampling cfg cmd :
  samplingMode cmd → always h promptOrSampling (selectCohort cfg cmd).
Proof.
  intros Hmode.
  unfold selectCohort, fetchUnprocessedHotels, fetchRandomHotels, shuffle.
  destruct (useUnprocessedOnly cmd) eqn:Hunprocessed;
    [| destruct Hmode as [Hmode | Hmode]; [congruence | rewrite Hmode]];
    unfold_prog; cbn [bind].
  - apply always_vis; [intros; exact I | intros processed].
    destruct (error processed); [apply always_ret |].
    cbn [bind]. apply always_vis; [intros; exact I | intros allHotels].
    destruct (error allHotels); [apply always_ret |].
    destruct (filter _ _); [apply always_ret |].
    apply always_bind; [apply shuffleFrom_sampling | intros; apply always_ret].
  - apply always_vis; [intros; exact I | intros rows].
    destruct (error rows); [apply always_ret |].
    destruct (data rows) as [[| y rest] |]; try apply always_ret.
    apply always_bind; [apply shuffleFrom_sampling | intros; apply always_ret].
Qed.

End SamplingFacts.

(** X11.  In a sampling mode of [ingest-hotel-data.ts] a count of zero
    and a count that is NaN (a malformed [--random=] value) select no
    venue: the run ends with exit code 1, and every call that it has
    made is a read of the prompt file, a selection query of the sampling
    mode or a draw of its shuffle: no call to a provider or to the
    model, no lookup and no insert. *)
Theorem sampling_nothing_ends_the_run_with_code_one
    {W} (h : Handler W) (w : W) (cfg : Config) (JSON_parse : string → option json)
    (Date_parse : string → option Z) (setDateBack : Z → Z → Z)
    (createClient : string → string → bool) (cmd : CommandLine) :
  samplingMode cmd →
  RANDOM_SAMPLE_COUNT cmd = None ∨ RANDOM_SAMPLE_COUNT cmd = Some 0%Z →
  let r := interp h (runIngestion cfg JSON_parse Date_parse setDateBack createClient cmd) w in
  outcome r = Exited 1 ∧ Forall promptOrSampling (trace r).
Proof.
  intros Hmode Hcount r. subst r. unfold runIngestion.
  destruct (missingKeys cfg); [| split; [reflexivity | constructor]].
  unfold_prog. rewrite interp_bind. unfold andThen.
  pose proof (loadSystemPrompt_sampling h w) as Hload.
  destruct (loadSystemPrompt_outcome h w) as [[_ Hexit] | [_ [prompt Hprompt]]].
  { rewrite Hexit. split; [reflexivity | exact Hload]. }
  rewrite Hprompt. cbn [outcome world trace].
  unfold createSupabaseClient.
  destruct (createClient _ _);
    [| cbn [bind interp outcome trace]; rewrite app_nil_r; split; [reflexivity | exact Hload]].
  cbn [bind]. rewrite interp_bind. unfold andThen.
  pose proof (selectCohort_sampling h cfg cmd Hmode (world (interp h loadSystemPrompt w)))
    as Hselect.
  assert (Hnone : outcome (interp h (selectCohort cfg cmd)
                             (world (interp h loadSystemPrompt w))) = Returned []).
  { unfold selectCohort.
    destruct (useUnprocessedOnly cmd) eqn:Hunprocessed.
    - destruct (fetchUnprocessedHotels_result h (RANDOM_SAMPLE_COUNT cmd)
                  (world (interp h loadSystemPrompt w))) as (shuffled & _ & Hout).
      rewrite Hout, sliceMin_nothing by exact Hcount. reflexivity.
    - destruct Hmode as [Hmode | Hmode]; [congruence |]. rewrite Hmode.
      destruct (fetchRandomHotels_result h (RANDOM_SAMPLE_COUNT cmd)
                  (world (interp h loadSystemPrompt w))) as (shuffled & _ & Hout).
      rewrite Hout, sliceMin_nothing by exact Hcount. reflexivity. }
  rewrite Hnone. cbn [outcome trace interp]. rewrite app_nil_r.
  split; [reflexivity |]. apply Forall_app. split; assumption.
Qed.

(** ** Texts *)

Lemma stripPrefix_app p s : Js.stripPrefix p (p +:+ s) = Some s.
Proof.
  induction p as [| a p IH]; [destruct s; reflexivity |].
  change (String a p +:+ s) with (String a (p +:+ s)). cbn [Js.stripPrefix].
  rewrite bool_decide_eq_true_2 by reflexivity. exact IH.
Qed.

Lemma stripPrefix_other a p b s : a ≠ b → Js.stripPrefix (String a p) (String b s) = None.
Proof. intros Hne. cbn [Js.stripPrefix]. rewrite bool_decide_eq_false_2 by exact Hne. reflexivity. Qed.

Lemma replaceFirst_unfold pat rep s :
  Js.replaceFirst pat rep s =
    match Js.stripPrefix pat s with
    | Some rest => rep +:+ rest
    | None =>
        match s with
        | EmptyString => EmptyString
        | String c r => String c (Js.replaceFirst pat rep r)
        end
    end.
Proof. destruct s; reflexivity. Qed.

Lemma replaceFirst_at_start pat rep s : Js.replaceFirst pat rep (pat +:+ s) = rep +:+ s.
Proof. rewrite replaceFirst_unfold, stripPrefix_app. reflexivity. Qed.

(** The first occurrence of a pattern that starts with [a] is not inside
    a text that does not hold [a]. *)
Lemma replaceFirst_after a pat rep p s :
  occursIn a p = false →
  Js.replaceFirst (String a pat) rep (p +:+ String a pat +:+ s) = p +:+ rep +:+ s.
Proof.
  induction p as [| c p IH]; intros Hp.
  - change (Js.replaceFirst (String a pat) rep (String a pat +:+ s) = rep +:+ s).
    apply replaceFirst_at_start.
  - cbn [occursIn] in Hp. apply orb_false_iff in Hp as [Hc Hp].
    apply bool_decide_eq_false in Hc.
    change (String c p +:+ ?x) with (String c (p +:+ x)).
    rewrite replaceFirst_unfold, stripPrefix_other by congruence.
    rewrite (IH Hp). reflexivity.
Qed.

Lemma trimStart_whiteSpace ws a s :
  allWhiteSpace ws = true → Js.isWhiteSpace a = false →
  Js.trimStart (ws +:+ String a s) = String a s.
Proof.
  intros Hws Ha. induction ws as [| c ws IH].
  - change (Js.trimStart (String a s) = String a s). cbn [Js.trimStart].
    rewrite Ha. reflexivity.
  - cbn [allWhiteSpace] in Hws. apply andb_true_iff in Hws as [Hc Hws].
    change (String c ws +:+ ?x) with (String c (ws +:+ x)).
    cbn [Js.trimStart]. rewrite Hc. exact (IH Hws).
Qed.

Lemma untilFence_unfold s :
  Re.untilFence s =
    match Js.stripPrefix Re.fence s with
    | Some _ => Some EmptyString
    | None =>
        match s with
        | EmptyString => None
        | String c r => String c <$> Re.untilFence r
        end
    end.
Proof. destruct s; reflexivity. Qed.

Lemma untilFence_body body post :
  occursIn "`" body = false → Re.untilFence (body +:+ Re.fence +:+ post) = Some body.
Proof.
  induction body as [| c body IH]; intros Hbody.
  - rewrite untilFence_unfold. change (EmptyString +:+ ?x) with x.
    rewrite stripPrefix_app. reflexivity.
  - cbn [occursIn] in Hbody. apply orb_false_iff in Hbody as [Hc Hbody].
    apply bool_decide_eq_false in Hc.
    change (String c body +:+ ?x) with (String c (body +:+ x)).
    rewrite untilFence_unfold. unfold Re.fence at 1.
    rewrite stripPrefix_other by congruence.
    rewrite (IH Hbody). reflexivity.
Qed.

Lemma matchSystemPrompt_unfold s :
  Re.matchSystemPrompt s =
    match Re.systemPromptAt s with
    | Some g => Some g
    | None =>
        match s with
        | EmptyString => None
        | String _ r => Re.matchSystemPrompt r
        end
    end.
Proof. destruct s; reflexivity. Qed.

Lemma includesText_unfold pat s :
  includesText pat s =
    match Js.stripPrefix pat s with
    | Some _ => true
    | None =>
        match s with
        | EmptyString => false
        | String _ r => includesText pat r
        end
    end.
Proof. destruct s; reflexivity. Qed.

(** The heading does not start inside a text in which no number sign is
    followed by a second one. *)
Lemma heading_not_before pre rest :
  includesText "##" (pre +:+ "#") = false →
  Re.matchSystemPrompt (pre +:+ "## System Prompt" +:+ rest)
  = Re.matchSystemPrompt ("## System Prompt" +:+ rest).
Proof.
  induction pre as [| c pre IH]; intros Hpre; [reflexivity |].
  change (String c pre +:+ ?x) with (String c (pre +:+ x)) in *.
  rewrite includesText_unfold in Hpre.
  destruct (Js.stripPrefix "##" (String c (pre +:+ "#"))) eqn:Hstrip; [discriminate |].
  rewrite matchSystemPrompt_unfold, (IH Hpre). unfold Re.systemPromptAt.
  replace (Js.stripPrefix "## System Prompt"
             (String c (pre +:+ "## System Prompt" +:+ rest))) with (@None string);
    [reflexivity |].
  symmetry. cbn [Js.stripPrefix] in Hstrip |- *.
  case_bool_decide as Hc; [| reflexivity].
  destruct pre as [| d pre].
  - cbn in Hstrip. discriminate.
  - change (String d pre +:+ ?x) with (String d (pre +:+ x)) in *.
    cbn [Js.stripPrefix] in Hstrip |- *.
    case_bool_decide as Hd; [discriminate | reflexivity].
Qed.

Lemma matchSystemPrompt_file pre ws body post :
  includesText "##" (pre +:+ "#") = false → allWhiteSpace ws = true →
  occursIn "`" body = false →
  Re.matchSystemPrompt (promptFileOf pre ws body post) = Some body.
Proof.
  intros Hpre Hws Hbody. unfold promptFileOf.
  rewrite heading_not_before by exact Hpre.
  rewrite matchSystemPrompt_unfold. unfold Re.systemPromptAt.
  rewrite stripPrefix_app. cbn [mbind option_bind].
  change (ws +:+ Re.fence +:+ ?x) with (ws +:+ String "`" ("``" +:+ x)).
  rewrite trimStart_whiteSpace by (exact Hws || reflexivity).
  change (String "`" ("``" +:+ ?x)) with (Re.fence +:+ x).
  rewrite stripPrefix_app. cbn [mbind option_bind].
  rewrite untilFence_body by exact Hbody. reflexivity.
Qed.

Lemma trimEnd_idempotent s : Js.trimEnd (Js.trimEnd s) = Js.trimEnd s.
Proof.
  induction s as [| c s IH]; [reflexivity |].
  cbn [Js.trimEnd]. destruct (Js.trimEnd s) as [| c' s'] eqn:Hs.
  - destruct (Js.isWhiteSpace c) eqn:Hc; [reflexivity |].
    cbn [Js.trimEnd]. rewrite Hc. reflexivity.
  - cbn [Js.trimEnd]. cbn [Js.trimEnd] in IH. rewrite IH. reflexivity.
Qed.

Lemma trimEnd_head c s :
  Js.isWhiteSpace c = false → ∃ s', Js.trimEnd (String c s) = String c s'.
Proof.
  intros Hc. cbn [Js.trimEnd]. destruct (Js.trimEnd s); rewrite ?Hc; eauto.
Qed.

Lemma trimStart_head s :
  Js.trimStart s = EmptyString ∨
  ∃ c s', Js.trimStart s = String c s' ∧ Js.isWhiteSpace c = false.
Proof.
  induction s as [| c s IH]; [left; reflexivity |].
  cbn [Js.trimStart]. destruct (Js.isWhiteSpace c) eqn:Hc; [exact IH |].
  right. eauto.
Qed.

Lemma trim_idempotent s : Js.trim (Js.trim s) = Js.trim s.
Proof.
  unfold Js.trim. destruct (trimStart_head s) as [-> | (c & s' & -> & Hc)]; [reflexivity |].
  destruct (trimEnd_head c s' Hc) as [s'' Hs'']. rewrite Hs''.
  cbn [Js.trimStart]. rewrite Hc, <- Hs''. apply trimEnd_idempotent.
Qed.

Lemma lowerChar_idempotent c : Js.lowerChar (Js.lowerChar c) = Js.lowerChar c.
Proof. destruct c as [[] [] [] [] [] [] [] []]; reflexivity. Qed.

Lemma lowerChar_whiteSpace c : Js.isWhiteSpace (Js.lowerChar c) = Js.isWhiteSpace c.
Proof. destruct c as [[] [] [] [] [] [] [] []]; reflexivity. Qed.

Lemma toLowerCase_idempotent s : Js.toLowerCase (Js.toLowerCase s) = Js.toLowerCase s.
Proof.
  induction s as [| c s IH]; [reflexivity |].
  cbn [Js.toLowerCase]. rewrite lowerChar_idempotent, IH. reflexivity.
Qed.

Lemma toLowerCase_trimStart s :
  Js.trimStart (Js.toLowerCase s) = Js.toLowerCase (Js.trimStart s).
Proof.
  induction s as [| c s IH]; [reflexivity |].
  cbn [Js.toLowerCase Js.trimStart]. rewrite lowerChar_whiteSpace.
  destruct (Js.isWhiteSpace c); [exact IH | reflexivity].
Qed.

Lemma toLowerCase_trimEnd s :
  Js.trimEnd (Js.toLowerCase s) = Js.toLowerCase (Js.trimEnd s).
Proof.
  induction s as [| c s IH]; [reflexivity |].
  cbn [Js.toLowerCase Js.trimEnd]. rewrite IH, lowerChar_whiteSpace.
  destruct (Js.trimEnd s); cbn [Js.toLowerCase];
    [destruct (Js.isWhiteSpace c) |]; reflexivity.
Qed.

Lemma toLowerCase_trim s : Js.trim (Js.toLowerCase s) = Js.toLowerCase (Js.trim s).
Proof. unfold Js.trim. rewrite toLowerCase_trimStart, toLowerCase_trimEnd. reflexivity. Qed.

(** X12.  [validateIssueKey] does not tell apart two texts that differ in
    letter case or in surrounding white space, and it returns its own
    results unchanged. *)
Theorem validateIssueKey_ignores_case_and_surrounding_space (key : string) :
  validateIssueKey (Js.toLowerCase key) = validateIssueKey key ∧
  validateIssueKey (Js.trim key) = validateIssueKey key ∧
  validateIssueKey (validateIssueKey key) = validateIssueKey key.
Proof.
  split; [| split].
  - unfold validateIssueKey. rewrite toLowerCase_idempotent. reflexivity.
  - unfold validateIssueKey. rewrite <- toLowerCase_trim, trim_idempotent. reflexivity.
  - pose proof (validateIssueKey_valid key) as Hin.
    unfold VALID_ISSUE_KEYS in Hin.
    repeat (apply elem_of_cons in Hin as [-> | Hin]; [vm_compute; reflexivity |]).
    apply elem_of_nil in Hin. contradiction.
Qed.

(** X13.  [loadSystemPrompt] returns the text between the first pair of
    fences after the heading [## System Prompt], without its surrounding
    white space: for a file made of a text in which no number sign is
    followed by a second one, the heading, white space, a fence, a body
    without backquote and a fence, the prompt is the trimmed body,
    whatever follows the second fence. *)
Theorem prompt_is_the_trimmed_text_between_the_fences
    {W} (h : Handler W) (w : W) (pre ws body post : string) :
  includesText "##" (pre +:+ "#") = false →
  allWhiteSpace ws = true →
  occursIn "`" body = false →
  (h _ PromptFileExists w).1 = true →
  (h _ ReadPromptFile (h _ PromptFileExists w).2).1 = Some (promptFileOf pre ws body post) →
  outcome (interp h loadSystemPrompt w) = Returned (Js.trim body) ∧
  Js.trim (Js.trim body) = Js.trim body.
Proof.
  intros Hpre Hws Hbody Hexists Hread. split; [| apply trim_idempotent].
  unfold loadSystemPrompt. unfold_prog. cbn [bind interp outcome].
  rewrite Hexists. cbn [negb bind interp outcome]. rewrite Hread.
  rewrite matchSystemPrompt_file by assumption. reflexivity.
Qed.

(** X14.  The external review ids keep the two providers apart.  The id
    of a review of the second provider named [places/P/reviews/R], for a
    place id [P] without slash, is [google_P_R]; the id of a review of
    the first provider is never the id of a review of the second; and
    reviews of the first provider with distinct ids keep distinct
    external ids. *)
Theorem external_review_ids_keep_the_providers_apart :
  (∀ place review,
     occursIn "/" place = false →
     googleReviewId ("places/" +:+ place +:+ "/reviews/" +:+ review)
     = "google_" +:+ place +:+ "_" +:+ review) ∧
  (∀ (reviews : list TripAdvisorReview) (g : GoogleReview),
     id (googleToUnified g) ∉ id <$> convertTripAdvisorToUnified reviews) ∧
  (∀ reviews : list TripAdvisorReview,
     NoDup (ta_id <$> reviews) → NoDup (id <$> convertTripAdvisorToUnified reviews)).
Proof.
  split; [| split].
  - intros place review Hplace. unfold googleReviewId.
    rewrite (replaceFirst_at_start "places/").
    change (EmptyString +:+ ?x) with x.
    rewrite (replaceFirst_after "/" "reviews/") by exact Hplace. reflexivity.
  - intros reviews g Hin. unfold convertTripAdvisorToUnified in Hin.
    rewrite <- list_fmap_compose in Hin.
    apply list_elem_of_fmap in Hin as (t & Heq & _).
    cbn in Heq. discriminate Heq.
  - intros reviews Hdup. unfold convertTripAdvisorToUnified.
    rewrite <- list_fmap_compose.
    change (NoDup ((fun r => "tripadvisor_" +:+ ta_id r) <$> reviews)).
    rewrite (list_fmap_compose ta_id (String.append "tripadvisor_")).
    apply NoDup_fmap_2; [apply String.app_inj | exact Hdup].
Qed.

(** ** The command line *)

Lemma digitValue_char (x : N) :
  (x < 10)%N → digitValue (pretty_N_char x) = Some (Z.of_N x).
Proof.
  intros Hx.
  assert (x = 0 ∨ x = 1 ∨ x = 2 ∨ x = 3 ∨ x = 4 ∨ x = 5 ∨ x = 6 ∨ x = 7 ∨ x = 8 ∨ x = 9)%N
    as Hcases by lia.
  repeat destruct Hcases as [-> | Hcases]; try subst x; reflexivity.
Qed.

(** Reading the digits that [pretty] wrote. *)
Lemma digitsValue_pretty (x : N) :
  ∃ m : Z, ∀ acc s,
    digitsValue acc (pretty_N_go x s) = digitsValue (acc * m + Z.of_N x) s.
Proof.
  induction (N.lt_wf_0 x) as [x _ IH].
  destruct (decide (x = 0)%N) as [-> | Hx].
  { exists 1%Z. intros acc s. rewrite pretty_N_go_0. f_equal. lia. }
  destruct (IH (x `div` 10)%N) as [m Hm]; [apply N.div_lt; lia |].
  exists (10 * m)%Z. intros acc s.
  rewrite pretty_N_go_step by lia. rewrite Hm. cbn [digitsValue].
  rewrite digitValue_char by (apply N.mod_lt; lia).
  f_equal. pose proof (N.div_mod x 10 ltac:(lia)) as Hdiv. lia.
Qed.

Lemma pretty_N_go_head (x : N) s :
  (0 < x)%N →
  ∃ c r d, pretty_N_go x s = String c r ∧ digitValue c = Some d.
Proof.
  revert s. induction (N.lt_wf_0 x) as [x _ IH]. intros s Hx.
  rewrite pretty_N_go_step by exact Hx.
  destruct (decide (x `div` 10 = 0)%N) as [-> | Hdiv].
  - rewrite pretty_N_go_0. do 3 eexists. split; [reflexivity |].
    apply digitValue_char, N.mod_lt. lia.
  - apply IH; [apply N.div_lt; lia | apply N.neq_0_lt_0, Hdiv].
Qed.

Lemma pretty_N_go_app (x : N) s t : pretty_N_go x s +:+ t = pretty_N_go x (s +:+ t).
Proof.
  revert s. induction (N.lt_wf_0 x) as [x _ IH]. intros s.
  destruct (decide (x = 0)%N) as [-> | Hx]; [rewrite !pretty_N_go_0; reflexivity |].
  rewrite (pretty_N_go_step x s), (pretty_N_go_step x (s +:+ t)) by lia.
  rewrite IH by (apply N.div_lt; lia). reflexivity.
Qed.

Lemma digitsValue_stop acc s : noDigitAhead s → digitsValue acc s = acc.
Proof. destruct s as [| c s]; [reflexivity |]. cbn. intros ->. reflexivity. Qed.

Lemma digit_not_whiteSpace c d : digitValue c = Some d → Js.isWhiteSpace c = false.
Proof. destruct c as [[] [] [] [] [] [] [] []]; cbn; intros; try discriminate; reflexivity. Qed.

Lemma digit_not_sign c d : digitValue c = Some d → c ≠ "-"%char ∧ c ≠ "+"%char.
Proof. intros Hd. split; intros ->; discriminate Hd. Qed.

Lemma parseInt10_unsigned c r d :
  digitValue c = Some d → parseInt10 (String c r) = Num.ofZ (digitsValue 0 (String c r)).
Proof.
  intros Hd. unfold parseInt10. cbn [Js.trimStart].
  rewrite (digit_not_whiteSpace _ _ Hd).
  destruct (digit_not_sign _ _ Hd) as [Hminus Hplus].
  destruct c as [[] [] [] [] [] [] [] []]; try discriminate Hd; try contradiction;
    cbn [fst snd]; rewrite Hd; cbv zeta;
    match goal with
    | |- context [(?x =? 0)%Z] => destruct (Z.eqb_spec x 0) as [-> | _]; reflexivity
    end.
Qed.

Lemma parseInt10_N (x : N) junk :
  noDigitAhead junk → parseInt10 (pretty x +:+ junk) = Num.ofZ (Z.of_N x).
Proof.
  intros Hjunk. unfold pretty, pretty_N.
  destruct (decide (x = 0)%N) as [-> | Hx].
  - change ("0" +:+ junk) with (String "0" junk).
    rewrite (parseInt10_unsigned "0" junk 0) by reflexivity.
    cbn [digitsValue]. change (digitValue "0") with (Some 0%Z). cbn iota.
    rewrite digitsValue_stop by exact Hjunk. reflexivity.
  - rewrite pretty_N_go_app. change (EmptyString +:+ junk) with junk.
    destruct (pretty_N_go_head x junk ltac:(lia)) as (c & r & d & Heq & Hd).
    rewrite Heq, (parseInt10_unsigned c r d Hd), <- Heq.
    destruct (digitsValue_pretty x) as [m Hm]. rewrite Hm.
    rewrite digitsValue_stop by exact Hjunk. f_equal; lia.
Qed.

(** [parseInt] of the numeral of an integer is the Number nearest to the
    integer. *)
Lemma parseInt10_Z (z : Z) junk :
  noDigitAhead junk → parseInt10 (pretty z +:+ junk) = Num.ofZ z.
Proof.
  intros Hjunk. destruct z as [| p | p]; unfold pretty, pretty_Z.
  - apply (parseInt10_N 0 junk Hjunk).
  - apply (parseInt10_N (Npos p) junk Hjunk).
  - unfold pretty, pretty_positive. unfold pretty, pretty_N.
    destruct (decide (Npos p = 0)%N) as [Hzero | _]; [discriminate |].
    change (("-" +:+ pretty_N_go (N.pos p) EmptyString) +:+ junk)
      with (String "-" (pretty_N_go (N.pos p) EmptyString +:+ junk)).
    rewrite pretty_N_go_app.
    destruct (pretty_N_go_head (Npos p) (EmptyString +:+ junk) ltac:(lia))
      as (c & r & d & Heq & Hd).
    assert (Hval : digitsValue 0 (String c r) = Z.pos p).
    { rewrite <- Heq. destruct (digitsValue_pretty (Npos p)) as [m Hm]. rewrite Hm.
      change (EmptyString +:+ junk) with junk.
      rewrite digitsValue_stop by exact Hjunk. lia. }
    rewrite Heq.
    unfold parseInt10. cbn [Js.trimStart]. change (Js.isWhiteSpace "-") with false.
    cbn iota. cbn [fst snd]. rewrite Hd. cbv zeta. rewrite Hval. reflexivity.
Qed.

(** The Number nearest to an integer below [2^53] in absolute value is
    the integer. *)
Lemma integerOfNumber_ofZ (z : Z) :
  (- 2 ^ 53 < z < 2 ^ 53)%Z → integerOfNumber (Num.ofZ z) = Some z.
Proof.
  intros Hz. destruct z as [| n | n]; [reflexivity | |].
  - change (Num.ofZ (Z.pos n)) with (binary_round 53 1024 false n 0).
    destruct (binary_round_exact false n) as (my & ey & -> & Hey & Hmy); [lia |].
    cbn [integerOfNumber cond_Zopp]. f_equal.
    rewrite Z.shiftl_div_pow2, Hmy by lia. apply Z.div_mul. lia.
  - change (Num.ofZ (Z.neg n)) with (binary_round 53 1024 true n 0).
    destruct (binary_round_exact true n) as (my & ey & -> & Hey & Hmy); [lia |].
    cbn [integerOfNumber cond_Zopp]. f_equal.
    rewrite Z.shiftl_div_pow2, Hmy by lia. rewrite Z.div_mul by lia. reflexivity.
Qed.

Lemma secondField_random value :
  secondField ("--random=" +:+ value) = Some (untilEquals value).
Proof. vm_compute secondField at 1. reflexivity. Qed.

Lemma pretty_N_char_not_equals (x : N) : pretty_N_char x ≠ "="%char.
Proof. unfold pretty_N_char. repeat case_match; discriminate. Qed.

Lemma untilEquals_pretty_go (x : N) s :
  untilEquals (pretty_N_go x s) = pretty_N_go x (untilEquals s).
Proof.
  revert s. induction (N.lt_wf_0 x) as [x _ IH]. intros s.
  destruct (decide (x = 0)%N) as [-> | Hx]; [rewrite !pretty_N_go_0; reflexivity |].
  rewrite (pretty_N_go_step x s), (pretty_N_go_step x (untilEquals s)) by lia.
  rewrite IH by (apply N.div_lt; lia). cbn [untilEquals].
  rewrite bool_decide_eq_false_2 by apply pretty_N_char_not_equals. reflexivity.
Qed.

Lemma untilEquals_pretty (z : Z) : untilEquals (pretty z) = pretty z.
Proof.
  assert (HN : ∀ x : N, untilEquals (pretty x) = pretty x).
  { intros x. unfold pretty, pretty_N. destruct (decide (x = 0)%N); [reflexivity |].
    apply untilEquals_pretty_go. }
  destruct z as [| p | p]; unfold pretty, pretty_Z; [reflexivity | apply (HN (Npos p)) |].
  change ("-" +:+ ?x) with (String "-" x). cbn [untilEquals].
  rewrite bool_decide_eq_false_2 by discriminate. f_equal. apply (HN (Npos p)).
Qed.

Lemma append_nil_r (s : string) : s +:+ EmptyString = s.
Proof.
  induction s as [| c s IH]; [reflexivity |].
  change (String c s +:+ ?x) with (String c (s +:+ x)). rewrite IH. reflexivity.
Qed.

Lemma startsWith_app p s : startsWith p (p +:+ s) = true.
Proof. unfold startsWith. rewrite stripPrefix_app. reflexivity. Qed.

(** X15.  The command line of [ingest-hotel-data.ts].  An argument
    [--random=N], for the decimal numeral of an integer [N], turns
    random sampling on, whatever arguments follow and whether or not
    [--unprocessed] is among them; the count is the integer value of the
    binary64 Number nearest to [N], which is [N] for every [N] between
    [-2^53] and [2^53].  An
    argument [--random=] followed by nothing, or by a text that starts
    with a character other than a digit, a sign and white space, gives a
    count that is NaN.
    Without an argument that starts with [--random=] the count is
    [RANDOM_SAMPLE_SIZE], and sampling is on exactly when [--random] is
    an argument. *)
Theorem command_line_is_read_as_written (cfg : Config) (rest : list string) :
  (∀ z : Z,
     let cmd := parseCommandLine cfg (("--random=" +:+ pretty z) :: rest) in
     useRandomSampling cmd = true ∧
     RANDOM_SAMPLE_COUNT cmd = integerOfNumber (Num.ofZ z) ∧
     ((- 2 ^ 53 < z < 2 ^ 53)%Z → RANDOM_SAMPLE_COUNT cmd = Some z) ∧
     useUnprocessedOnly cmd = bool_decide ("--unprocessed"%string ∈ rest)) ∧
  (∀ value : string,
     match value with
     | EmptyString => True
     | String c _ =>
         digitValue c = None ∧ Js.isWhiteSpace c = false ∧ c ≠ "-"%char ∧ c ≠ "+"%char
     end →
     RANDOM_SAMPLE_COUNT (parseCommandLine cfg (("--random=" +:+ value) :: rest)) = None) ∧
  (List.find (startsWith "--random=") rest = None →
   RANDOM_SAMPLE_COUNT (parseCommandLine cfg rest) = Some (RANDOM_SAMPLE_SIZE cfg) ∧
   useRandomSampling (parseCommandLine cfg rest) = bool_decide ("--random"%string ∈ rest)).
Proof.
  split; [| split].
  - intros z cmd. subst cmd. unfold parseCommandLine. cbn [List.find].
    rewrite startsWith_app.
    cbn [useRandomSampling RANDOM_SAMPLE_COUNT useUnprocessedOnly].
    rewrite orb_true_r, secondField_random.
    rewrite untilEquals_pretty.
    assert (Hparse : parseInt10 (pretty z) = Num.ofZ z).
    { rewrite <- (append_nil_r (pretty z)). apply parseInt10_Z. exact I. }
    rewrite Hparse.
    split; [reflexivity |]. split; [reflexivity |].
    split; [apply integerOfNumber_ofZ |].
    apply bool_decide_ext. rewrite elem_of_cons. split; [| auto].
    intros [Heq | Hin]; [| exact Hin]. discriminate Heq.
  - intros value Hvalue. unfold parseCommandLine. cbn [List.find].
    rewrite startsWith_app. cbn [RANDOM_SAMPLE_COUNT].
    rewrite secondField_random.
    destruct value as [| c value]; [reflexivity |].
    destruct Hvalue as (Hdigit & Hspace & Hminus & Hplus).
    cbn [untilEquals]. case_bool_decide; [reflexivity |].
    unfold parseInt10. cbn [Js.trimStart]. rewrite Hspace.
    destruct c as [[] [] [] [] [] [] [] []]; try contradiction;
      cbn [fst snd]; rewrite Hdigit; reflexivity.
  - intros Hnone. unfold parseCommandLine. rewrite Hnone.
    cbn [RANDOM_SAMPLE_COUNT useRandomSampling]. rewrite orb_false_r. auto.
Qed.

(** Above [2^53] the count can differ from the numeral written:
    [--random=9007199254740993] gives 9007199254740992. *)
Example command_line_count_is_a_Number :
  RANDOM_SAMPLE_COUNT
    (parseCommandLine (CONFIG Sample.env) ["--random=9007199254740993"%string])
    = Some 9007199254740992%Z.
Proof. vm_compute. reflexivity. Qed.

(** ** The adapters of the review providers *)

(** X16.  The adapters of the review providers never end the process and
    never fail: a call that is rejected, a status outside 200..299 and a
    body without the list all count as an empty list.  The name search
    returns the first match.  The first adapter returns reviews that the
    provider sent, in their order, rated [MAX_REVIEW_RATING] or below,
    and at most [MAX_REVIEWS_PER_HOTEL] of them; the second returns the
    first [MAX_REVIEWS_PER_HOTEL] reviews that the provider sent,
    converted. *)
Theorem review_adapters_cap_their_result_and_fail_soft
    {W} (h : Handler W) (w : W) (cfg : Config) (Date_parse : string → option Z)
    (setDateBack : Z → Z → Z) (hotelName locationId placeId : string) :
  (∃ found,
     outcome (interp h (searchHotelTripAdvisor hotelName) w) = Returned found ∧
     (noMatch (h _ (TripAdvisorSearch hotelName) w).1 → found = None) ∧
     (∀ l, firstMatch (h _ (TripAdvisorSearch hotelName) w).1 l → found = Some l)) ∧
  (∃ reviews,
     outcome (interp h (fetchTripAdvisorReviews cfg Date_parse setDateBack locationId) w)
       = Returned reviews ∧
     reviews `sublist_of` sentReviews (h _ (TripAdvisorReviews locationId) w).1 ∧
     length reviews ≤ MAX_REVIEWS_PER_HOTEL cfg ∧
     Forall (fun r => (ta_rating r <= MAX_REVIEW_RATING cfg)%Z) reviews) ∧
  outcome (interp h (fetchGoogleReviewsAll cfg placeId hotelName) w)
  = Returned (googleToUnified <$>
                take (MAX_REVIEWS_PER_HOTEL cfg)
                  (sentReviews (h _ (GooglePlaceDetails placeId) w).1)).
Proof.
  split; [| split].
  - unfold searchHotelTripAdvisor. unfold_prog. cbn [bind interp outcome].
    eexists. split; [reflexivity |].
    destruct (h _ (TripAdvisorSearch hotelName) w).1 as [| status body]; cbn [noMatch].
    + split; [reflexivity |]. intros l (status & rest & Heq & _). discriminate.
    + split.
      * intros [Hstatus | [-> | [-> | ->]]]; [rewrite Hstatus; reflexivity | ..];
          destruct (ok status); reflexivity.
      * intros l (status' & rest & [= -> ->] & Hok). rewrite Hok. reflexivity.
  - apply fetchTripAdvisorReviews_result.
  - apply fetchGoogleReviewsAll_result.
Qed.

Lemma take_prefix_le {A} (n m : nat) (l : list A) :
  n ≤ m → take n l `prefix_of` take m l.
Proof.
  revert n m. induction l as [| x l IH]; intros [| n] [| m] Hle; cbn [take];
    try apply prefix_nil; try lia.
  apply prefix_cons, IH. lia.
Qed.

Lemma filter_take_prefix {A} (P : A -> Prop) `{∀ x, Decision (P x)} (n : nat) (l : list A) :
  filter P (take n l) `prefix_of` take n (filter P l).
Proof.
  revert n. induction l as [| x l IH]; intros [| n]; cbn [take];
    try (rewrite ?filter_nil, ?take_nil; apply prefix_nil).
  rewrite !filter_cons. destruct (decide (P x)).
  - cbn [take]. apply prefix_cons, IH.
  - etrans; [apply IH |]. apply take_prefix_le. lia.
Qed.

Lemma filter_take_all {A} (P : A -> Prop) `{∀ x, Decision (P x)} (n : nat) (l : list A) :
  length l ≤ n → filter P (take n l) = take n (filter P l).
Proof.
  intros Hlen. rewrite !take_ge; [reflexivity | | exact Hlen].
  etrans; [apply length_filter | exact Hlen].
Qed.

Lemma filter_unified (cfg : Config) (l : list GoogleReview) :
  filter (fun u => (rating u <= MAX_REVIEW_RATING cfg)%Z) (googleToUnified <$> l)
  = googleToUnified <$> filter (fun g => (g_rating g <= MAX_REVIEW_RATING cfg)%Z) l.
Proof.
  induction l as [| g l IH]; [reflexivity |].
  cbn [fmap list_fmap]. rewrite !filter_cons. cbn [googleToUnified rating].
  cbn [fmap] in IH. rewrite IH.
  destruct (decide (g_rating g <= MAX_REVIEW_RATING cfg)%Z); reflexivity.
Qed.

(** X17.  The adapter [fetchGoogleReviews], which filters by rating
    before it caps, against what the driver does: [fetchGoogleReviewsAll],
    which caps, followed by the two filter stages, by rating and then by
    age.  On the same answer of the provider the reviews that pass the
    driver's rating stage are the first of the adapter's reviews, and
    they are all of them when the provider sent no more than
    [MAX_REVIEWS_PER_HOTEL] reviews.  The reviews that the driver keeps
    after its age stage are among those, in their order, whatever the
    clock reads; they are all of those when [MAX_REVIEW_AGE_DAYS] is 0.
    The adapter returns at most [MAX_REVIEWS_PER_HOTEL] reviews, all
    rated [MAX_REVIEW_RATING] or below, of any age. *)
Theorem rating_filter_before_the_cap_keeps_more
    {W} (h : Handler W) (w : W) (cfg : Config) (Date_parse : string → option Z)
    (setDateBack : Z → Z → Z) (placeId hotelName : string) :
  let sent := sentReviews (h _ (GooglePlaceDetails placeId) w).1 in
  ∃ capped filteredFirst,
    outcome (interp h (fetchGoogleReviewsAll cfg placeId hotelName) w) = Returned capped ∧
    outcome (interp h (fetchGoogleReviews cfg placeId hotelName) w) = Returned filteredFirst ∧
    let negative := filter (fun u => (rating u <= MAX_REVIEW_RATING cfg)%Z) capped in
    negative `prefix_of` filteredFirst ∧
    (length sent ≤ MAX_REVIEWS_PER_HOTEL cfg → filteredFirst = negative) ∧
    (∀ w', ∃ kept,
       outcome (interp h (filterReviews cfg Date_parse setDateBack rating publishDate capped) w')
         = Returned kept ∧
       kept `sublist_of` negative ∧
       kept `sublist_of` filteredFirst ∧
       (MAX_REVIEW_AGE_DAYS cfg = 0%Z → kept = negative)) ∧
    length filteredFirst ≤ MAX_REVIEWS_PER_HOTEL cfg ∧
    Forall (fun u => (rating u <= MAX_REVIEW_RATING cfg)%Z) filteredFirst.
Proof.
  intros sent.
  exists (googleToUnified <$> take (MAX_REVIEWS_PER_HOTEL cfg) sent),
         (googleToUnified <$>
            take (MAX_REVIEWS_PER_HOTEL cfg)
              (filter (fun g => (g_rating g <= MAX_REVIEW_RATING cfg)%Z) sent)).
  split; [apply fetchGoogleReviewsAll_result |]. split.
  { subst sent. unfold fetchGoogleReviews. unfold_prog. cbn [bind interp outcome].
    destruct (h _ (GooglePlaceDetails placeId) w).1 as [| status body];
      cbn [sentReviews]; [rewrite filter_nil, take_nil; reflexivity |].
    destruct body as [[reviews |] |]; destruct (ok status); cbn [negb];
      rewrite ?filter_nil, ?take_nil; reflexivity. }
  cbv zeta.
  assert (Hprefix :
            filter (fun u => (rating u <= MAX_REVIEW_RATING cfg)%Z)
              (googleToUnified <$> take (MAX_REVIEWS_PER_HOTEL cfg) sent)
            `prefix_of`
            googleToUnified <$>
              take (MAX_REVIEWS_PER_HOTEL cfg)
                (filter (fun g => (g_rating g <= MAX_REVIEW_RATING cfg)%Z) sent)).
  { rewrite filter_unified.
    destruct (filter_take_prefix (fun g => (g_rating g <= MAX_REVIEW_RATING cfg)%Z)
                (MAX_REVIEWS_PER_HOTEL cfg) sent) as [k Hk].
    exists (googleToUnified <$> k). rewrite Hk, fmap_app. reflexivity. }
  split; [exact Hprefix |]. split; [| split; [| split]].
  - intros Hlen. rewrite filter_unified, filter_take_all by exact Hlen. reflexivity.
  - intros w'.
    destruct (filterReviews_returns h cfg Date_parse setDateBack rating publishDate
                (googleToUnified <$> take (MAX_REVIEWS_PER_HOTEL cfg) sent) w')
      as [kept Hkept].
    exists kept. split; [exact Hkept |].
    assert (Hsub : kept `sublist_of`
                     filter (fun u => (rating u <= MAX_REVIEW_RATING cfg)%Z)
                       (googleToUnified <$> take (MAX_REVIEWS_PER_HOTEL cfg) sent)).
    { exact (filterM_sublist h _ _ w' kept Hkept). }
    split; [exact Hsub |]. split.
    + etrans; [exact Hsub |]. destruct Hprefix as [k ->]. apply sublist_inserts_r.
      reflexivity.
    + intros Hzero.
      rewrite (filterReviews_outcome h cfg Date_parse setDateBack rating publishDate 0%Z)
        in Hkept by (intros Hpos; contradiction).
      injection Hkept as <-. apply list_filter_iff. intros x. unfold keeps. tauto.
  - rewrite length_fmap, length_take. lia.
  - apply Forall_fmap, Forall_take, Forall_forall. intros g Hg.
    apply list_elem_of_filter in Hg as [Hrate _]. exact Hrate.
Qed.

(** ** Settings *)

(** X18.  [validateConfig] lets [ingest-hotel-data.ts] start exactly when
    the five variables it reads from the environment are set to texts
    that are not empty, and [ingest-top-hotels.ts] exactly when the four
    other than the key of the second review provider are. *)
Theorem scripts_start_exactly_when_their_variables_are_set (env : ProcessEnv) :
  (missingKeys (CONFIG env) = [] ↔
     isSet (env_GOOGLE_MAPS_API_KEY env) && isSet (env_TRIPADVISOR_API_KEY env) &&
     isSet (env_DEEPSEEK_API_KEY env) && isSet (env_NEXT_PUBLIC_SUPABASE_URL env) &&
     isSet (env_SUPABASE_SERVICE_ROLE_KEY env) = true) ∧
  (missingKeys (CONFIG_top env) = [] ↔
     isSet (env_TRIPADVISOR_API_KEY env) &&
     isSet (env_DEEPSEEK_API_KEY env) && isSet (env_NEXT_PUBLIC_SUPABASE_URL env) &&
     isSet (env_SUPABASE_SERVICE_ROLE_KEY env) = true).
Proof.
  destruct env as [google tripadvisor deepseek url supabase service].
  split;
    destruct google as [[| ? ?] |], tripadvisor as [[| ? ?] |], deepseek as [[| ? ?] |],
             supabase as [[| ? ?] |], service as [[| ? ?] |];
    vm_compute; split; intros Heq; solve [reflexivity | discriminate Heq].
Qed.

(** ** The prompt of the model calls *)

Section PromptFacts.

Context {W : Type} (h : Handler W).
Variable cfg : Config.
Variable JSON_parse : string -> option json.

Lemma processReview_prompt systemPrompt hotelName review c :
  always h (fun ev => ∀ sent, systemPromptOfEvent ev = Some sent → sent = systemPrompt)
    (processReview cfg JSON_parse systemPrompt hotelName review c).
Proof.
  unfold processReview, checkExistingReport, shouldBeAnonymous,
    transformReviewToSafetyInsight, upsertReport.
  always_walk ltac:(fail) ltac:(cbn in *; congruence).
Qed.

End PromptFacts.

(** X19.  Every model call of a run carries, as its system prompt, the
    text that [loadSystemPrompt] returned at the start of the run. *)
Theorem every_model_call_carries_the_prompt_loaded
    {W} (h : Handler W) (w : W) (cfg : Config) (JSON_parse : string → option json)
    (Date_parse : string → option Z) (setDateBack : Z → Z → Z)
    (createClient : string → string → bool) (s : Script)
    (prompt : string) :
  outcome (interp h loadSystemPrompt w) = Returned prompt →
  Forall (fun sent => sent = prompt)
    (omap systemPromptOfEvent
       (trace (interp h (runScript cfg JSON_parse Date_parse setDateBack createClient s) w))).
Proof.
  intros Hprompt.
  assert (Hnone : ∀ t, Forall uncounted t → omap systemPromptOfEvent t = []).
  { intros t Ht. apply omap_none. eapply Forall_impl; [exact Ht |].
    intros [X c x] (_ & Hchat & _). destruct c; cbn in *; congruence. }
  destruct (missingKeys cfg) as [| key keys] eqn:Hkeys.
  2:{ destruct s; cbn [runScript]; unfold runIngestion, runIngestionTop; rewrite Hkeys;
        constructor. }
  rewrite (runScript_afterPrompt cfg JSON_parse Date_parse setDateBack createClient s Hkeys).
  rewrite interp_bind. unfold andThen. rewrite Hprompt. cbn [trace].
  rewrite omap_app, (Hnone _ (upstream_uncounted h _ (loadSystemPrompt_upstream True) w)).
  cbn [app].
  assert (Huncounted : ∀ ev, uncounted ev →
                          ∀ sent, systemPromptOfEvent ev = Some sent → sent = prompt).
  { intros [X c x] (_ & Hchat & _) sent Hsent. destruct c; cbn in *; congruence. }
  pose proof (afterPrompt_always h cfg JSON_parse Date_parse setDateBack createClient
                (fun ev => ∀ sent, systemPromptOfEvent ev = Some sent → sent = prompt)
                Huncounted
                prompt (processReview_prompt h cfg JSON_parse prompt) s
                (world (interp h loadSystemPrompt w))) as Hall.
  apply Forall_forall. intros sent Hsent.
  apply list_elem_of_omap in Hsent as (ev & Hev & Hsome).
  eapply Forall_forall in Hall; [| exact Hev]. exact (Hall sent Hsome).
Qed.

(** ** Instances *)


Lemma C2_filter_witness :
  let reviews := [Sample.oldReview; Sample.recentReview; Sample.praise] in
  outcome (interp (answer Sample.outside)
             (filterReviews (CONFIG Sample.env) Sample.parseDate Sample.daysBack
                g_rating g_publishTime reviews) Sample.oneHotel)
  = Returned
      (filter (fun x => keeps (CONFIG Sample.env) Sample.parseDate Sample.daysBack
                          Sample.now (g_rating x) (g_publishTime x)) reviews) ∧
  filter (fun x => keeps (CONFIG_top Sample.env) Sample.parseDate Sample.daysBack
                     Sample.now (g_rating x) (g_publishTime x)) reviews
  = filter (fun x => (g_rating x <= 3)%Z) reviews.
Proof.
  cbn zeta. split.
  - apply (C2_filter_keeps_negative_recent_reviews (answer Sample.outside)
             (CONFIG Sample.env) Sample.parseDate Sample.daysBack g_rating g_publishTime
             [Sample.oldReview; Sample.recentReview; Sample.praise]
             Sample.now Sample.oneHotel).
    intros _ w'. reflexivity.
  - apply (C2_filter_keeps_negative_recent_reviews (answer Sample.outside)
             (CONFIG_top Sample.env) Sample.parseDate Sample.daysBack g_rating g_publishTime
             [Sample.oldReview; Sample.recentReview; Sample.praise]
             Sample.now Sample.oneHotel).
    + intros Hage. contradiction Hage. reflexivity.
    + reflexivity.
    + reflexivity.
Defined.

Lemma C10_fail_open_witness :
  let first := Sample.run Sample.outside Sample.allHotels Sample.oneHotel in
  let review := googleToUnified Sample.recentReview in
  let r := interp (answer Sample.outsideReadFailing)
             (processReview (CONFIG Sample.env) Sample.parse "prompt" "Grand Hotel"
                review noCounters) (world first) in
  id review ∈ reviewIds (reports (world first)) ∧
  length (insertsOf (trace r)) = 1 ∧
  reports (world r) = reports (world first).
Proof.
  cbn zeta.
  assert (Hin : id (googleToUnified Sample.recentReview)
                ∈ reviewIds (reports (world (Sample.run Sample.outside Sample.allHotels
                                                Sample.oneHotel)))).
  { apply (bool_decide_unpack _). vm_compute. exact I. }
  split; [exact Hin |].
  pose proof (C10_dedup_gate_fails_open (CONFIG Sample.env) Sample.parse
                "prompt" "Grand Hotel" (googleToUnified Sample.recentReview) noCounters)
    as [_ Hstore].
  destruct (Hstore Sample.outsideReadFailing
              (world (Sample.run Sample.outside Sample.allHotels Sample.oneHotel))
              eq_refl Hin) as (_ & Hone & _ & Hreports).
  split; [exact Hone | exact Hreports].
Defined.

Lemma insert_follows_lookup_witness :
  let r := Sample.run Sample.outside Sample.allHotels Sample.oneHotel in
  let cfg := CONFIG Sample.env in
  let ins := insertOf (reportOf cfg "Grand Hotel" (googleToUnified Sample.recentReview)
                         false
                         (insightOfReply Sample.parse
                            (Responded 200 (Some (chatCompletion Sample.replyText))))) in
  ∃ pre' systemPrompt hotelName review found draw u reply,
    take 12 (trace r) = pre' ++
      [ Answered (SelectReportByReviewId (id review)) found;
        Answered MathRandom draw;
        Answered (Sleep (API_DELAY_MS cfg)) u;
        Answered (DeepSeekChat systemPrompt
                    (userPrompt (text review) hotelName (ins_is_anonymous ins))) reply ] ∧
    (found = None ∨ found = Some []) ∧
    ins = insertOf (reportOf cfg hotelName review (anonymousAt cfg draw)
                      (insightOfReply Sample.parse reply)) ∧
    userPrompt (text review) hotelName (negb (ins_is_anonymous ins))
      ≠ userPrompt (text review) hotelName (ins_is_anonymous ins).
Proof.
  intros r cfg ins.
  refine (insert_follows_lookup_draw_pause_and_model_call
            (answer Sample.outside) Sample.oneHotel cfg Sample.parse
            Sample.parseDate Sample.daysBack Sample.client (IngestHotelData Sample.allHotels)
            (take 12 (trace r)) [] (Answered (InsertReport ins) InsertOk) ins _ _).
  - vm_compute. reflexivity.
  - reflexivity.
Defined.

Lemma pause_before_search_witness :
  let r := Sample.run Sample.outside Sample.allHotels Sample.oneHotel in
  ∃ pre' u, take 4 (trace r) = pre' ++ [Answered (Sleep (API_DELAY_MS (CONFIG Sample.env))) u].
Proof.
  intros r.
  refine (provider_and_model_calls_follow_a_pause
            (answer Sample.outside) Sample.oneHotel (CONFIG Sample.env) Sample.parse
            Sample.parseDate Sample.daysBack Sample.client (IngestHotelData Sample.allHotels)
            (take 4 (trace r)) (drop 5 (trace r))
            (Answered (TripAdvisorSearch "Grand Hotel") (Responded 200 (Some (Some []))))
            _ _).
  - vm_compute. reflexivity.
  - reflexivity.
Defined.

Lemma counters_tally_witness :
  let r := interp (answer Sample.outside)
             (runScript (CONFIG Sample.env) Sample.parse Sample.parseDate Sample.daysBack Sample.client
                (IngestHotelData Sample.allHotels)) Sample.oneHotel in
  let c := {| totalReviews := 1; skippedReviews := 0; successfulReports := 1 |} in
  totalReviews c = countOf isLookup (trace r) ∧
  skippedReviews c = countOf isHit (trace r) ∧
  successfulReports c = countOf isAccepted (trace r) ∧
  countOf isChat (trace r) = totalReviews c - skippedReviews c ∧
  countOf isInsert (trace r) = totalReviews c - skippedReviews c ∧
  skippedReviews c + successfulReports c ≤ totalReviews c.
Proof.
  intros r c.
  refine (counters_are_the_tally_of_the_calls
            (answer Sample.outside) Sample.oneHotel (CONFIG Sample.env) Sample.parse
            Sample.parseDate Sample.daysBack Sample.client (IngestHotelData Sample.allHotels) c _).
  vm_compute. reflexivity.
Defined.

Lemma served_store_witness :
  let r := interp (answer Sample.outside)
             (runScript (CONFIG Sample.env) Sample.parse Sample.parseDate Sample.daysBack Sample.client
                (IngestHotelData Sample.allHotels)) Sample.oneHotel in
  acceptedInserts (trace r) = insertsOf (trace r) ∧
  reports (world r) = reports Sample.oneHotel ++ (rowOfInsert <$> insertsOf (trace r)) ∧
  ∀ c, outcome r = Returned c →
       skippedReviews c + successfulReports c = totalReviews c.
Proof.
  intros r.
  exact (served_store_accepts_every_insert
           Sample.outside Sample.oneHotel (CONFIG Sample.env) Sample.parse
           Sample.parseDate Sample.daysBack Sample.client (IngestHotelData Sample.allHotels)
           (fun n => eq_refl) (fun n => eq_refl)).
Defined.

Lemma venues_attempted_witness :
  let h := answer Sample.outside in
  let w := Sample.oneHotel in
  let cfg := CONFIG Sample.env in
  (∀ cmd dbHotels,
     outcome (interp h (selectCohort cfg cmd) (world (interp h loadSystemPrompt w)))
       = Returned dbHotels →
     omap searchOfEvent
       (trace (interp h (runIngestion cfg Sample.parse Sample.parseDate Sample.daysBack Sample.client
                           cmd) w))
     = name <$> List.filter hasUsablePlaceId dbHotels) ∧
  omap reviewsRequestOfEvent
    (trace (interp h (runIngestionTop cfg Sample.parse Sample.parseDate Sample.daysBack Sample.client) w))
  = tripAdvisorId <$> TOP_HOTELS.
Proof.
  intros h w cfg.
  refine (every_venue_is_attempted_once_in_order h w cfg Sample.parse Sample.parseDate
            Sample.daysBack Sample.client "You are a hotel safety analyst." _ _ _).
  - vm_compute. reflexivity.
  - vm_compute. reflexivity.
  - reflexivity.
Defined.

Lemma sampling_nothing_witness :
  let cmd := {| useUnprocessedOnly := false; useRandomSampling := true;
                RANDOM_SAMPLE_COUNT := None |} in
  let r := interp (answer Sample.outside)
             (runIngestion (CONFIG Sample.env) Sample.parse Sample.parseDate
                Sample.daysBack Sample.client cmd) Sample.oneHotel in
  outcome r = Exited 1 ∧ Forall promptOrSampling (trace r).
Proof.
  intros cmd.
  refine (sampling_nothing_ends_the_run_with_code_one
            (answer Sample.outside) Sample.oneHotel (CONFIG Sample.env) Sample.parse
            Sample.parseDate Sample.daysBack Sample.client cmd _ _).
  - right. reflexivity.
  - left. reflexivity.
Defined.

Lemma prompt_file_witness :
  let body := Js.newline +:+ "You are a hotel safety analyst." +:+ Js.newline in
  outcome (interp (answer Sample.outside) loadSystemPrompt Sample.oneHotel)
    = Returned (Js.trim body) ∧
  Js.trim (Js.trim body) = Js.trim body.
Proof.
  intros body.
  refine (prompt_is_the_trimmed_text_between_the_fences
            (answer Sample.outside) Sample.oneHotel
            ("# Safety analyst" +:+ Js.newline +:+ Js.newline) Js.newline body Js.newline
            _ _ _ _ _).
  - vm_compute. reflexivity.
  - vm_compute. reflexivity.
  - vm_compute. reflexivity.
  - reflexivity.
  - vm_compute. reflexivity.
Defined.

Lemma prompt_carried_witness :
  Forall (fun sent => sent = "You are a hotel safety analyst."%string)
    (omap systemPromptOfEvent
       (trace (interp (answer Sample.outside)
                 (runScript (CONFIG Sample.env) Sample.parse Sample.parseDate Sample.daysBack Sample.client
                    (IngestHotelData Sample.allHotels)) Sample.oneHotel))).
Proof.
  refine (every_model_call_carries_the_prompt_loaded
            (answer Sample.outside) Sample.oneHotel (CONFIG Sample.env) Sample.parse
            Sample.parseDate Sample.daysBack Sample.client (IngestHotelData Sample.allHotels)
            "You are a hotel safety analyst." _).
  vm_compute. reflexivity.
Defined.
